(** * FileToVideo: the frame pipeline of [encode] and [decode]

    A shallow embedding of the Go program (package [main], functions [encode]
    and [decode]) and the properties of its frame pipeline.

    Conventions of the embedding.
    - A Go [[]byte] is a [list Z] whose elements are meant to lie in
      [0..255]; a Go [int] index or counter is a [Z].  The counters of the
      program stay far below 2^63, so their arithmetic is plain [Z]
      arithmetic; the two places where a conversion can wrap (the [uint64]
      to [int64] conversion of the length header, and [i += 4] after the
      "graceful break" assignment) are written out with [wrap_int64].
    - A run-time panic (index or slice bound out of range, [panic(err)]) is
      the outcome [Panic]; a loop that the model bounds with fuel reports
      [OutOfFuel] when the fuel does not suffice, which is a different
      outcome.
    - Worker goroutines finish in an order that the scheduler decides.  The
      single consumer of their channel (the [ffmpegInstance] closure of
      [encode], the writer goroutine of [decode]) is a fold over the list of
      frames in arrival order.
    - The pool of workers between the producer of the frames and that
      consumer is a step relation on what the producer still has to send,
      what every worker holds and what has arrived ([Pool]); a rendezvous on
      one of the two unbuffered channels is one step.
    - The pipe from the codec to the reader goroutine of [decode] is a list
      of blocks of bytes, one per call of [Read] that finds data, of any
      sizes ([Reader]).
    - The external codec is not part of the program; [codec_lossless] is the
      assumption that it hands back the pixels it was given. *)

From Stdlib Require Import ZArith List Lia Bool.
From stdpp Require Import base option list list_numbers gmap sorting.

Local Open Scope Z_scope.

(** ** Outcomes of a run *)

Inductive outcome (A : Type) : Type :=
| Ok (a : A)
| Panic
| OutOfFuel.
Arguments Ok {A} a.
Arguments Panic {A}.
Arguments OutOfFuel {A}.

Definition bind {A B} (m : outcome A) (k : A → outcome B) : outcome B :=
  match m with
  | Ok a => k a
  | Panic => Panic
  | OutOfFuel => OutOfFuel
  end.

Notation "'let*' x ':=' m 'in' k" := (bind m (fun x => k))
  (at level 10, x pattern, m at level 100, k at level 200).

(** [foldM f a l]: a [for] loop whose body [f] may panic, over the values [l]
    of its loop variable. *)
Fixpoint foldM {A B} (f : A → B → outcome A) (a : A) (l : list B) : outcome A :=
  match l with
  | [] => Ok a
  | x :: l' => let* a' := f a x in foldM f a' l'
  end.

Fixpoint mapM {A B} (f : A → outcome B) (l : list A) : outcome (list B) :=
  match l with
  | [] => Ok []
  | x :: l' => let* y := f x in let* ys := mapM f l' in Ok (y :: ys)
  end.

(** The values of [v] in [for v := start; v < stop; v += step] when the body
    does not assign [v]. *)
Definition for_range (start stop step : Z) : list Z :=
  (λ k, start + k * step) <$> seqZ 0 ((stop - start + step - 1) `div` step).

(** ** Go slices *)

Module Slice.

Definition len {A} (l : list A) : Z := Z.of_nat (length l).

(** [make([]byte, n)] *)
Definition make (n : Z) : list Z := replicate (Z.to_nat n) 0.

(** [l[i]] as a value. *)
Definition index {A} (l : list A) (i : Z) : outcome A :=
  if (0 <=? i) && (i <? len l) then
    match l !! Z.to_nat i with
    | Some x => Ok x
    | None => Panic
    end
  else Panic.

(** [l[i] = v] *)
Definition store {A} (l : list A) (i : Z) (v : A) : outcome (list A) :=
  if (0 <=? i) && (i <? len l) then Ok (<[Z.to_nat i := v]> l) else Panic.

(** [l[lo:hi]]; the slices of the program have capacity equal to length. *)
Definition slice {A} (l : list A) (lo hi : Z) : outcome (list A) :=
  if (0 <=? lo) && (lo <=? hi) && (hi <=? len l)
  then Ok (take (Z.to_nat (hi - lo)) (drop (Z.to_nat lo) l))
  else Panic.

(** [l[lo:]] *)
Definition slice_from {A} (l : list A) (lo : Z) : outcome (list A) :=
  slice l lo (len l).

(** [l[:hi]] *)
Definition slice_to {A} (l : list A) (hi : Z) : outcome (list A) :=
  slice l 0 hi.

(** [copy(dst[lo:hi], src)]: the first [min (hi - lo) (len src)] elements
    of [src] overwrite [dst] from [lo] on. *)
Definition copy_into {A} (dst : list A) (lo hi : Z) (src : list A)
  : outcome (list A) :=
  if (0 <=? lo) && (lo <=? hi) && (hi <=? len dst) then
    let n := Nat.min (Z.to_nat (hi - lo)) (length src) in
    Ok (take (Z.to_nat lo) dst ++ take n src ++ drop (Z.to_nat lo + n) dst)
  else Panic.

End Slice.

(** ** Constants of the program *)

Definition dotSize : Z := 8.
Definition frameWidth : Z := 1920.
Definition frameHeight : Z := 1080.
Definition rawBytesPerFrame : Z := frameWidth * frameHeight * 3.
(** Go evaluates [*] and [/] left to right. *)
Definition processedBytesPerFrame : Z :=
  ((((frameWidth `div` dotSize) * frameHeight) `div` dotSize) * 3) `div` 8.

Record frameData := FrameData { frameID : Z; value : list Z }.

(** Go's [int] and [int64] are 64 bits wide (two's complement). *)
Definition wrap_int64 (z : Z) : Z := (z + 2 ^ 63) `mod` 2 ^ 64 - 2 ^ 63.

(** ** encoding/binary, big endian *)

Definition PutUint64 (v : Z) : list Z :=
  [ (v ≫ 56) `mod` 256; (v ≫ 48) `mod` 256; (v ≫ 40) `mod` 256;
    (v ≫ 32) `mod` 256; (v ≫ 24) `mod` 256; (v ≫ 16) `mod` 256;
    (v ≫ 8) `mod` 256; v `mod` 256 ].

Definition Uint64 (b : list Z) : outcome Z :=
  let* b7 := Slice.index b 7 in
  let* b0 := Slice.index b 0 in
  let* b1 := Slice.index b 1 in
  let* b2 := Slice.index b 2 in
  let* b3 := Slice.index b 3 in
  let* b4 := Slice.index b 4 in
  let* b5 := Slice.index b 5 in
  let* b6 := Slice.index b 6 in
  Ok (Z.lor b7 (Z.lor (b6 ≪ 8) (Z.lor (b5 ≪ 16) (Z.lor (b4 ≪ 24)
       (Z.lor (b3 ≪ 32) (Z.lor (b2 ≪ 40) (Z.lor (b1 ≪ 48) (b0 ≪ 56)))))))).

(** ** [encode]: length header and chunking *)

Module Encode.

Definition width : Z := frameWidth `div` dotSize.
Definition height : Z := frameHeight `div` dotSize.

(** [bytes = append(bytesLength, bytes...)] *)
Definition with_header (bytes : list Z) : list Z :=
  PutUint64 (Slice.len bytes) ++ bytes.

(** The loop [for i := 0; i < length; i += processedBytesPerFrame]. *)
Definition chunk (bytes : list Z) : outcome (list (list Z)) :=
  let length := Slice.len bytes in
  foldM (λ rawFrames i,
           let end_ := i + processedBytesPerFrame in
           let end_ := if end_ >? length then length else end_ in
           let* piece := Slice.slice bytes i end_ in
           Ok (rawFrames ++ [piece]))
        [] (for_range 0 length processedBytesPerFrame).

(** [for id, frame := range rawFrames]: the frames sent to the workers. *)
Definition number (rawFrames : list (list Z)) : list frameData :=
  imap (λ id frame, FrameData (Z.of_nat id) frame) rawFrames.

Definition rawFrames (file : list Z) : outcome (list frameData) :=
  let* pieces := chunk (with_header file) in Ok (number pieces).


(** *** The [serializer] worker: one payload segment to one RGBA bitmap *)

(** What the loop over the three channels reads and writes: the pixel under
    construction, the bit cursor into the segment, and the outer loop
    variable [i], which the "graceful outer break" overwrites. *)
Record cursor := Cursor {
  pixel : list Z;
  currByte : Z;
  bitInByte : Z;
  i : Z
}.

(** [for j := 0; j < 3; j++ { ... }], over the remaining values [js] of
    [j]; the [break] ends the recursion. *)
Fixpoint channels (frame : list Z) (frameLen : Z) (js : list Z) (c : cursor)
  : outcome cursor :=
  match js with
  | [] => Ok c
  | j :: js' =>
    let* b := Slice.index frame (currByte c) in
    let* px :=
      if negb (Z.land b (1 ≪ bitInByte c) =? 0)
      then Slice.store (pixel c) j 255
      else Slice.store (pixel c) j 0 in
    if bitInByte c =? 0 then
      let currByte' := currByte c + 1 in
      if currByte' =? frameLen
      then Ok (Cursor px currByte' (bitInByte c) 2147483647)
      else channels frame frameLen js' (Cursor px currByte' 7 (i c))
    else
      channels frame frameLen js' (Cursor px (currByte c) (bitInByte c - 1) (i c))
  end.

(** "Map pixel to big pixel": the two nested loops that copy [pixel] over
    the [dotSize] by [dotSize] block of the macro-dot. *)
Definition paint (pixelData : list Z) (rowIterator columnIterator : Z)
    (pixel : list Z) : outcome (list Z) :=
  foldM (λ pixelData row,
    foldM (λ pixelData column,
      let pixelCoords := column * 7680 + row * 4 in
      Slice.copy_into pixelData pixelCoords (pixelCoords + 3) pixel)
    pixelData
    (for_range (columnIterator * dotSize) (columnIterator * dotSize + dotSize) 1))
  pixelData
  (for_range (rowIterator * dotSize) (rowIterator * dotSize + dotSize) 1).

Record packer := Packer {
  pixelData : list Z;
  rowIterator : Z;
  columnIterator : Z;
  cur : cursor
}.

(** [for i := 0; i < len(pixelData); i += 4 { ... }].  The body assigns
    [i], so the loop is unfolded with fuel; [i] grows by at least 4 in every
    round, so [len(pixelData) / 4] rounds always suffice. *)
Fixpoint dots (fuel : nat) (frame : list Z) (s : packer) : outcome packer :=
  if i (cur s) <? Slice.len (pixelData s) then
    match fuel with
    | O => OutOfFuel
    | S fuel' =>
      let* c := channels frame (Slice.len frame) [0; 1; 2]
                  (Cursor [0; 0; 0] (currByte (cur s)) (bitInByte (cur s)) (i (cur s))) in
      let* pd := paint (pixelData s) (rowIterator s) (columnIterator s) (pixel c) in
      let rowIterator' := rowIterator s + 1 in
      let next_i := wrap_int64 (i c + 4) in
      if rowIterator' =? width
      then dots fuel' frame
             (Packer pd 0 (columnIterator s + 1)
                (Cursor (pixel c) (currByte c) (bitInByte c) next_i))
      else dots fuel' frame
             (Packer pd rowIterator' (columnIterator s)
                (Cursor (pixel c) (currByte c) (bitInByte c) next_i))
    end
  else Ok s.

Definition pixelDataLen : Z := width * height * 4 * dotSize * dotSize.

Definition pack (frame : list Z) : outcome (list Z) :=
  let* s := dots (Z.to_nat (pixelDataLen `div` 4)) frame
              (Packer (Slice.make pixelDataLen) 0 0 (Cursor [0; 0; 0] 0 7 0)) in
  Ok (pixelData s).

(** The body of [for iddFrame := range framesChanIn]. *)
Definition serializer (iddFrame : frameData) : outcome frameData :=
  let* pixelData := pack (value iddFrame) in
  Ok (FrameData (frameID iddFrame) pixelData).

End Encode.

(** ** The reorder buffer shared by the emitter and the writer *)

Module Reorder.

(** Go's [sort.Search(n, f)]: binary search for the least index in [0, n)
    at which [f] holds.  The interval [i, j) shrinks in every round, so
    [n] rounds always suffice. *)
Fixpoint search (fuel : nat) (f : Z → outcome bool) (i j : Z) : outcome Z :=
  if i <? j then
    match fuel with
    | O => OutOfFuel
    | S fuel' =>
      let h := (i + j) ≫ 1 in
      let* b := f h in
      if negb b then search fuel' f (h + 1) j else search fuel' f i h
    end
  else Ok i.

Definition Search (n : Z) (f : Z → outcome bool) : outcome Z :=
  search (Z.to_nat n) f 0 n.

(** The insertion that the program writes out three times:
    [index := sort.Search(len(keys), func(i int) bool { return keys[i] >= frameID })],
    [keys = append(keys, 0)], [copy(keys[index+1:], keys[index:])],
    [keys[index] = frameID]. *)
Definition insert_key (keys : list Z) (frameID : Z) : outcome (list Z) :=
  let* index := Search (Slice.len keys)
                  (λ i, let* k := Slice.index keys i in Ok (k >=? frameID)) in
  let keys := keys ++ [0] in
  let* src := Slice.slice_from keys index in
  let* keys := Slice.copy_into keys (index + 1) (Slice.len keys) src in
  Slice.store keys index frameID.

(** [buffer[id]] of a Go map: the zero value (a nil slice) when absent. *)
Definition map_get (buffer : gmap Z (list Z)) (id : Z) : list Z :=
  default [] (buffer !! id).

End Reorder.

(** ** [encode]: the ordered emitter ([ffmpegInstance]) *)

Module Emitter.

(** [stdin] is the byte stream written so far to the codec's pipe. *)
Record emitter := Emitter {
  stdin : list Z;
  buffer : gmap Z (list Z);
  keys : list Z;
  keysLen : Z;
  wantedID : Z
}.

Definition init : emitter := Emitter [] ∅ [] 0 0.

(** [for keys[0] == wantedID { ... }]; every round removes one key. *)
Fixpoint drain (fuel : nat) (s : emitter) : outcome emitter :=
  let* k0 := Slice.index (keys s) 0 in
  if k0 =? wantedID s then
    match fuel with
    | O => OutOfFuel
    | S fuel' =>
      let stdin' := stdin s ++ Reorder.map_get (buffer s) (wantedID s) in
      let buffer' := delete (wantedID s) (buffer s) in
      let* keys' := Slice.slice_from (keys s) 1 in
      let keysLen' := keysLen s - 1 in
      let wantedID' := wantedID s + 1 in
      let s' := Emitter stdin' buffer' keys' keysLen' wantedID' in
      if keysLen' =? 0 then Ok s' else drain fuel' s'
    end
  else Ok s.

(** The body of [for frame := range framesChanIn]. *)
Definition step (s : emitter) (frame : frameData) : outcome emitter :=
  if frameID frame =? wantedID s then
    let s' := Emitter (stdin s ++ value frame) (buffer s) (keys s)
                      (keysLen s) (wantedID s + 1) in
    if keysLen s' =? 0 then Ok s' else drain (length (keys s')) s'
  else
    let frameID := frameID frame in
    let buffer' := <[frameID := value frame]> (buffer s) in
    let* keys' := Reorder.insert_key (keys s) frameID in
    Ok (Emitter (stdin s) buffer' keys' (keysLen s + 1) (wantedID s)).

Definition run (arrivals : list frameData) : outcome emitter :=
  foldM step init arrivals.

End Emitter.

(** ** The external codec *)

(** Assumption on the codec, which is not part of the program: the raw
    [rgba] stream that [encode] pipes in comes back from [decode]'s
    [-vf format=rgb24 -f rawvideo] pipe with the same colour values, the
    fourth byte of every pixel dropped. *)
Fixpoint codec_lossless (rgba : list Z) : list Z :=
  match rgba with
  | r :: g :: b :: _ :: rest => r :: g :: b :: codec_lossless rest
  | _ => []
  end.

(** ** [decode] *)

Module Decode.

(** What the reader goroutine sends, as a function of the stream that the
    pipe delivers: one frame per [rawBytesPerFrame] bytes, numbered by
    [frameCount]; an incomplete last frame is never sent.  The read loop
    itself, with its partial reads, is [Reader.loop] below; it sends these
    frames whatever the sizes of the reads. *)
Fixpoint read_frames (fuel : nat) (frameCount : Z) (stream : list Z)
  : list frameData :=
  match fuel with
  | O => []
  | S fuel' =>
    if rawBytesPerFrame <=? Slice.len stream then
      FrameData frameCount (take (Z.to_nat rawBytesPerFrame) stream)
      :: read_frames fuel' (frameCount + 1) (drop (Z.to_nat rawBytesPerFrame) stream)
    else []
  end.

Definition reader (stream : list Z) : list frameData :=
  read_frames (Z.to_nat (Slice.len stream `div` rawBytesPerFrame)) 0 stream.

(** *** The frame digester worker: one RGB bitmap to one payload segment *)

Record unpacker := Unpacker {
  processedBytes : list Z;
  currByte : Z;
  bitInByte : Z
}.

(** The body of [for _, bit := range bytes[pixelCoords : pixelCoords+3]]. *)
Definition take_bit (u : unpacker) (bit : Z) : outcome unpacker :=
  let* processedBytes' :=
    if negb (Z.land bit 128 =? 0) then
      let* old := Slice.index (processedBytes u) (currByte u) in
      Slice.store (processedBytes u) (currByte u) (Z.lor old (1 ≪ bitInByte u))
    else Ok (processedBytes u) in
  let bitInByte' := bitInByte u - 1 in
  if bitInByte' =? -1
  then Ok (Unpacker processedBytes' (currByte u + 1) 7)
  else Ok (Unpacker processedBytes' (currByte u) bitInByte').

Definition sample (bytes : list Z) (u : unpacker) (pixelCoords : Z)
  : outcome unpacker :=
  let* channels := Slice.slice bytes pixelCoords (pixelCoords + 3) in
  foldM take_bit u channels.

(** The two sampling loops, [for line := 3; line < 1080; line += 8] and
    [for pixel := 9; pixel < 5760; pixel += 24].  ([byteIterator] is only
    ever incremented and is left out.) *)
Definition unpack (bytes : list Z) : outcome (list Z) :=
  let* u :=
    foldM (λ u line,
      foldM (λ u pixel,
        let pixelCoords := line * 5760 + pixel in
        sample bytes u pixelCoords)
      u (for_range 9 5760 24))
    (Unpacker (Slice.make processedBytesPerFrame) 0 7)
    (for_range 3 1080 8) in
  Ok (processedBytes u).

(** The body of [for frame := range ffmpegOutputChan]. *)
Definition digester (frame : frameData) : outcome frameData :=
  let* processedBytes := unpack (value frame) in
  Ok (FrameData (frameID frame) processedBytes).

End Decode.

(** ** [decode]: the read loop of the reader goroutine *)

Module Reader.

(** The pipe from the codec as the reader goroutine sees it: the blocks of
    bytes that successive calls of [stdout.Read] find available, and how the
    stream ends, with [io.EOF] or with another error. *)
Record pipe := Pipe { blocks : list (list Z); broken : bool }.

Inductive read_result :=
| ReadBytes (data : list Z) (rest : pipe)
| ReadEOF
| ReadError.

(** [stdout.Read(p)] for a [p] of [cap] bytes: as much of the block at the
    head of the pipe as fits into [p]; what does not fit stays in the pipe.
    The end of the stream is reported by a call of its own, as [os.File]
    does. *)
Definition Read (p : pipe) (cap : Z) : read_result :=
  match blocks p with
  | [] => if broken p then ReadError else ReadEOF
  | b :: bs =>
    let n := Z.to_nat (Z.min cap (Slice.len b)) in
    ReadBytes (take n b)
              (Pipe (if Z.of_nat n <? Slice.len b then drop n b :: bs else bs)
                    (broken p))
  end.

(** The variables of the loop, and the frames sent on [ffmpegOutputChan] so
    far. *)
Record reader := Reader {
  buffer : list Z;
  frameCount : Z;
  bytesRead : Z;
  sent : list frameData
}.

Definition init : reader := Reader (Slice.make rawBytesPerFrame) 0 0 [].

(** [for { n, err := stdout.Read(buffer[bytesRead:]); ... }], one call of
    [Read] per round: an error other than the end of the stream is a panic,
    the end of the stream leaves the loop; a full [buffer] is copied and
    sent.  (What follows the loop, [cmd.Wait()], belongs to the codec.) *)
Fixpoint loop (fuel : nat) (p : pipe) (s : reader) : outcome (list frameData) :=
  match fuel with
  | O => OutOfFuel
  | S fuel' =>
    let* window := Slice.slice_from (buffer s) (bytesRead s) in
    match Read p (Slice.len window) with
    | ReadError => Panic
    | ReadEOF => Ok (sent s)
    | ReadBytes data rest =>
      let* buffer' :=
        Slice.copy_into (buffer s) (bytesRead s) (Slice.len (buffer s)) data in
      let bytesRead' := bytesRead s + Slice.len data in
      if bytesRead' =? rawBytesPerFrame then
        loop fuel' rest
             (Reader buffer' (frameCount s + 1) 0
                     (sent s ++ [FrameData (frameCount s) buffer']))
      else loop fuel' rest (Reader buffer' (frameCount s) bytesRead' (sent s))
    end
  end.

Definition run (fuel : nat) (p : pipe) : outcome (list frameData) :=
  loop fuel p init.

End Reader.

(** ** The destination file *)

Module File.

(** [file.Truncate(size)]: an error for a negative size (on which the
    program panics), otherwise the file is cut or extended with zero
    bytes.  The file system is taken to accept every size that is not
    negative; where it refuses one, the program panics at this call too,
    and the model does not show that. *)
Definition Truncate (file : list Z) (size : Z) : outcome (list Z) :=
  if size <? 0 then Panic else Ok (resize (Z.to_nat size) 0 file).

(** [file.WriteAt(b, off)].  The program ignores the result, so a negative
    offset just writes nothing; an empty [b] writes nothing; a write past
    the end extends the file, the gap reading as zero bytes. *)
Definition WriteAt (file : list Z) (b : list Z) (off : Z) : list Z :=
  if (off <? 0) || (Slice.len b =? 0) then file
  else
    let padded := file ++ replicate (Z.to_nat off - length file) 0 in
    take (Z.to_nat off) padded ++ b ++ drop (Z.to_nat off + length b) padded.

End File.

(** ** [decode]: the ordered writer *)

Module Writer.

Record writer := Writer {
  file : list Z;
  lastFrameOffset : Z;
  lengthInt : Z;
  buffer : gmap Z (list Z);
  keys : list Z;
  keysLen : Z;
  wantedID : Z;
  nextWriteByte : Z
}.

(** The state after [os.Create(destFile)] and the declarations. *)
Definition init : writer :=
  Writer [] 0 0 ∅ [] 0 1 (processedBytesPerFrame - 8).

(** [buffer[frameID] = frame.value] followed by the sorted insertion of
    [frameID] into [keys] and [keysLen++]. *)
Definition enqueue (s : writer) (frame : frameData) : outcome writer :=
  let frameID := frameID frame in
  let buffer' := <[frameID := value frame]> (buffer s) in
  let* keys' := Reorder.insert_key (keys s) frameID in
  Ok (Writer (file s) (lastFrameOffset s) (lengthInt s) buffer' keys'
             (keysLen s + 1) (wantedID s) (nextWriteByte s)).

(** [lengthInt] as the first loop reads it off frame 0:
    [int64(binary.BigEndian.Uint64(frameValue[0:8]))]. *)
Definition header_length (frameValue : list Z) : outcome Z :=
  let* lengthBytes := Slice.slice frameValue 0 8 in
  let* u := Uint64 lengthBytes in
  Ok (wrap_int64 u).

(** What the first loop does with frame 0: header, truncation, and the
    write of the payload of frame 0 at offset 0. *)
Definition first_frame (s : writer) (frameValue : list Z) : outcome writer :=
  let* lengthInt := header_length frameValue in
  let lastFrameOffset := Z.rem (lengthInt - 12142) 12150 in
  let* file := File.Truncate (file s) lengthInt in
  let* data :=
    if lengthInt <? processedBytesPerFrame - 8
    then Slice.slice frameValue 8 lengthInt
    else Slice.slice_from frameValue 8 in
  Ok (Writer (File.WriteAt file data 0) lastFrameOffset lengthInt
             (buffer s) (keys s) (keysLen s) (wantedID s) (nextWriteByte s)).

(** The first [for frame := range digestedFramesChan], which ends with
    [break] at frame 0; it returns the frames still to come. *)
Fixpoint await_first (arrivals : list frameData) (s : writer)
  : outcome (writer * list frameData) :=
  match arrivals with
  | [] => Ok (s, [])
  | frame :: rest =>
    if negb (frameID frame =? 0) then
      let* s' := enqueue s frame in
      await_first rest s'
    else
      let* s' := first_frame s (value frame) in
      Ok (s', rest)
  end.

(** [int(math.Ceil(float64(a)/float64(b)))] for [b > 0].  The quotient is
    taken exactly; the floating-point quotient agrees with it for every
    length a file can have. *)
Definition ceil_div (a b : Z) : Z := - ((- a) `div` b).

(** [for keys[0] == wantedID { ... }] in the second loop. *)
Fixpoint drain (fuel : nat) (s : writer) : outcome writer :=
  let* k0 := Slice.index (keys s) 0 in
  if k0 =? wantedID s then
    match fuel with
    | O => OutOfFuel
    | S fuel' =>
      let file' := File.WriteAt (file s) (Reorder.map_get (buffer s) (wantedID s))
                                (nextWriteByte s) in
      let buffer' := delete (wantedID s) (buffer s) in
      let* keys' := Slice.slice_from (keys s) 1 in
      let keysLen' := keysLen s - 1 in
      let wantedID' := wantedID s + 1 in
      let nextWriteByte' := nextWriteByte s + processedBytesPerFrame in
      let s' := Writer file' (lastFrameOffset s) (lengthInt s) buffer' keys'
                       keysLen' wantedID' nextWriteByte' in
      if keysLen' =? 0 then Ok s' else drain fuel' s'
    end
  else Ok s.

(** The body of the second [for frame := range digestedFramesChan]. *)
Definition step (s : writer) (frame : frameData) : outcome writer :=
  let frameID := frameID frame in
  if frameID =? wantedID s then
    let* value' :=
      if frameID =? ceil_div (lengthInt s + 8) processedBytesPerFrame - 1
      then Slice.slice_to (value frame) (lastFrameOffset s)
      else Ok (value frame) in
    let s' := Writer (File.WriteAt (file s) value' (nextWriteByte s))
                     (lastFrameOffset s) (lengthInt s) (buffer s) (keys s)
                     (keysLen s) (wantedID s + 1)
                     (nextWriteByte s + processedBytesPerFrame) in
    if keysLen s' =? 0 then Ok s' else drain (length (keys s')) s'
  else enqueue s frame.

Definition run (arrivals : list frameData) : outcome writer :=
  let* first := await_first arrivals init in
  foldM step first.1 first.2.

End Writer.

(** ** The two pipelines *)

(** [completion] is the order in which the scheduler lets the workers hand
    their frames over; with a single worker it is the identity. *)
Definition encode (completion : list frameData → list frameData)
    (srcFile : list Z) : outcome (list Z) :=
  if negb (frameWidth `mod` dotSize =? 0) || negb (frameHeight `mod` dotSize =? 0)
  then Panic
  else
    let* rawFrames := Encode.rawFrames srcFile in
    let* packed := mapM Encode.serializer rawFrames in
    let* e := Emitter.run (completion packed) in
    Ok (Emitter.stdin e).

Definition decode (completion : list frameData → list frameData)
    (video : list Z) : outcome (list Z) :=
  let* digested := mapM Decode.digester (Decode.reader video) in
  let* w := Writer.run (completion digested) in
  Ok (Writer.file w).

(** The workers hand their frames over in index order. *)
Definition in_order : list frameData → list frameData := id.

(** ** The worker pools *)

Module Pool.

(** A pool of worker goroutines between two unbuffered channels.  The
    producer sends the frames of [queue] in order ([rawFramesChan <- ...] in
    [encode], [ffmpegOutputChan <- ...] in [decode]).  A worker that waits
    at [range framesChanIn] holds no frame; one that has received a frame
    holds it until the single consumer takes the result.  [arrived] lists
    what the consumer has received, oldest first. *)
Record pool := Pool {
  queue : list frameData;
  workers : list (option frameData);
  arrived : list frameData
}.

(** One rendezvous on one of the two channels: idle worker [w] receives the
    next frame of the producer, or worker [w] hands the result of its frame
    to the consumer.  [work] is the body of the worker's loop. *)
Inductive step (work : frameData → outcome frameData) : pool → pool → Prop :=
| receive f q ws out (w : nat) :
    ws !! w = Some None →
    step work (Pool (f :: q) ws out) (Pool q (<[w := Some f]> ws) out)
| send f f' q ws out (w : nat) :
    ws !! w = Some (Some f) → work f = Ok f' →
    step work (Pool q ws out) (Pool q (<[w := None]> ws) (out ++ [f'])).

(** [threads] workers are started, all of them idle, before the first frame
    is sent. *)
Definition init (threads : Z) (frames : list frameData) : pool :=
  Pool frames (replicate (Z.to_nat threads) None) [].

(** The producer has sent every frame and every worker has handed over its
    result: the channels are closed and the wait groups return. *)
Definition finished (p : pool) : Prop :=
  queue p = [] ∧ Forall (λ w, w = None) (workers p).

(** The orders in which the results of [frames] can reach the consumer. *)
Definition arrivals (threads : Z) (work : frameData → outcome frameData)
    (frames out : list frameData) : Prop :=
  ∃ p, rtc (step work) (init threads frames) p ∧ finished p ∧ arrived p = out.

(** [encode(srcFile, destFile, threads)]: a video that a run with [threads]
    packers can pipe into the codec. *)
Definition encode (threads : Z) (srcFile video : list Z) : Prop :=
  ∃ rawFrames packed e,
    frameWidth `mod` dotSize = 0 ∧ frameHeight `mod` dotSize = 0
    ∧ Encode.rawFrames srcFile = Ok rawFrames
    ∧ arrivals threads Encode.serializer rawFrames packed
    ∧ Emitter.run packed = Ok e
    ∧ video = Emitter.stdin e.

(** [decode(srcFile, destFile, threads)]: a file that a run with [threads]
    unpackers can leave behind, [video] being what the codec's pipe
    delivers. *)
Definition decode (threads : Z) (video destFile : list Z) : Prop :=
  ∃ digested w,
    arrivals threads Decode.digester (Decode.reader video) digested
    ∧ Writer.run digested = Ok w
    ∧ destFile = Writer.file w.

End Pool.

(** ** Vocabulary of the statements *)

(** Bit number [m] of a byte sequence, counting from the most significant
    bit of byte 0; [false] past the end. *)
Definition payload_bit (payload : list Z) (m : Z) : bool :=
  match payload !! Z.to_nat (m `div` 8) with
  | Some b => Z.testbit b (7 - m `mod` 8)
  | None => false
  end.

(** Full intensity for a set bit, zero for a clear one. *)
Definition channel_value (bit : bool) : Z := if bit then 255 else 0.

(** The high bit (0x80) of a channel byte. *)
Definition high_bit (v : Z) : bool := Z.testbit v 7.

(** Channel [c] of the pixel in column [x] of line [y], in the RGBA bitmap
    that [encode] writes and in the RGB bitmap that [decode] reads. *)
Definition rgba_at (bitmap : list Z) (x y c : Z) : option Z :=
  bitmap !! Z.to_nat (y * 7680 + x * 4 + c).
Definition rgb_at (bitmap : list Z) (x y c : Z) : option Z :=
  bitmap !! Z.to_nat (y * 5760 + x * 3 + c).

(** Bit [m] as read off an RGB bitmap when one pixel is sampled per
    macro-dot, [off] pixels into the block of the macro-dot in both
    directions: the high bit of channel [m mod 3] of the pixel sampled for
    macro-dot [m / 3], the macro-dots counted row by row. *)
Definition sampled_bit_at (off : Z) (bytes : list Z) (m : Z) : bool :=
  let d := m `div` 3 in
  match rgb_at bytes ((d `mod` 240) * 8 + off) ((d `div` 240) * 8 + off) (m `mod` 3) with
  | Some v => high_bit v
  | None => false
  end.

(** The sampling of the program: [line] starts at 3 and [pixel] at byte 9,
    which is pixel 3. *)
Definition sampled_bit : list Z → Z → bool := sampled_bit_at 3.

(** The macro-dot that covers pixel [(x, y)], in row-major order over the
    grid of [frameWidth / dotSize] columns. *)
Definition dot_of (x y : Z) : Z :=
  (y `div` dotSize) * (frameWidth `div` dotSize) + x `div` dotSize.

(** What both reassembly engines keep about their reorder buffer: [keys]
    ascending, [keysLen] its length, and [keys] listing exactly the indices
    that [buffer] holds. *)
Definition buffer_consistent (buffer : gmap Z (list Z)) (keys : list Z)
    (keysLen : Z) : Prop :=
  StronglySorted Z.lt keys
  ∧ keysLen = Slice.len keys
  ∧ ∀ k, k ∈ keys ↔ is_Some (buffer !! k).

(** The emitter between two frames, [seen] being the frames received so
    far and [payload] the pixels of every frame by index. *)
Definition emitter_pre (payload : Z → list Z) (seen : list frameData)
    (s : Emitter.emitter) : Prop :=
  buffer_consistent (Emitter.buffer s) (Emitter.keys s) (Emitter.keysLen s)
  ∧ Forall (λ k, Emitter.wantedID s ≤ k) (Emitter.keys s)
  ∧ (∀ f, f ∈ seen →
       frameID f < Emitter.wantedID s ∨ is_Some (Emitter.buffer s !! frameID f))
  ∧ (∀ k v, Emitter.buffer s !! k = Some v →
       v = payload k ∧ k ∈ frameID <$> seen)
  ∧ 0 ≤ Emitter.wantedID s
  ∧ (∀ j, 0 ≤ j < Emitter.wantedID s → j ∈ frameID <$> seen)
  ∧ Emitter.stdin s = concat (payload <$> seqZ 0 (Emitter.wantedID s)).

Definition emitter_inv (payload : Z → list Z) (seen : list frameData)
    (s : Emitter.emitter) : Prop :=
  emitter_pre payload seen s
  ∧ Forall (λ k, Emitter.wantedID s < k) (Emitter.keys s).

(** The writer between two frames, [seen] being the frames received so far. *)
Definition writer_inv (seen : list frameData) (s : Writer.writer) : Prop :=
  buffer_consistent (Writer.buffer s) (Writer.keys s) (Writer.keysLen s)
  ∧ Forall (λ k, Writer.wantedID s ≤ k) (Writer.keys s)
  ∧ (∀ k, is_Some (Writer.buffer s !! k) → k ∈ frameID <$> seen)
  ∧ 1 ≤ Writer.wantedID s
  ∧ (∀ j, 1 ≤ j < Writer.wantedID s → j ∈ frameID <$> seen).


(** A payload segment as the unpacker returns it: padded with zero bytes
    to the capacity of a frame. *)
Definition pad (frame : list Z) : list Z :=
  frame ++ replicate (Z.to_nat (processedBytesPerFrame - Slice.len frame)) 0.

(** The length that frame 0 of a video announces: the header of the
    segment that the unpacker reads off the first [rawBytesPerFrame] bytes. *)
Definition announced_length (video : list Z) : outcome Z :=
  let* segment := Decode.unpack (take (Z.to_nat rawBytesPerFrame) video) in
  Writer.header_length segment.

(** The two fields of the writer that the handling of frame 0 sets and that
    nothing changes afterwards. *)
Definition same_header (s s' : Writer.writer) : Prop :=
  Writer.lengthInt s' = Writer.lengthInt s
  ∧ Writer.lastFrameOffset s' = Writer.lastFrameOffset s.

(** *** Running the pipelines on examples *)

(** Equality tests, to compare the result of a run with the expected bytes. *)
Fixpoint list_eqb {A} (eqb : A → A → bool) (l1 l2 : list A) : bool :=
  match l1, l2 with
  | [], [] => true
  | x :: l1', y :: l2' => eqb x y && list_eqb eqb l1' l2'
  | _, _ => false
  end.

Definition returns (o : outcome (list Z)) (expected : list Z) : bool :=
  match o with
  | Ok l => list_eqb Z.eqb l expected
  | _ => false
  end.

Definition chunks_are (o : outcome (list (list Z))) (expected : list (list Z)) : bool :=
  match o with
  | Ok l => list_eqb (list_eqb Z.eqb) l expected
  | _ => false
  end.

(** [n] bytes, all equal to [b]. *)
Definition bytes_of (n : Z) (b : Z) : list Z := replicate (Z.to_nat n) b.

(** Two workers, the second one first: frame 1 reaches the writer before
    frame 0. *)
Definition second_first (l : list frameData) : list frameData :=
  match l with
  | a :: b :: rest => b :: a :: rest
  | _ => l
  end.

(** Frame 2 overtakes frame 1 on its way to the writer. *)
Definition third_second (l : list frameData) : list frameData :=
  match l with
  | a :: b :: c :: rest => a :: c :: b :: rest
  | _ => l
  end.

(** Frame 2 overtakes frame 1 while a later frame is still to come. *)
Definition swap_middle (l : list frameData) : list frameData :=
  match l with
  | a :: b :: c :: d :: rest => a :: c :: b :: d :: rest
  | _ => l
  end.

(** A delivery order that keeps the ends: on frames numbered from 0 it
    hands over the same frames, frame 1 never before frame 0 and the last
    frame last.  The frames in between may overtake each other. *)
Definition keeps_ends (completion : list frameData → list frameData) : Prop :=
  ∀ frames, frameID <$> frames = seqZ 0 (Slice.len frames) →
    completion frames ≡ₚ frames
    ∧ (∀ pre post, completion frames = pre ++ post →
         1 ∈ frameID <$> pre → 0 ∈ frameID <$> pre)
    ∧ last (frameID <$> completion frames) = last (frameID <$> frames).

(** A delivery order in which frame 1 overtakes frame 0: on two or more
    frames numbered from 0 it hands over the same frames, frame 1 before
    frame 0.  The other frames may arrive at any time. *)
Definition overtakes_first (completion : list frameData → list frameData) : Prop :=
  ∀ frames, frameID <$> frames = seqZ 0 (Slice.len frames) → 2 ≤ Slice.len frames →
    completion frames ≡ₚ frames
    ∧ (∀ pre post, completion frames = pre ++ post →
         0 ∈ frameID <$> pre → 1 ∈ frameID <$> pre).

(** An RGB bitmap that is black except for the red channel of pixel
    [(4, 4)], the centre of the first macro-dot as the specification has it. *)
Definition red_at_4_4 : list Z :=
  <[Z.to_nat (4 * 5760 + 4 * 3) := 255]> (Slice.make rawBytesPerFrame).

(** The frame with index [j] among [arrivals]. *)
Definition payload_of (arrivals : list frameData) (j : Z) : list Z :=
  match list_find (λ f, frameID f = j) arrivals with
  | Some (_, f) => value f
  | None => []
  end.

(** A short text file. *)
Definition greeting : list Z := [72; 101; 108; 108; 111; 32; 114; 111; 99; 113].

(** A channel position inside the frame. *)
Definition in_bitmap (x y c : Z) : Prop :=
  0 ≤ x < 1920 ∧ 0 ≤ y < 1080 ∧ 0 ≤ c < 4.


(** The bitmap after the macro-dots before [n] have been painted. *)
Definition painted (frame : list Z) (n : Z) (pd : list Z) : Prop :=
  Slice.len pd = 8294400 ∧
  ∀ x y c, in_bitmap x y c →
    rgba_at pd x y c =
      Some (if decide (c < 3 ∧ dot_of x y < n)
            then channel_value (payload_bit frame (3 * dot_of x y + c)) else 0).


(** The state of the unpacker after [m] bits. *)
Definition unpacked (bytes : list Z) (m : Z) (u : Decode.unpacker) : Prop :=
  Slice.len (Decode.processedBytes u) = 12150
  ∧ Decode.currByte u = m `div` 8
  ∧ Decode.bitInByte u = 7 - m `mod` 8
  ∧ ∀ q, 0 ≤ q < 12150 →
      ∃ v, Decode.processedBytes u !! Z.to_nat q = Some v
         ∧ ∀ t, 0 ≤ t →
             Z.testbit v t =
               if decide (t < 8 ∧ 8 * q + (7 - t) < m)
               then sampled_bit bytes (8 * q + (7 - t)) else false.


(** * Properties *)

(** ** Outcomes and loops *)

Lemma bind_Ok {A B} (m : outcome A) (k : A → outcome B) b :
  bind m k = Ok b → ∃ a, m = Ok a ∧ k a = Ok b.
Proof. destruct m; simpl; intros H; try discriminate. eauto. Qed.

(** A loop invariant indexed by the number of rounds done: if every round
    succeeds and re-establishes it, so does the loop. *)
Lemma foldM_invariant {A B} (P : nat → A → Prop) (f : A → B → outcome A) l a :
  P 0%nat a →
  (∀ n x a, l !! n = Some x → P n a → ∃ a', f a x = Ok a' ∧ P (S n) a') →
  ∃ a', foldM f a l = Ok a' ∧ P (length l) a'.
Proof.
  revert P a. induction l as [|x l IH]; intros P a H0 Hstep; simpl.
  - eauto.
  - destruct (Hstep 0%nat x a eq_refl H0) as (a1 & -> & H1). simpl.
    apply (IH (λ n, P (S n))); [done|].
    intros n y b Hy Hb. apply (Hstep (S n)); done.
Qed.

(** The conditional form of [foldM_invariant], for loops that may panic. *)
Lemma foldM_invariant_Ok {A B} (P : nat → A → Prop) (f : A → B → outcome A) l a a' :
  P 0%nat a →
  (∀ n x a a', l !! n = Some x → P n a → f a x = Ok a' → P (S n) a') →
  foldM f a l = Ok a' → P (length l) a'.
Proof.
  revert P a. induction l as [|x l IH]; intros P a H0 Hstep; simpl.
  - by intros [= <-].
  - intros (a1 & Ha1 & Hrest)%bind_Ok.
    apply (IH (λ n, P (S n)) a1); [|intros n y b b' Hy; by apply (Hstep (S n))|done].
    by apply (Hstep 0%nat x a a1).
Qed.

Lemma for_range_lookup start stop step (n : nat) :
  0 < step →
  for_range start stop step !! n =
    if start + Z.of_nat n * step <? stop then Some (start + Z.of_nat n * step) else None.
Proof.
  intros Hstep. unfold for_range. rewrite list_lookup_fmap.
  set (cnt := (stop - start + step - 1) `div` step).
  assert (Z.of_nat n < cnt ↔ start + Z.of_nat n * step < stop) as Hcnt.
  { subst cnt.
    pose proof (Z.div_mod (stop - start + step - 1) step ltac:(lia)) as Hdm.
    pose proof (Z.mod_pos_bound (stop - start + step - 1) step Hstep) as Hb.
    set (q := (stop - start + step - 1) `div` step) in *.
    set (r := (stop - start + step - 1) `mod` step) in *.
    split; intros; nia. }
  destruct (Z.ltb_spec (start + Z.of_nat n * step) stop) as [Hlt|Hge].
  - rewrite lookup_seqZ_lt by (apply Hcnt; lia). simpl. done.
  - rewrite lookup_seqZ_ge; [done|]. destruct (Z.lt_ge_cases (Z.of_nat n) cnt); [|lia].
    apply Hcnt in H. lia.
Qed.

Lemma for_range_Some start stop step (n : nat) v :
  0 < step →
  for_range start stop step !! n = Some v →
  v = start + Z.of_nat n * step ∧ v < stop.
Proof.
  intros Hstep. rewrite for_range_lookup by done.
  destruct (Z.ltb_spec (start + Z.of_nat n * step) stop); [|done].
  intros [= <-]. done.
Qed.

Lemma for_range_length start stop step :
  0 < step → start ≤ stop → (stop - start) `mod` step = 0 →
  length (for_range start stop step) = Z.to_nat ((stop - start) `div` step).
Proof.
  intros Hstep Hle Hmod. unfold for_range. rewrite length_fmap, length_seqZ.
  f_equal.
  pose proof (Z.div_mod (stop - start) step ltac:(lia)) as Hdm.
  rewrite Hmod, Z.add_0_r in Hdm.
  set (q := (stop - start) `div` step) in *.
  replace (stop - start + step - 1) with (q * step + (step - 1)) by lia.
  rewrite Z.div_add_l by lia. rewrite Z.div_small by lia. lia.
Qed.

Tactic Notation "loop_invariant" constr(P) "as" simple_intropattern(pat) :=
  match goal with
  | |- context [foldM ?f ?a ?l] => destruct (foldM_invariant P f l a) as pat
  end.

Lemma for_range_unit_length a n :
  0 ≤ n → length (for_range a (a + n) 1) = Z.to_nat n.
Proof.
  intros Hn. rewrite for_range_length; try lia.
  - f_equal. replace (a + n - a) with n by lia. apply Z.div_1_r.
  - apply Z.mod_1_r.
Qed.

Lemma for_range_length_gen start stop step :
  length (for_range start stop step) = Z.to_nat ((stop - start + step - 1) `div` step).
Proof. unfold for_range. by rewrite length_fmap, length_seqZ. Qed.

Lemma seqZ_snoc w : 0 ≤ w → seqZ 0 (w + 1) = seqZ 0 w ++ [w].
Proof.
  intros Hw. rewrite seqZ_app by lia. reflexivity.
Qed.

(** ** Arithmetic *)

Lemma div_mod_unique_pos a b q r :
  0 ≤ r < b → a = q * b + r → a `div` b = q ∧ a `mod` b = r.
Proof.
  intros Hr ->. split.
  - symmetry. apply (Z.div_unique_pos _ _ q r); lia.
  - symmetry. apply (Z.mod_unique_pos _ _ q r); lia.
Qed.

Lemma land_bit_test b k :
  0 ≤ k → negb (Z.land b (1 ≪ k) =? 0) = Z.testbit b k.
Proof.
  intros Hk. rewrite Z.shiftl_1_l.
  destruct (Z.testbit b k) eqn:Hb.
  - apply negb_true_iff, Z.eqb_neq. intros H0.
    assert (Z.testbit (Z.land b (2 ^ k)) k = false) as Hc by (rewrite H0; apply Z.bits_0).
    rewrite Z.land_spec, Hb, Z.pow2_bits_true in Hc by done. done.
  - apply negb_false_iff, Z.eqb_eq. apply Z.bits_inj'. intros n Hn.
    rewrite Z.land_spec, Z.bits_0.
    destruct (decide (n = k)) as [->|Hne].
    + by rewrite Hb.
    + rewrite Z.pow2_bits_false by lia. apply andb_false_r.
Qed.

Lemma wrap_int64_small z : - 2 ^ 63 ≤ z < 2 ^ 63 → wrap_int64 z = z.
Proof. intros. unfold wrap_int64. rewrite Z.mod_small; lia. Qed.

(** ** Slices *)

Module SliceFacts.

Lemma len_nonneg {A} (l : list A) : 0 ≤ Slice.len l.
Proof. unfold Slice.len. lia. Qed.

Lemma len_app {A} (l1 l2 : list A) : Slice.len (l1 ++ l2) = Slice.len l1 + Slice.len l2.
Proof. unfold Slice.len. rewrite length_app. lia. Qed.

Lemma len_make n : 0 ≤ n → Slice.len (Slice.make n) = n.
Proof. intros. unfold Slice.len, Slice.make. rewrite length_replicate. lia. Qed.

Lemma index_Ok {A} (l : list A) i x :
  0 ≤ i → l !! Z.to_nat i = Some x → Slice.index l i = Ok x.
Proof.
  intros Hi Hx. unfold Slice.index, Slice.len.
  pose proof (lookup_lt_Some _ _ _ Hx).
  rewrite (proj2 (Z.leb_le 0 i)) by done.
  rewrite (proj2 (Z.ltb_lt i _)) by lia. simpl. by rewrite Hx.
Qed.

Lemma store_Ok {A} (l : list A) i v :
  0 ≤ i < Slice.len l → Slice.store l i v = Ok (<[Z.to_nat i := v]> l).
Proof.
  intros [H1 H2]. unfold Slice.store.
  rewrite (proj2 (Z.leb_le 0 i)), (proj2 (Z.ltb_lt i _)) by done. done.
Qed.

Lemma slice_Ok {A} (l : list A) lo hi :
  0 ≤ lo → lo ≤ hi → hi ≤ Slice.len l →
  Slice.slice l lo hi = Ok (take (Z.to_nat (hi - lo)) (drop (Z.to_nat lo) l)).
Proof.
  intros H1 H2 H3. unfold Slice.slice.
  rewrite (proj2 (Z.leb_le 0 lo)), (proj2 (Z.leb_le lo hi)),
    (proj2 (Z.leb_le hi _)) by done. done.
Qed.

Lemma slice_Panic {A} (l : list A) lo hi :
  ¬ (0 ≤ lo ∧ lo ≤ hi ∧ hi ≤ Slice.len l) → Slice.slice l lo hi = Panic.
Proof.
  intros H. unfold Slice.slice.
  destruct (Z.leb_spec 0 lo), (Z.leb_spec lo hi), (Z.leb_spec hi (Slice.len l));
    simpl; try done. lia.
Qed.

(** [copy(dst[lo:lo+n], src)] with [len(src) = n]. *)
Lemma copy_into_Ok {A} (dst src : list A) lo :
  0 ≤ lo → lo + Slice.len src ≤ Slice.len dst →
  Slice.copy_into dst lo (lo + Slice.len src) src =
    Ok (take (Z.to_nat lo) dst ++ src ++ drop (Z.to_nat lo + length src) dst).
Proof.
  intros H1 H2. unfold Slice.copy_into.
  pose proof (len_nonneg src).
  rewrite (proj2 (Z.leb_le 0 lo)), (proj2 (Z.leb_le lo _)),
    (proj2 (Z.leb_le _ (Slice.len dst))) by lia. simpl.
  replace (lo + Slice.len src - lo) with (Slice.len src) by lia.
  unfold Slice.len. rewrite Nat2Z.id, Nat.min_id. rewrite (take_ge src) by lia. done.
Qed.

Lemma lookup_overwrite {A} (dst src : list A) (lo k : nat) :
  (lo + length src ≤ length dst)%nat →
  (take lo dst ++ src ++ drop (lo + length src) dst) !! k =
    if decide (lo ≤ k < lo + length src)%nat then src !! (k - lo)%nat else dst !! k.
Proof.
  intros Hlen. case_decide as Hk.
  - rewrite lookup_app_r by (rewrite length_take; lia).
    rewrite length_take, Nat.min_l by lia.
    rewrite lookup_app_l by lia. done.
  - destruct (decide (k < lo)%nat).
    + rewrite lookup_app_l by (rewrite length_take; lia).
      by rewrite lookup_take_lt.
    + rewrite lookup_app_r by (rewrite length_take; lia).
      rewrite length_take, Nat.min_l by lia.
      rewrite lookup_app_r by lia. rewrite lookup_drop. f_equal. lia.
Qed.

Lemma length_overwrite {A} (dst src : list A) (lo : nat) :
  (lo + length src ≤ length dst)%nat →
  length (take lo dst ++ src ++ drop (lo + length src) dst) = length dst.
Proof.
  intros. rewrite !length_app, length_take, length_drop. lia.
Qed.

End SliceFacts.

(** ** The frame packer *)

Module PackFacts.
Import SliceFacts Encode.

Lemma payload_bit_index frame m b :
  0 ≤ m → frame !! Z.to_nat (m `div` 8) = Some b →
  payload_bit frame m = Z.testbit b (7 - m `mod` 8).
Proof. intros ? H. unfold payload_bit. by rewrite H. Qed.

Lemma payload_bit_past frame m :
  8 * Slice.len frame ≤ m → payload_bit frame m = false.
Proof.
  intros H. unfold payload_bit. rewrite lookup_ge_None_2; [done|].
  unfold Slice.len in H. apply Nat2Z.inj_le. rewrite Z2Nat.id by (apply Z.div_pos; lia).
  apply Z.div_le_lower_bound; lia.
Qed.

(** One round of the loop over the channels, at bit [m] of the segment. *)
Lemma channels_round frame j js px m i0 :
  0 ≤ m < 8 * Slice.len frame → 0 ≤ j < 3 → length px = 3%nat →
  channels frame (Slice.len frame) (j :: js)
    (Cursor px (m `div` 8) (7 - m `mod` 8) i0) =
  if decide (m = 8 * Slice.len frame - 1)
  then Ok (Cursor (<[Z.to_nat j := channel_value (payload_bit frame m)]> px)
                  (m `div` 8 + 1) 0 2147483647)
  else channels frame (Slice.len frame) js
         (Cursor (<[Z.to_nat j := channel_value (payload_bit frame m)]> px)
                 ((m + 1) `div` 8) (7 - (m + 1) `mod` 8) i0).
Proof.
  intros Hm Hj Hpx. simpl.
  assert (0 ≤ m `div` 8 < Slice.len frame) as Hq.
  { split; [apply Z.div_pos; lia|apply Z.div_lt_upper_bound; lia]. }
  pose proof (Z.mod_pos_bound m 8 ltac:(lia)) as Hr.
  destruct (lookup_lt_is_Some_2 frame (Z.to_nat (m `div` 8))) as [b Hb].
  { unfold Slice.len in Hq. lia. }
  rewrite (index_Ok _ _ _ (proj1 Hq) Hb). simpl.
  rewrite land_bit_test by lia.
  rewrite <- (payload_bit_index frame m b) by (done || lia).
  assert (Slice.store px j (channel_value (payload_bit frame m)) =
          Ok (<[Z.to_nat j := channel_value (payload_bit frame m)]> px)) as Hst.
  { apply store_Ok. unfold Slice.len. lia. }
  assert ((if payload_bit frame m then Slice.store px j 255 else Slice.store px j 0)
          = Slice.store px j (channel_value (payload_bit frame m))) as ->.
  { by destruct (payload_bit frame m). }
  rewrite Hst. simpl.
  pose proof (Z.div_mod m 8 ltac:(lia)) as Hdm.
  destruct (Z.eqb_spec (7 - m `mod` 8) 0) as [H7|H7].
  - assert (m `mod` 8 = 7) as Hm7 by lia.
    assert ((m + 1) `div` 8 = m `div` 8 + 1 ∧ (m + 1) `mod` 8 = 0) as [Hd1 Hm1].
    { apply div_mod_unique_pos; lia. }
    destruct (Z.eqb_spec (m `div` 8 + 1) (Slice.len frame)) as [He|He].
    + rewrite decide_True by lia. by rewrite H7.
    + rewrite decide_False by lia. by rewrite Hd1, Hm1.
  - assert ((m + 1) `div` 8 = m `div` 8 ∧ (m + 1) `mod` 8 = m `mod` 8 + 1) as [Hd1 Hm1].
    { apply div_mod_unique_pos; lia. }
    rewrite decide_False by lia. rewrite Hd1, Hm1. do 2 f_equal. lia.
Qed.


Ltac px_norm :=
  change (Z.to_nat 0) with 0%nat;
  change (Z.to_nat 1) with 1%nat;
  change (Z.to_nat 2) with 2%nat;
  cbn [list_insert insert].

(** The three rounds for macro-dot [n]: the pixel takes bits [3n], [3n+1]
    and [3n+2] of the segment (zero past its end), and the loop breaks out
    exactly when it has consumed the last bit of the segment. *)
Lemma channels_dot frame n i0 :
  0 ≤ 3 * n < 8 * Slice.len frame →
  channels frame (Slice.len frame) [0; 1; 2]
    (Cursor [0; 0; 0] ((3 * n) `div` 8) (7 - (3 * n) `mod` 8) i0) =
  Ok (Cursor [channel_value (payload_bit frame (3 * n));
              channel_value (payload_bit frame (3 * n + 1));
              channel_value (payload_bit frame (3 * n + 2))]
        (if decide (3 * n + 3 < 8 * Slice.len frame)
         then (3 * (n + 1)) `div` 8 else Slice.len frame)
        (if decide (3 * n + 3 < 8 * Slice.len frame)
         then 7 - (3 * (n + 1)) `mod` 8 else 0)
        (if decide (3 * n + 3 < 8 * Slice.len frame)
         then i0 else 2147483647)).
Proof.
  intros Hn.
  assert (∀ m, m = 8 * Slice.len frame - 1 → m `div` 8 + 1 = Slice.len frame) as Hlast.
  { intros m ->.
    destruct (div_mod_unique_pos (8 * Slice.len frame - 1) 8
                (Slice.len frame - 1) 7) as [-> _]; lia. }
  rewrite channels_round by (done || lia). px_norm.
  case_decide as H0.
  { repeat case_decide; try lia. rewrite (Hlast _ H0).
    rewrite (payload_bit_past frame (3 * n + 1)) by lia.
    rewrite (payload_bit_past frame (3 * n + 2)) by lia. reflexivity. }
  rewrite channels_round by (done || lia). px_norm.
  case_decide as H1.
  { repeat case_decide; try lia. rewrite (Hlast _ H1).
    rewrite (payload_bit_past frame (3 * n + 2)) by lia. reflexivity. }
  replace (3 * n + 1 + 1) with (3 * n + 2) by lia.
  rewrite channels_round by (done || lia). px_norm.
  case_decide as H2.
  { repeat case_decide; try lia. rewrite (Hlast _ H2). reflexivity. }
  repeat case_decide; try lia.
  replace (3 * n + 2 + 1) with (3 * (n + 1)) by lia. reflexivity.
Qed.


(** One [copy(pixelData[pixelCoords:pixelCoords+3], pixel)]. *)
Lemma copy_pixel pd x0 y0 px :
  Slice.len pd = 8294400 → 0 ≤ x0 < 1920 → 0 ≤ y0 < 1080 → length px = 3%nat →
  ∃ pd', Slice.copy_into pd (y0 * 7680 + x0 * 4) (y0 * 7680 + x0 * 4 + 3) px = Ok pd'
    ∧ Slice.len pd' = 8294400
    ∧ ∀ x y c, in_bitmap x y c →
        rgba_at pd' x y c =
          if decide (x = x0 ∧ y = y0 ∧ c < 3) then px !! Z.to_nat c
          else rgba_at pd x y c.
Proof.
  intros Hpd Hx0 Hy0 Hpx.
  assert (Slice.len px = 3) as Hlpx by (unfold Slice.len; lia).
  replace (y0 * 7680 + x0 * 4 + 3) with (y0 * 7680 + x0 * 4 + Slice.len px) by lia.
  rewrite copy_into_Ok by lia.
  unfold Slice.len in Hpd.
  eexists; split; [done|]. split.
  { unfold Slice.len. rewrite length_overwrite by lia. done. }
  intros x y c (Hx & Hy & Hc). unfold rgba_at.
  rewrite lookup_overwrite by lia.
  repeat case_decide; try lia; try done.
  f_equal. lia.
Qed.

Lemma paint_spec pd r col px :
  Slice.len pd = 8294400 → 0 ≤ r < 240 → 0 ≤ col < 135 → length px = 3%nat →
  ∃ pd', paint pd r col px = Ok pd'
    ∧ Slice.len pd' = 8294400
    ∧ ∀ x y c, in_bitmap x y c →
        rgba_at pd' x y c =
          if decide (x `div` 8 = r ∧ y `div` 8 = col ∧ c < 3) then px !! Z.to_nat c
          else rgba_at pd x y c.
Proof.
  intros Hpd Hr Hcol Hpx. unfold paint, dotSize.
  set (covered := λ (a b x y c : Z),
         (r * 8 ≤ x < r * 8 + a ∧ col * 8 ≤ y < col * 8 + 8 ∧ c < 3)
       ∨ (x = r * 8 + a ∧ col * 8 ≤ y < col * 8 + b ∧ c < 3)).
  set (Inv := λ (a b : Z) (pd' : list Z),
         Slice.len pd' = 8294400
       ∧ ∀ x y c, in_bitmap x y c →
           rgba_at pd' x y c =
             if decide (covered a b x y c) then px !! Z.to_nat c else rgba_at pd x y c).
  loop_invariant (λ a, Inv (Z.of_nat a) 0) as (pd' & Hrun & Hlen & Hpix);
    [| |rewrite Hrun; exists pd'; split; [done|split; [done|]]].
  - split; [done|]. intros x y c Hin. rewrite decide_False; [done|].
    unfold covered. lia.
  - intros a x0 pd1 Hx0 [Hlen1 Hpix1].
    apply for_range_Some in Hx0 as [-> Hx0]; [|lia].
    loop_invariant (λ b, Inv (Z.of_nat a) (Z.of_nat b))
      as (pd2 & Hrun2 & Hlen2 & Hpix2); [| |rewrite Hrun2; exists pd2; split; [done|]].
    + split; [exact Hlen1|exact Hpix1].
    + intros b y0 pd3 Hy0 [Hlen3 Hpix3].
      apply for_range_Some in Hy0 as [-> Hy0]; [|lia].
      destruct (copy_pixel pd3 (r * 8 + Z.of_nat a * 1) (col * 8 + Z.of_nat b * 1) px)
        as (pd4 & -> & Hlen4 & Hpix4); try done; try lia.
      exists pd4. split; [done|]. split; [done|].
      intros x y c Hin. rewrite Hpix4, Hpix3 by done.
      unfold covered. destruct Hin as (? & ? & ?).
      repeat case_decide; try lia; done.
    + rewrite for_range_unit_length in Hpix2 by lia.
      split; [done|]. intros x y c Hin. rewrite Hpix2 by done.
      unfold covered. destruct Hin as (? & ? & ?).
      repeat case_decide; try lia; done.
  - rewrite for_range_unit_length in Hpix by lia.
    intros x y c Hin. rewrite Hpix by done.
    unfold covered. destruct Hin as (? & ? & ?).
    repeat case_decide; try done; exfalso; Z.div_mod_to_equations; lia.
Qed.


Lemma dot_of_eq x y : dot_of x y = y `div` 8 * 240 + x `div` 8.
Proof. reflexivity. Qed.

Lemma dot_of_range x y : 0 ≤ x < 1920 → 0 ≤ y < 1080 → 0 ≤ dot_of x y < 32400.
Proof. intros. rewrite dot_of_eq. Z.div_mod_to_equations. lia. Qed.

Lemma painted_make frame : painted frame 0 (Slice.make pixelDataLen).
Proof.
  change pixelDataLen with 8294400. split.
  - apply len_make. lia.
  - intros x y c (Hx & Hy & Hc). unfold rgba_at, Slice.make.
    rewrite lookup_replicate_2 by lia.
    pose proof (dot_of_range x y Hx Hy).
    rewrite decide_False by lia. done.
Qed.

Lemma painted_next frame n pd :
  0 ≤ n < 32400 → painted frame n pd →
  ∃ pd', paint pd (n `mod` 240) (n `div` 240)
           [channel_value (payload_bit frame (3 * n));
            channel_value (payload_bit frame (3 * n + 1));
            channel_value (payload_bit frame (3 * n + 2))] = Ok pd'
    ∧ painted frame (n + 1) pd'.
Proof.
  intros Hn [Hlen Hpix].
  destruct (paint_spec pd (n `mod` 240) (n `div` 240)
              [channel_value (payload_bit frame (3 * n));
               channel_value (payload_bit frame (3 * n + 1));
               channel_value (payload_bit frame (3 * n + 2))])
    as (pd' & Hrun & Hlen' & Hpix'); try done.
  { Z.div_mod_to_equations. lia. }
  { Z.div_mod_to_equations. lia. }
  exists pd'. split; [done|]. split; [done|].
  intros x y c Hin. rewrite Hpix', Hpix by done.
  destruct Hin as (Hx & Hy & Hc).
  assert (x `div` 8 = n `mod` 240 ∧ y `div` 8 = n `div` 240 ↔ dot_of x y = n) as Hdot.
  { rewrite dot_of_eq. Z.div_mod_to_equations. lia. }
  destruct (decide (dot_of x y = n)) as [Hd|Hd].
  - destruct (decide (c < 3)) as [Hc3|Hc3].
    + rewrite decide_True by (split; [tauto|tauto]).
      rewrite decide_True by lia. rewrite Hd.
      assert (c = 0 ∨ c = 1 ∨ c = 2) as [-> | [-> | ->]] by lia; simpl;
        do 3 f_equal; lia.
    + rewrite decide_False by lia. by repeat case_decide; try lia.
  - rewrite decide_False by tauto.
    repeat case_decide; try lia; done.
Qed.

Lemma dots_unfold fuel frame s :
  dots (S fuel) frame s =
  if i (cur s) <? Slice.len (pixelData s) then
    let* c := channels frame (Slice.len frame) [0; 1; 2]
                (Cursor [0; 0; 0] (currByte (cur s)) (bitInByte (cur s)) (i (cur s))) in
    let* pd := paint (pixelData s) (rowIterator s) (columnIterator s) (pixel c) in
    if rowIterator s + 1 =? width
    then dots fuel frame
           (Packer pd 0 (columnIterator s + 1)
              (Cursor (pixel c) (currByte c) (bitInByte c) (wrap_int64 (i c + 4))))
    else dots fuel frame
           (Packer pd (rowIterator s + 1) (columnIterator s)
              (Cursor (pixel c) (currByte c) (bitInByte c) (wrap_int64 (i c + 4))))
  else Ok s.
Proof. reflexivity. Qed.

Lemma dots_done fuel frame s :
  Slice.len (pixelData s) ≤ i (cur s) → dots fuel frame s = Ok s.
Proof.
  intros H. destruct fuel; simpl;
    rewrite (proj2 (Z.ltb_ge _ _)) by done; done.
Qed.

(** The loop over the macro-dots, entered at macro-dot [n]: it runs up to
    the macro-dot that holds the last bit of the segment and stops there. *)
Lemma dots_spec frame :
  1 ≤ Slice.len frame ≤ 12150 →
  let last := (8 * Slice.len frame - 1) `div` 3 in
  ∀ fuel n pd px,
    0 ≤ n ≤ last → painted frame n pd → (Z.to_nat (last - n) < fuel)%nat →
    ∃ s', dots fuel frame
            (Packer pd (n `mod` 240) (n `div` 240)
               (Cursor px ((3 * n) `div` 8) (7 - (3 * n) `mod` 8) (4 * n))) = Ok s'
      ∧ painted frame (last + 1) (pixelData s').
Proof.
  intros Hlen last.
  assert (3 * last ≤ 8 * Slice.len frame - 1 < 3 * last + 3 ∧ last < 32400) as Hlast.
  { subst last. Z.div_mod_to_equations. lia. }
  induction fuel as [|fuel IH]; intros n pd px Hn Hp Hfuel; [lia|].
  rewrite dots_unfold. cbn [cur i pixelData currByte bitInByte rowIterator columnIterator].
  destruct Hp as [Hpd Hpix].
  rewrite (proj2 (Z.ltb_lt _ _)) by lia.
  rewrite channels_dot by lia. cbn [bind pixel currByte bitInByte i].
  destruct (painted_next frame n pd) as (pd' & -> & Hp'); [lia|by split|].
  cbn [bind].
  destruct (decide (n < last)) as [Hlt|Hge].
  - rewrite !decide_True by lia.
    rewrite wrap_int64_small by lia.
    replace (4 * n + 4) with (4 * (n + 1)) by lia.
    assert ((if n `mod` 240 + 1 =? width then
               dots fuel frame (Packer pd' 0 (n `div` 240 + 1)
                 (Cursor [channel_value (payload_bit frame (3 * n));
                          channel_value (payload_bit frame (3 * n + 1));
                          channel_value (payload_bit frame (3 * n + 2))]
                    ((3 * (n + 1)) `div` 8) (7 - (3 * (n + 1)) `mod` 8) (4 * (n + 1))))
             else
               dots fuel frame (Packer pd' (n `mod` 240 + 1) (n `div` 240)
                 (Cursor [channel_value (payload_bit frame (3 * n));
                          channel_value (payload_bit frame (3 * n + 1));
                          channel_value (payload_bit frame (3 * n + 2))]
                    ((3 * (n + 1)) `div` 8) (7 - (3 * (n + 1)) `mod` 8) (4 * (n + 1)))))
            = dots fuel frame (Packer pd' ((n + 1) `mod` 240) ((n + 1) `div` 240)
                 (Cursor [channel_value (payload_bit frame (3 * n));
                          channel_value (payload_bit frame (3 * n + 1));
                          channel_value (payload_bit frame (3 * n + 2))]
                    ((3 * (n + 1)) `div` 8) (7 - (3 * (n + 1)) `mod` 8) (4 * (n + 1))))) as ->.
    { change width with 240.
      destruct (Z.eqb_spec (n `mod` 240 + 1) 240) as [He|He].
      - destruct (div_mod_unique_pos (n + 1) 240 (n `div` 240 + 1) 0) as [-> ->];
          [lia|Z.div_mod_to_equations; lia|done].
      - destruct (div_mod_unique_pos (n + 1) 240 (n `div` 240) (n `mod` 240 + 1)) as [-> ->];
          [Z.div_mod_to_equations; lia|Z.div_mod_to_equations; lia|done]. }
    apply IH; [lia|done|lia].
  - rewrite !decide_False by lia.
    assert (∀ s, Slice.len (pixelData s) = 8294400 →
                 i (cur s) = wrap_int64 (2147483647 + 4) →
                 painted frame (last + 1) (pixelData s) →
                 ∃ s', dots fuel frame s = Ok s' ∧ painted frame (last + 1) (pixelData s'))
      as Hexit.
    { intros s Hs Hi Hps. exists s. split; [|done]. apply dots_done.
      rewrite Hs, Hi. rewrite wrap_int64_small; lia. }
    assert (n + 1 = last + 1) as Hnl by lia. rewrite Hnl in Hp'.
    destruct Hp' as [Hlen' Hpix'].
    destruct (n `mod` 240 + 1 =? width); apply Hexit; done.
Qed.

Lemma pack_spec frame :
  1 ≤ Slice.len frame ≤ 12150 →
  ∃ bitmap, pack frame = Ok bitmap
    ∧ Slice.len bitmap = 8294400
    ∧ ∀ x y c, in_bitmap x y c →
        rgba_at bitmap x y c =
          Some (if decide (c < 3)
                then channel_value (payload_bit frame (3 * dot_of x y + c)) else 0).
Proof.
  intros Hlen. unfold pack.
  destruct (dots_spec frame Hlen (Z.to_nat (pixelDataLen `div` 4)) 0
              (Slice.make pixelDataLen) [0; 0; 0]) as (s' & Hrun & Hlen' & Hpix).
  { split; [done|]. Z.div_mod_to_equations. lia. }
  { apply painted_make. }
  { change (pixelDataLen `div` 4) with 2073600. Z.div_mod_to_equations. lia. }
  change (0 `mod` 240) with 0 in Hrun. change (0 `div` 240) with 0 in Hrun.
  change ((3 * 0) `div` 8) with 0 in Hrun.
  change (7 - (3 * 0) `mod` 8) with 7 in Hrun. change (4 * 0) with 0 in Hrun.
  rewrite Hrun. cbn [bind]. exists (pixelData s'). split; [done|]. split; [done|].
  intros x y c Hin. rewrite Hpix by done. f_equal.
  destruct Hin as (Hx & Hy & Hc).
  repeat case_decide; try lia; try done.
  rewrite payload_bit_past; [done|].
  Z.div_mod_to_equations. lia.
Qed.

End PackFacts.

(** ** The frame unpacker *)

Module UnpackFacts.
Import SliceFacts Decode.

Lemma unpacked_init bytes :
  unpacked bytes 0 (Unpacker (Slice.make processedBytesPerFrame) 0 7).
Proof.
  change processedBytesPerFrame with 12150.
  split; [apply len_make; lia|]. split; [done|]. split; [done|].
  intros q Hq. exists 0. split.
  - simpl. unfold Slice.make. apply lookup_replicate_2. lia.
  - intros t Ht. rewrite Z.bits_0. rewrite decide_False; [done|lia].
Qed.

Lemma unpacked_bit bytes m u bit :
  0 ≤ m < 97200 → unpacked bytes m u → sampled_bit bytes m = high_bit bit →
  ∃ u', take_bit u bit = Ok u' ∧ unpacked bytes (m + 1) u'.
Proof.
  intros Hm (Hlen & Hcb & Hbb & Hbits) Hbit. unfold take_bit.
  pose proof (Z.div_mod m 8 ltac:(lia)) as Hdm.
  pose proof (Z.mod_pos_bound m 8 ltac:(lia)) as Hr.
  assert (0 ≤ m `div` 8 < 12150) as Hq by (Z.div_mod_to_equations; lia).
  assert (∀ pb', (if bitInByte u - 1 =? -1
                  then Ok (Unpacker pb' (currByte u + 1) 7)
                  else Ok (Unpacker pb' (currByte u) (bitInByte u - 1)))
                 = Ok (Unpacker pb' ((m + 1) `div` 8) (7 - (m + 1) `mod` 8))) as Hnext.
  { intros pb'. rewrite Hcb, Hbb.
    destruct (Z.eqb_spec (7 - m `mod` 8 - 1) (-1)) as [He|He].
    - destruct (div_mod_unique_pos (m + 1) 8 (m `div` 8 + 1) 0) as [-> ->]; (done || lia).
    - destruct (div_mod_unique_pos (m + 1) 8 (m `div` 8) (m `mod` 8 + 1)) as [-> ->];
        try lia. do 2 f_equal. lia. }
  change 128 with (1 ≪ 7). rewrite land_bit_test by lia.
  fold (high_bit bit). rewrite <- Hbit.
  destruct (Hbits (m `div` 8) Hq) as (old & Hold & Holdbits).
  destruct (sampled_bit bytes m) eqn:Hsb.
  - rewrite (index_Ok _ _ old) by (rewrite Hcb; (done || lia)). cbn [bind].
    rewrite store_Ok by (rewrite Hcb; lia). cbn [bind]. rewrite Hnext, Hcb.
    eexists; split; [done|].
    split; [|split; [done|split; [done|]]]; cbn [processedBytes currByte bitInByte].
    { unfold Slice.len in *. rewrite length_insert. done. }
    intros q Hq'. destruct (decide (q = m `div` 8)) as [->|Hne].
    + eexists. split.
      { apply list_lookup_insert_eq. unfold Slice.len in Hlen. lia. }
      intros t Ht. rewrite Z.lor_spec, Holdbits by done.
      rewrite Hbb, Z.shiftl_1_l.
      destruct (decide (t = 7 - m `mod` 8)) as [->|Hnt].
      * rewrite Z.pow2_bits_true by lia. rewrite orb_true_r.
        rewrite decide_True by lia.
        replace (8 * m `div` 8 + (7 - (7 - m `mod` 8))) with m by lia. done.
      * rewrite Z.pow2_bits_false by lia. rewrite orb_false_r.
        repeat case_decide; try lia; done.
    + destruct (Hbits q Hq') as (v & Hv & Hvbits).
      exists v. split.
      { rewrite list_lookup_insert_ne by lia. done. }
      intros t Ht. rewrite Hvbits by done.
      repeat case_decide; try lia; done.
  - cbn [bind]. rewrite Hnext. eexists; split; [done|].
    split; [done|split; [done|split; [done|]]]; cbn [processedBytes].
    intros q Hq'. destruct (Hbits q Hq') as (v & Hv & Hvbits).
    exists v. split; [done|]. intros t Ht. rewrite Hvbits by done.
    repeat case_decide; try lia; try done.
    assert (8 * q + (7 - t) = m) as -> by lia. done.
Qed.


Lemma sampled_bit_coords bytes a b c v :
  0 ≤ a → 0 ≤ b < 240 → 0 ≤ c < 3 →
  bytes !! Z.to_nat ((3 + a * 8) * 5760 + (9 + b * 24) + c) = Some v →
  sampled_bit bytes (3 * (240 * a + b) + c) = high_bit v.
Proof.
  intros Ha Hb Hc Hv. unfold sampled_bit. unfold sampled_bit_at, rgb_at.
  destruct (div_mod_unique_pos (3 * (240 * a + b) + c) 3 (240 * a + b) c) as [-> ->];
    [lia..|].
  destruct (div_mod_unique_pos (240 * a + b) 240 a b) as [-> ->]; [lia..|].
  replace ((a * 8 + 3) * 5760 + (b * 8 + 3) * 3 + c)
    with ((3 + a * 8) * 5760 + (9 + b * 24) + c) by lia.
  by rewrite Hv.
Qed.

(** One sampled pixel: three more bits. *)
Lemma unpacked_sample bytes a b u :
  Slice.len bytes = 6220800 → 0 ≤ a < 135 → 0 ≤ b < 240 →
  unpacked bytes (3 * (240 * a + b)) u →
  ∃ u', sample bytes u ((3 + a * 8) * 5760 + (9 + b * 24)) = Ok u'
      ∧ unpacked bytes (3 * (240 * a + (b + 1))) u'.
Proof.
  intros Hlen Ha Hb Hu. unfold sample.
  set (pc := (3 + a * 8) * 5760 + (9 + b * 24)).
  assert (0 ≤ pc ∧ pc + 3 ≤ 6220800) as Hpc by (subst pc; lia).
  rewrite slice_Ok by lia. cbn [bind].
  replace (pc + 3 - pc) with 3 by lia.
  loop_invariant (λ c, unpacked bytes (3 * (240 * a + b) + Z.of_nat c))
    as (u' & Hrun & Hu'); [| |exists u'; split; [done|]].
  - by rewrite Z.add_0_r.
  - intros c v u1 Hv Hu1.
    assert (c < 3)%nat as Hc.
    { apply lookup_lt_Some in Hv. rewrite length_take in Hv. lia. }
    rewrite lookup_take_lt, lookup_drop in Hv by lia.
    destruct (unpacked_bit bytes (3 * (240 * a + b) + Z.of_nat c) u1 v)
      as (u2 & Hr2 & Hu2); [lia|done| |].
    { apply sampled_bit_coords; try lia.
      rewrite <- Hv. f_equal. subst pc. lia. }
    exists u2. split; [done|].
    replace (3 * (240 * a + b) + Z.of_nat (S c))
      with (3 * (240 * a + b) + Z.of_nat c + 1) by lia. done.
  - rewrite length_take, length_drop in Hu'. unfold Slice.len in Hlen.
    replace (3 * (240 * a + (b + 1)))
      with (3 * (240 * a + b) + Z.of_nat (Z.to_nat 3 `min` (length bytes - Z.to_nat pc))).
    { done. }
    lia.
Qed.

Lemma unpack_run bytes :
  Slice.len bytes = 6220800 →
  ∃ u, foldM (λ u line,
         foldM (λ u pixel, sample bytes u (line * 5760 + pixel)) u (for_range 9 5760 24))
       (Unpacker (Slice.make processedBytesPerFrame) 0 7) (for_range 3 1080 8) = Ok u
     ∧ unpacked bytes 97200 u.
Proof.
  intros Hlen.
  loop_invariant (λ a, unpacked bytes (3 * (240 * Z.of_nat a)))
    as (u & Hrun & Hu); [| |exists u; split; [done|]].
  - apply unpacked_init.
  - intros a line u1 Hline Hu1.
    apply for_range_Some in Hline as [-> Hline]; [|lia].
    loop_invariant (λ b, unpacked bytes (3 * (240 * Z.of_nat a + Z.of_nat b)))
      as (u2 & Hrun2 & Hu2); [| |exists u2; split; [done|]].
    + by rewrite Z.add_0_r.
    + intros b pixel u3 Hpixel Hu3.
      apply for_range_Some in Hpixel as [-> Hpixel]; [|lia].
      destruct (unpacked_sample bytes (Z.of_nat a) (Z.of_nat b) u3)
        as (u4 & Hr4 & Hu4); [done|lia|lia|done|].
      exists u4. split; [done|].
      replace (Z.of_nat (S b)) with (Z.of_nat b + 1) by lia. done.
    + rewrite for_range_length_gen in Hu2.
      change (Z.to_nat ((5760 - 9 + 24 - 1) `div` 24)) with (Z.to_nat 240) in Hu2.
      replace (3 * (240 * Z.of_nat (S a)))
        with (3 * (240 * Z.of_nat a + Z.of_nat (Z.to_nat 240))) by lia. done.
  - rewrite for_range_length_gen in Hu.
    change (Z.to_nat ((1080 - 3 + 8 - 1) `div` 8)) with (Z.to_nat 135) in Hu.
    replace 97200 with (3 * (240 * Z.of_nat (Z.to_nat 135))) by lia. done.
Qed.

(** What [unpack] returns for a bitmap of the frame geometry: bit [m] of
    the output is the high bit sampled for [m]. *)
Lemma unpack_spec bytes :
  Slice.len bytes = 6220800 →
  ∃ out, unpack bytes = Ok out
    ∧ Slice.len out = 12150
    ∧ (∀ v, v ∈ out → 0 ≤ v < 256)
    ∧ ∀ m, 0 ≤ m < 97200 → payload_bit out m = sampled_bit bytes m.
Proof.
  intros Hlen. unfold unpack.
  destruct (unpack_run bytes Hlen) as (u & -> & Hout & _ & _ & Hbits).
  cbn [bind]. exists (processedBytes u). split; [done|]. split; [done|]. split.
  - intros v Hv. apply list_elem_of_lookup in Hv as [q Hq].
    pose proof (lookup_lt_Some _ _ _ Hq) as Hql. unfold Slice.len in Hout.
    destruct (Hbits (Z.of_nat q) ltac:(lia)) as (v' & Hv' & Hvb).
    rewrite Nat2Z.id, Hq in Hv'. injection Hv' as <-.
    assert (0 ≤ v) as Hnn.
    { apply Z.bits_iff_nonneg_ex. exists 8. intros t Ht.
      rewrite Hvb by lia. rewrite decide_False; [done|lia]. }
    split; [done|]. change 256 with (2 ^ 8).
    destruct (decide (v = 0)) as [->|Hnz]; [lia|].
    apply Z.log2_lt_pow2; [lia|].
    destruct (Z.lt_ge_cases (Z.log2 v) 8) as [|Hge]; [done|exfalso].
    pose proof (Z.bit_log2 v ltac:(lia)) as Hlog.
    rewrite Hvb in Hlog by lia. rewrite decide_False in Hlog; [done|lia].
  - intros m Hm.
    assert (0 ≤ m `div` 8 < 12150) as Hq by (Z.div_mod_to_equations; lia).
    destruct (Hbits (m `div` 8) Hq) as (v & Hv & Hvb).
    unfold payload_bit. rewrite Hv.
    pose proof (Z.mod_pos_bound m 8 ltac:(lia)).
    rewrite Hvb by lia. rewrite decide_True by lia.
    f_equal. pose proof (Z.div_mod m 8 ltac:(lia)). lia.
Qed.

End UnpackFacts.

(** ** The codec, and the workers back to back *)

Module CodecFacts.
Import SliceFacts.

Lemma codec_lossless_lookup rgba (p c : nat) :
  (c < 3)%nat → (4 * p + 3 < length rgba)%nat →
  codec_lossless rgba !! (3 * p + c)%nat = rgba !! (4 * p + c)%nat.
Proof.
  intros Hc. revert rgba. induction p as [|p IH]; intros rgba Hlen.
  - destruct rgba as [|r [|g [|b [|a rest]]]]; simpl in Hlen; try lia.
    destruct c as [|[|[|c]]]; try lia; reflexivity.
  - destruct rgba as [|r [|g [|b [|a rest]]]]; simpl in Hlen; try lia.
    replace (3 * S p + c)%nat with (S (S (S (3 * p + c)))) by lia.
    replace (4 * S p + c)%nat with (S (S (S (S (4 * p + c))))) by lia.
    simpl. apply IH. lia.
Qed.

Lemma codec_lossless_length rgba (n : nat) :
  length rgba = (4 * n)%nat → length (codec_lossless rgba) = (3 * n)%nat.
Proof.
  revert rgba. induction n as [|n IH]; intros rgba Hlen.
  - destruct rgba; [done|simpl in Hlen; lia].
  - destruct rgba as [|r [|g [|b [|a rest]]]]; simpl in Hlen; try lia.
    simpl. rewrite (IH rest) by lia. lia.
Qed.

Lemma codec_lossless_len bitmap :
  Slice.len bitmap = 8294400 → Slice.len (codec_lossless bitmap) = 6220800.
Proof.
  unfold Slice.len. intros H.
  rewrite (codec_lossless_length bitmap (Z.to_nat 2073600)) by lia. lia.
Qed.

(** The codec keeps the three colour channels of every pixel. *)
Lemma codec_lossless_at bitmap x y c :
  Slice.len bitmap = 8294400 → 0 ≤ x < 1920 → 0 ≤ y < 1080 → 0 ≤ c < 3 →
  rgb_at (codec_lossless bitmap) x y c = rgba_at bitmap x y c.
Proof.
  intros Hlen Hx Hy Hc. unfold rgb_at, rgba_at, Slice.len in *.
  replace (Z.to_nat (y * 5760 + x * 3 + c))
    with (3 * Z.to_nat (y * 1920 + x) + Z.to_nat c)%nat by lia.
  replace (Z.to_nat (y * 7680 + x * 4 + c))
    with (4 * Z.to_nat (y * 1920 + x) + Z.to_nat c)%nat by lia.
  apply codec_lossless_lookup; lia.
Qed.

End CodecFacts.

Module RoundTrip.
Import SliceFacts CodecFacts PackFacts UnpackFacts.

Lemma high_bit_channel_value b : high_bit (channel_value b) = b.
Proof. by destruct b. Qed.

Lemma testbit_byte_high v t : 0 ≤ v < 256 → 8 ≤ t → Z.testbit v t = false.
Proof.
  intros Hv Ht. rewrite <- (Z.mod_small v (2 ^ 8)) by lia.
  apply Z.mod_pow2_bits_high. lia.
Qed.

(** Two byte sequences of the same length with the same bits are equal. *)
Lemma payload_bit_ext (l1 l2 : list Z) :
  length l1 = length l2 →
  (∀ v, v ∈ l1 → 0 ≤ v < 256) → (∀ v, v ∈ l2 → 0 ≤ v < 256) →
  (∀ m, 0 ≤ m < 8 * Slice.len l1 → payload_bit l1 m = payload_bit l2 m) →
  l1 = l2.
Proof.
  intros Hlen Hr1 Hr2 Hbits. apply (list_eq_same_length _ _ (length l1)); [done..|].
  intros q v1 v2 Hq Hv1 Hv2.
  apply Z.bits_inj'. intros t Ht.
  destruct (Z.lt_ge_cases t 8) as [Hlt|Hge].
  - specialize (Hbits (8 * Z.of_nat q + (7 - t))). unfold payload_bit in Hbits.
    destruct (div_mod_unique_pos (8 * Z.of_nat q + (7 - t)) 8 (Z.of_nat q) (7 - t))
      as [Hd Hm]; [lia..|].
    rewrite Hd, Hm, Nat2Z.id, Hv1, Hv2 in Hbits.
    replace (7 - (7 - t)) with t in Hbits by lia.
    apply Hbits. unfold Slice.len. lia.
  - rewrite !testbit_byte_high; try done.
    + apply Hr2. by eapply list_elem_of_lookup_2.
    + apply Hr1. by eapply list_elem_of_lookup_2.
Qed.

Lemma payload_bit_padded frame n m :
  0 ≤ m → payload_bit (frame ++ replicate n 0) m = payload_bit frame m.
Proof.
  intros Hm. unfold payload_bit.
  destruct (frame !! Z.to_nat (m `div` 8)) as [v|] eqn:Hv.
  - by rewrite (lookup_app_l_Some _ _ _ _ Hv).
  - apply lookup_ge_None in Hv. rewrite lookup_app_r by done.
    destruct (replicate n 0 !! _) as [z|] eqn:Hz; [|done].
    apply lookup_replicate in Hz as [-> _]. apply Z.bits_0.
Qed.

(** What the codec hands to the unpacker is what the packer drew. *)
Lemma sampled_bit_pack frame bitmap m :
  Slice.len bitmap = 8294400 →
  (∀ x y c, in_bitmap x y c →
     rgba_at bitmap x y c =
       Some (if decide (c < 3)
             then channel_value (payload_bit frame (3 * dot_of x y + c)) else 0)) →
  0 ≤ m < 97200 →
  sampled_bit (codec_lossless bitmap) m = payload_bit frame m.
Proof.
  intros Hlen Hpix Hm. unfold sampled_bit. unfold sampled_bit_at.
  set (d := m `div` 3). set (c := m `mod` 3).
  assert (0 ≤ d < 32400 ∧ 0 ≤ c < 3 ∧ m = 3 * d + c) as (Hd & Hc & Hmdc).
  { subst d c. Z.div_mod_to_equations. lia. }
  assert (0 ≤ d `mod` 240 < 240 ∧ 0 ≤ d `div` 240 < 135) as [Hdx Hdy].
  { Z.div_mod_to_equations. lia. }
  rewrite codec_lossless_at by (done || lia).
  rewrite Hpix by (unfold in_bitmap; lia).
  rewrite decide_True by lia. rewrite high_bit_channel_value.
  f_equal. rewrite dot_of_eq.
  destruct (div_mod_unique_pos (d `mod` 240 * 8 + 3) 8 (d `mod` 240) 3) as [-> _]; [lia..|].
  destruct (div_mod_unique_pos (d `div` 240 * 8 + 3) 8 (d `div` 240) 3) as [-> _]; [lia..|].
  pose proof (Z.div_mod d 240 ltac:(lia)). lia.
Qed.

(** Packing a payload segment, passing the bitmap through a lossless codec
    and unpacking it gives the segment back, padded with zero bytes to the
    capacity of a frame. *)
Lemma unpack_pack frame :
  1 ≤ Slice.len frame ≤ 12150 → (∀ v, v ∈ frame → 0 ≤ v < 256) →
  ∃ bitmap, Encode.pack frame = Ok bitmap
    ∧ Slice.len bitmap = 8294400
    ∧ Decode.unpack (codec_lossless bitmap) =
        Ok (frame ++ replicate (Z.to_nat (12150 - Slice.len frame)) 0).
Proof.
  intros Hlen Hbytes.
  destruct (pack_spec frame Hlen) as (bitmap & Hpack & Hblen & Hpix).
  exists bitmap. split; [done|]. split; [done|].
  destruct (unpack_spec (codec_lossless bitmap) (codec_lossless_len _ Hblen))
    as (out & -> & Holen & Horange & Hobits).
  f_equal. unfold Slice.len in *. apply payload_bit_ext.
  - rewrite length_app, length_replicate. lia.
  - done.
  - intros v [Hv|Hv]%elem_of_app; [by apply Hbytes|].
    apply elem_of_replicate in Hv as [-> _]. lia.
  - intros m Hm. unfold Slice.len in Hm.
    rewrite Hobits by lia. rewrite payload_bit_padded by lia.
    by apply sampled_bit_pack; [| |lia].
Qed.

End RoundTrip.

(** ** The reorder buffer *)

Module ReorderFacts.
Import SliceFacts Reorder.

Lemma shift_insert (keys : list Z) (r : nat) (frameID : Z) :
  (r ≤ length keys)%nat →
  <[r := frameID]>
    (take (S r) (keys ++ [0])
     ++ take ((length keys - r) `min` ((S (length keys) - r) `min` (S (length keys) - r)))
             (take (S (length keys) - r) (drop r (keys ++ [0])))
     ++ drop (S r + (length keys - r) `min` ((S (length keys) - r) `min` (S (length keys) - r)))
             (keys ++ [0]))
  = take r keys ++ frameID :: drop r keys.
Proof.
  intros Hr.
  assert (((length keys - r) `min` ((S (length keys) - r) `min` (S (length keys) - r)))%nat = (length keys - r)%nat) as Hmin.
  { lia. }
  rewrite Hmin.
  rewrite (drop_ge (keys ++ [0]) (S r + (length keys - r)))
    by (rewrite length_app; simpl; lia).
  rewrite app_nil_r.
  rewrite take_take, Nat.min_l by lia.
  rewrite (drop_app_le keys) by done.
  rewrite (take_app_length' (drop r keys)) by (rewrite length_drop; lia).
  assert (∃ y, take (S r) (keys ++ [0]) = take r keys ++ [y]) as [y ->].
  { destruct (lookup_lt_is_Some_2 (keys ++ [0]) r) as [y Hy].
    { rewrite length_app. simpl. lia. }
    exists y. rewrite (take_S_r _ _ y Hy). by rewrite take_app_le. }
  rewrite <- (assoc_L (++)). simpl.
  rewrite insert_app_r_alt by (rewrite length_take; lia).
  rewrite length_take, Nat.min_l by lia. rewrite Nat.sub_diag. done.
Qed.

Section search.
Variables (keys : list Z) (frameID : Z).
Hypothesis keys_sorted : StronglySorted Z.lt keys.

Let at_least (i : Z) : outcome bool :=
  let* k := Slice.index keys i in Ok (k >=? frameID).

(** The binary search narrows [i, j) while everything before [i] is below
    [frameID] and everything from [j] on is not. *)
Lemma search_spec fuel i j :
  0 ≤ i ≤ j → j ≤ Slice.len keys → (Z.to_nat (j - i) ≤ fuel)%nat →
  Forall (λ k, k < frameID) (take (Z.to_nat i) keys) →
  Forall (λ k, frameID ≤ k) (drop (Z.to_nat j) keys) →
  ∃ r, search fuel at_least i j = Ok r
     ∧ 0 ≤ r ≤ Slice.len keys
     ∧ Forall (λ k, k < frameID) (take (Z.to_nat r) keys)
     ∧ Forall (λ k, frameID ≤ k) (drop (Z.to_nat r) keys).
Proof.
  revert i j. induction fuel as [|fuel IH]; intros i j Hij Hj Hfuel Hlo Hhi.
  - assert (i = j) as -> by lia. simpl.
    rewrite Z.ltb_irrefl. exists j. split; [done|]. split; [lia|done].
  - simpl. destruct (Z.ltb_spec i j) as [Hlt|Hge].
    2:{ assert (i = j) as -> by lia. exists j. split; [done|]. split; [lia|done]. }
    rewrite Z.shiftr_div_pow2 by lia. change (2 ^ 1) with 2.
    set (h := (i + j) `div` 2).
    assert (i ≤ h < j) as Hh by (subst h; Z.div_mod_to_equations; lia).
    destruct (lookup_lt_is_Some_2 keys (Z.to_nat h)) as [k Hk].
    { unfold Slice.len in Hj. lia. }
    unfold at_least at 1. rewrite (index_Ok _ _ k) by (done || lia). cbn [bind].
    pose proof (take_drop_middle keys (Z.to_nat h) k Hk) as Hsplit.
    pose proof keys_sorted as Hsorted. rewrite <- Hsplit in Hsorted.
    apply StronglySorted_app in Hsorted as (Hbefore & _ & Hafter).
    apply StronglySorted_cons in Hafter as [Hafter _].
    destruct (Z.geb_spec k frameID) as [Hk_ge|Hk_lt]; cbn [negb].
    + apply IH; try lia; try done.
      rewrite (drop_S _ k) by done. constructor; [lia|].
      eapply Forall_impl; [exact Hafter|]. intros; simpl in *; lia.
    + apply IH; try lia; try done.
      replace (Z.to_nat (h + 1)) with (S (Z.to_nat h)) by lia.
      rewrite (take_S_r _ _ k) by done. apply Forall_app. split.
      * apply Forall_forall. intros x Hx.
        specialize (Hbefore x k Hx ltac:(left)). lia.
      * by repeat constructor.
Qed.

Lemma Search_spec :
  ∃ r, Search (Slice.len keys) at_least = Ok r
     ∧ 0 ≤ r ≤ Slice.len keys
     ∧ Forall (λ k, k < frameID) (take (Z.to_nat r) keys)
     ∧ Forall (λ k, frameID ≤ k) (drop (Z.to_nat r) keys).
Proof.
  unfold Search. pose proof (len_nonneg keys).
  apply search_spec; try lia.
  - constructor.
  - unfold Slice.len. rewrite Nat2Z.id, drop_all. constructor.
Qed.

(** The three statements that shift the tail of [keys] and store
    [frameID] make room at the position the search found. *)
Lemma insert_key_spec :
  ∃ r : nat, insert_key keys frameID = Ok (take r keys ++ frameID :: drop r keys)
     ∧ Forall (λ k, k < frameID) (take r keys)
     ∧ Forall (λ k, frameID ≤ k) (drop r keys).
Proof.
  destruct Search_spec as (r & Hr & Hrange & Hlo & Hhi).
  exists (Z.to_nat r). split; [|done].
  unfold insert_key. fold at_least. rewrite Hr. cbn [bind].
  set (keys1 := keys ++ [0]).
  assert (Slice.len keys1 = Slice.len keys + 1) as Hlen1 by apply len_app.
  unfold Slice.slice_from. rewrite slice_Ok by lia. cbn [bind].
  unfold Slice.copy_into.
  rewrite (proj2 (Z.leb_le 0 (r + 1))), (proj2 (Z.leb_le (r + 1) _)),
    (proj2 (Z.leb_le _ _)) by lia.
  cbn [andb bind].
  rewrite store_Ok.
  2:{ unfold Slice.len in *. rewrite !length_app, !length_take, !length_drop.
      rewrite Hlen1 in *. lia. }
  f_equal. unfold Slice.len in *.
  rewrite length_take, length_drop.
  replace (Z.to_nat (Z.of_nat (length keys1) - r)) with (S (length keys) - Z.to_nat r)%nat by lia.
  replace (Z.to_nat (Z.of_nat (length keys1) - (r + 1))) with (length keys - Z.to_nat r)%nat by lia.
  replace (Z.to_nat (r + 1)) with (S (Z.to_nat r)) by lia.
  replace (length keys1) with (S (length keys)) by lia.
  apply shift_insert. lia.
Qed.
End search.
End ReorderFacts.

(** ** The ordered emitter *)

Module EmitterFacts.
Import SliceFacts ReorderFacts Emitter.

Section emitter.
Variable payload : Z → list Z.

Lemma emitter_drain_spec fuel seen s :
  emitter_pre payload seen s → keys s ≠ [] → (length (keys s) ≤ fuel)%nat →
  ∃ s', drain fuel s = Ok s' ∧ emitter_inv payload seen s'.
Proof.
  revert s. induction fuel as [|fuel IH]; intros s Hpre Hne Hfuel.
  { destruct (keys s); [done|simpl in Hfuel; lia]. }
  destruct s as [out buf ks kl w]. cbn [keys] in *.
  destruct ks as [|k0 rest]; [done|].
  destruct Hpre as ((Hsorted & Hkl & Hdom) & Hge & Hseen & Hbuf & Hw & Hall & Hout).
  cbn [buffer keys keysLen wantedID stdin] in *.
  apply StronglySorted_cons in Hsorted as [Hk0 Hsorted].
  apply Forall_cons in Hge as [Hk0w Hge].
  cbn [drain keys wantedID]. rewrite (index_Ok _ _ k0) by done. cbn [bind].
  destruct (Z.eqb_spec k0 w) as [->|Hk0ne].
  - cbn [stdin buffer keys keysLen wantedID].
    assert (Slice.slice_from (w :: rest) 1 = Ok rest) as ->.
    { unfold Slice.slice_from. rewrite slice_Ok; unfold Slice.len; simpl length; try lia.
      replace (Z.to_nat (Z.of_nat (S (length rest)) - 1)) with (length rest) by lia.
      change (Z.to_nat 1) with 1%nat. simpl. by rewrite take_ge. }
    cbn [bind].
    destruct (proj1 (Hdom w) ltac:(left)) as [v Hv].
    destruct (Hbuf w v Hv) as [-> Hwseen].
    assert (emitter_pre payload seen
              (Emitter (out ++ Reorder.map_get buf w) (delete w buf) rest (kl - 1) (w + 1)))
      as Hpre'.
    { split; [split; [done|split]|split; [|split; [|split; [|split; [|split]]]]];
        cbn [buffer keys keysLen wantedID stdin].
      - unfold Slice.len in *. simpl length in Hkl. lia.
      - intros k. rewrite lookup_delete_is_Some. split.
        + intros Hk. split.
          * rewrite Forall_forall in Hk0. specialize (Hk0 k Hk). lia.
          * apply Hdom. by right.
        + intros [Hkw Hk]. apply Hdom in Hk. apply elem_of_cons in Hk as [?|?]; done.
      - eapply Forall_impl; [exact Hk0|]. intros; simpl in *; lia.
      - intros f Hf. destruct (Hseen f Hf) as [?|Hin]; [left; lia|].
        destruct (decide (frameID f = w)); [left; lia|right].
        by apply lookup_delete_is_Some.
      - intros k v [_ Hk]%lookup_delete_Some. by apply Hbuf.
      - lia.
      - intros j Hj. destruct (decide (j = w)) as [->|]; [done|]. apply Hall. lia.
      - rewrite seqZ_snoc, fmap_app, concat_app by done. simpl.
        rewrite app_nil_r. unfold Reorder.map_get. rewrite Hv. simpl. by rewrite Hout. }
    destruct (Z.eqb_spec (kl - 1) 0) as [Hz|Hnz].
    + eexists. split; [done|]. split; [done|]. cbn [keys].
      destruct rest; [constructor|].
      unfold Slice.len in Hkl. simpl length in Hkl. lia.
    + apply IH; cbn [keys]; [done| |simpl in Hfuel; lia].
      intros ->. unfold Slice.len in Hkl. simpl length in Hkl. lia.
  - exists (Emitter out buf (k0 :: rest) kl w). split; [done|]. split.
    + split; [split; [|done]|split; [|done]]; cbn [buffer keys keysLen wantedID stdin].
      * by apply StronglySorted_cons.
      * by apply Forall_cons.
    + cbn [keys wantedID]. apply Forall_cons. split; [lia|].
      eapply Forall_impl; [exact Hk0|]. intros; simpl in *; lia.
Qed.

Lemma emitter_step_spec seen s f :
  emitter_inv payload seen s →
  frameID f ∉ frameID <$> seen → 0 ≤ frameID f → value f = payload (frameID f) →
  ∃ s', step s f = Ok s' ∧ emitter_inv payload (seen ++ [f]) s'.
Proof.
  intros [Hpre Hgt] Hnew Hnn Hval.
  destruct s as [out buf ks kl w].
  destruct Hpre as ((Hsorted & Hkl & Hdom) & Hge & Hseen & Hbuf & Hw & Hall & Hout).
  cbn [buffer keys keysLen wantedID stdin] in *.
  assert (∀ k, k ∈ ks → k ∈ frameID <$> seen) as Hks.
  { intros k [v Hv]%Hdom. by apply (Hbuf k v). }
  unfold step. cbn [buffer keys keysLen wantedID stdin].
  destruct (Z.eqb_spec (frameID f) w) as [Hid|Hid].
  - assert (emitter_pre payload (seen ++ [f])
              (Emitter (out ++ value f) buf ks kl (w + 1))) as Hpre'.
    { split; [done|split; [|split; [|split; [|split; [|split]]]]];
        cbn [buffer keys keysLen wantedID stdin].
      - eapply Forall_impl; [exact Hgt|]. intros; simpl in *; lia.
      - intros f' [Hf'|Hf']%elem_of_app.
        + destruct (Hseen f' Hf'); [left; lia|by right].
        + apply list_elem_of_singleton in Hf' as ->. left. lia.
      - intros k v Hv. destruct (Hbuf k v Hv) as [-> Hk]. split; [done|].
        rewrite fmap_app. apply elem_of_app. by left.
      - lia.
      - intros j Hj. rewrite fmap_app. apply elem_of_app.
        destruct (decide (j = w)) as [->|].
        + right. simpl. rewrite Hid. by left.
        + left. apply Hall. lia.
      - rewrite seqZ_snoc, fmap_app, concat_app by done. simpl.
        rewrite app_nil_r, Hout, Hval, Hid. done. }
    destruct (Z.eqb_spec kl 0) as [Hz|Hnz].
    + eexists. split; [done|]. split; [done|]. cbn [keys].
      destruct ks; [constructor|]. unfold Slice.len in Hkl. simpl length in Hkl. lia.
    + apply emitter_drain_spec; cbn [keys]; [done| |done].
      intros ->. unfold Slice.len in Hkl. simpl length in Hkl. lia.
  - assert (w < frameID f) as Hlt.
    { destruct (Z.lt_ge_cases w (frameID f)) as [|Hge']; [done|].
      exfalso. apply Hnew. apply Hall. lia. }
    destruct (insert_key_spec ks (frameID f) Hsorted) as (r & -> & Hlo & Hhi).
    cbn [bind]. eexists. split; [done|].
    assert (frameID f ∉ ks) as Hfresh by (intros ?%Hks; done).
    pose proof (take_drop r ks) as Hsplit.
    assert (∀ k, k ∈ take r ks ++ frameID f :: drop r ks ↔ k = frameID f ∨ k ∈ ks) as Hmem.
    { intros k. rewrite <- Hsplit at 3. rewrite !elem_of_app, elem_of_cons. tauto. }
    split; [split; [split; [|split]|split; [|split; [|split; [|split; [|split]]]]]|];
      cbn [buffer keys keysLen wantedID stdin].
    + rewrite <- Hsplit in Hsorted.
      apply StronglySorted_app in Hsorted as (Hcross & Hs1 & Hs2).
      apply StronglySorted_app. split; [|split; [done|]].
      * intros x1 x2 Hx1 [->|Hx2]%elem_of_cons; [|by apply Hcross].
        rewrite Forall_forall in Hlo. by apply Hlo.
      * apply StronglySorted_cons. split; [|done].
        apply Forall_forall. intros x Hx.
        rewrite Forall_forall in Hhi. specialize (Hhi x Hx).
        assert (x ≠ frameID f); [|lia].
        intros ->. apply Hfresh. rewrite <- Hsplit. apply elem_of_app. by right.
    + unfold Slice.len in *. rewrite length_app. simpl length.
      rewrite <- Hsplit in Hkl. rewrite length_app in Hkl. lia.
    + intros k. rewrite Hmem, lookup_insert_is_Some, Hdom.
      split; intros [?|?]; auto. destruct (decide (frameID f = k)); auto.
      right. tauto.
    + apply Forall_forall. intros k [->|Hk]%Hmem; [lia|].
      rewrite Forall_forall in Hge. by apply Hge.
    + intros f' [Hf'|Hf']%elem_of_app.
      * destruct (Hseen f' Hf') as [?|Hin]; [by left|right].
        apply lookup_insert_is_Some. destruct (decide (frameID f = frameID f')); auto.
      * apply list_elem_of_singleton in Hf' as ->. right.
        apply lookup_insert_is_Some. by left.
    + intros k v Hv. rewrite fmap_app, elem_of_app.
      apply lookup_insert_Some in Hv as [[<- <-]|[Hne Hv]].
      * split; [done|]. right. simpl. by left.
      * destruct (Hbuf k v Hv). auto.
    + done.
    + intros j Hj. rewrite fmap_app, elem_of_app. left. by apply Hall.
    + done.
    + apply Forall_forall. intros k [->|Hk]%Hmem; [done|].
      rewrite Forall_forall in Hgt. by apply Hgt.
Qed.

Lemma emitter_run_spec arrivals :
  NoDup (frameID <$> arrivals) →
  (∀ f, f ∈ arrivals → 0 ≤ frameID f ∧ value f = payload (frameID f)) →
  ∃ s, run arrivals = Ok s ∧ emitter_inv payload arrivals s.
Proof.
  intros Hnodup Hfr. unfold run.
  loop_invariant (λ n, emitter_inv payload (take n arrivals))
    as (s & Hrun & Hs); [| |exists s; split; [done|]].
  - simpl. split; [split; [split; [constructor|split; [done|]]|]|constructor];
      cbn [buffer keys keysLen wantedID stdin init].
    + intros k. rewrite lookup_empty. split; [by intros ?%elem_of_nil|by intros [? ?]].
    + split; [constructor|]. split; [by intros ? ?%elem_of_nil|].
      split; [by intros ? ? ?|]. split; [done|]. split; [lia|done].
  - intros n f s Hf Hs.
    destruct (Hfr f) as [Hnn Hval]; [by eapply list_elem_of_lookup_2|].
    rewrite (take_S_r _ _ f) by done.
    apply emitter_step_spec; try done.
    intros Hin. apply list_elem_of_fmap in Hin as (f' & Heq & Hf').
    apply list_elem_of_lookup in Hf' as [m Hm].
    apply lookup_take_Some in Hm as [Hm Hmn].
    assert (m = n); [|lia].
    eapply (NoDup_lookup _ _ _ (frameID f) Hnodup).
    + rewrite list_lookup_fmap, Hm. simpl. by rewrite Heq.
    + by rewrite list_lookup_fmap, Hf.
  - by rewrite take_ge in Hs.
Qed.
End emitter.
End EmitterFacts.

(** ** The ordered writer *)

Module WriterFacts.
Import SliceFacts ReorderFacts Writer.

Lemma enqueue_spec seen s f s' :
  writer_inv seen s →
  frameID f ∉ frameID <$> seen → wantedID s ≤ frameID f →
  enqueue s f = Ok s' →
  writer_inv (seen ++ [f]) s' ∧ wantedID s' = wantedID s.
Proof.
  intros ((Hsorted & Hkl & Hdom) & Hge & Hbuf & Hw & Hall) Hnew Hle.
  unfold enqueue.
  destruct (insert_key_spec (keys s) (frameID f) Hsorted) as (r & -> & Hlo & Hhi).
  cbn [bind]. intros [= <-]. split; [|done].
  assert (frameID f ∉ keys s) as Hfresh by (intros ?%Hdom%Hbuf; done).
  pose proof (take_drop r (keys s)) as Hsplit.
  assert (∀ k, k ∈ take r (keys s) ++ frameID f :: drop r (keys s)
               ↔ k = frameID f ∨ k ∈ keys s) as Hmem.
  { intros k. rewrite <- Hsplit at 3. rewrite !elem_of_app, elem_of_cons. tauto. }
  split; [split; [|split]|split; [|split; [|split]]];
    cbn [buffer keys keysLen wantedID].
  - rewrite <- Hsplit in Hsorted.
    apply StronglySorted_app in Hsorted as (Hcross & Hs1 & Hs2).
    apply StronglySorted_app. split; [|split; [done|]].
    + intros x1 x2 Hx1 [->|Hx2]%elem_of_cons; [|by apply Hcross].
      rewrite Forall_forall in Hlo. by apply Hlo.
    + apply StronglySorted_cons. split; [|done].
      apply Forall_forall. intros x Hx.
      rewrite Forall_forall in Hhi. specialize (Hhi x Hx).
      assert (x ≠ frameID f); [|lia].
      intros ->. apply Hfresh. rewrite <- Hsplit. apply elem_of_app. by right.
  - unfold Slice.len in *. rewrite length_app. simpl length.
    rewrite <- Hsplit in Hkl. rewrite length_app in Hkl. lia.
  - intros k. rewrite Hmem, lookup_insert_is_Some, Hdom.
    split; intros [?|?]; auto. destruct (decide (frameID f = k)); auto.
    right. tauto.
  - apply Forall_forall. intros k [->|Hk]%Hmem; [done|].
    rewrite Forall_forall in Hge. by apply Hge.
  - intros k Hk. rewrite fmap_app, elem_of_app.
    apply lookup_insert_is_Some in Hk as [<-|[_ Hk]].
    + right. simpl. by left.
    + left. by apply Hbuf.
  - done.
  - intros j Hj. rewrite fmap_app, elem_of_app. left. by apply Hall.
Qed.

Lemma writer_drain_spec fuel seen s s' :
  writer_inv seen s → keys s ≠ [] → drain fuel s = Ok s' → writer_inv seen s'.
Proof.
  revert s. induction fuel as [|fuel IH]; intros s Hinv Hne.
  - destruct s as [fl lfo li buf ks kl w nwb]. cbn [keys] in *.
    destruct ks as [|k0 rest]; [done|].
    cbn [drain keys wantedID]. rewrite (index_Ok _ _ k0) by done. cbn [bind].
    destruct (k0 =? w); [done|]. by intros [= <-].
  - destruct s as [fl lfo li buf ks kl w nwb]. cbn [keys] in *.
    destruct ks as [|k0 rest]; [done|].
    destruct Hinv as ((Hsorted & Hkl & Hdom) & Hge & Hbuf & Hw & Hall).
    cbn [buffer keys keysLen wantedID] in *.
    pose proof Hsorted as Hsorted0.
    apply StronglySorted_cons in Hsorted as [Hk0 Hsorted].
    cbn [drain keys wantedID]. rewrite (index_Ok _ _ k0) by done. cbn [bind].
    destruct (Z.eqb_spec k0 w) as [->|Hk0ne].
    + cbn [file buffer keys keysLen wantedID nextWriteByte lastFrameOffset lengthInt].
      assert (Slice.slice_from (w :: rest) 1 = Ok rest) as ->.
      { unfold Slice.slice_from. rewrite slice_Ok; unfold Slice.len; simpl length; try lia.
        replace (Z.to_nat (Z.of_nat (S (length rest)) - 1)) with (length rest) by lia.
        change (Z.to_nat 1) with 1%nat. simpl. by rewrite take_ge. }
      cbn [bind].
      set (s1 := Writer _ _ _ _ _ _ _ _).
      assert (writer_inv seen s1) as Hinv1.
      { subst s1.
        split; [split; [done|split]|split; [|split; [|split]]];
          cbn [buffer keys keysLen wantedID].
        - unfold Slice.len in *. simpl length in Hkl. lia.
        - intros k. rewrite lookup_delete_is_Some. split.
          + intros Hk. split.
            * rewrite Forall_forall in Hk0. specialize (Hk0 k Hk). lia.
            * apply Hdom. by right.
          + intros [Hkw Hk]. apply Hdom in Hk. apply elem_of_cons in Hk as [?|?]; done.
        - eapply Forall_impl; [exact Hk0|]. intros; simpl in *; lia.
        - intros k [_ Hk]%lookup_delete_is_Some. by apply Hbuf.
        - lia.
        - intros j Hj. destruct (decide (j = w)) as [->|]; [|apply Hall; lia].
          apply Hbuf, Hdom. by left. }
      destruct (Z.eqb_spec (kl - 1) 0) as [Hz|Hnz].
      * by intros [= <-].
      * apply IH; [done|]. subst s1. cbn [keys].
        intros ->. unfold Slice.len in Hkl. simpl length in Hkl. lia.
    + intros [= <-].
      split; [split; [done|split; [done|done]]|split; [done|split; [done|split; done]]].
Qed.

Lemma writer_step_spec seen s f s' :
  writer_inv seen s → (0 : Z) ∈ frameID <$> seen →
  frameID f ∉ frameID <$> seen → 0 ≤ frameID f →
  step s f = Ok s' → writer_inv (seen ++ [f]) s'.
Proof.
  intros Hinv H0 Hnew Hnn. unfold step.
  destruct (Z.eqb_spec (frameID f) (wantedID s)) as [Hid|Hid].
  - intros (v & _ & Hrest)%bind_Ok.
    set (s1 := Writer _ _ _ _ _ _ _ _) in Hrest.
    destruct Hinv as ((Hsorted & Hkl & Hdom) & Hge & Hbuf & Hw & Hall).
    assert (writer_inv (seen ++ [f]) s1) as Hinv1.
    { subst s1. split; [done|split; [|split; [|split]]];
        cbn [buffer keys keysLen wantedID].
      - apply Forall_forall. intros k Hk.
        rewrite Forall_forall in Hge. specialize (Hge k Hk).
        assert (k ≠ wantedID s); [|lia].
        intros ->. apply Hnew. rewrite Hid. by apply Hbuf, Hdom.
      - intros k Hk. rewrite fmap_app, elem_of_app. left. by apply Hbuf.
      - lia.
      - intros j Hj. rewrite fmap_app, elem_of_app.
        destruct (decide (j = wantedID s)) as [->|].
        + right. simpl. rewrite Hid. by left.
        + left. apply Hall. lia. }
    subst s1. cbn [keysLen keys] in Hrest.
    destruct (Z.eqb_spec (keysLen s) 0) as [Hz|Hnz].
    + injection Hrest as <-. exact Hinv1.
    + eapply writer_drain_spec; [exact Hinv1| |exact Hrest].
      cbn [keys]. intros Hnil. rewrite Hnil in Hkl. unfold Slice.len in Hkl.
      simpl in Hkl. lia.
  - intros Henq.
    eapply enqueue_spec; [done|done| |exact Henq].
    destruct Hinv as (_ & _ & _ & Hw & Hall).
    destruct (Z.le_gt_cases (wantedID s) (frameID f)) as [|Hlt]; [done|].
    exfalso. apply Hnew.
    destruct (decide (frameID f = 0)) as [->|]; [done|]. apply Hall. lia.
Qed.

Lemma await_first_spec arrivals : ∀ seen s s' rest,
  writer_inv seen s → wantedID s = 1 →
  NoDup (frameID <$> seen ++ arrivals) →
  (∀ f, f ∈ arrivals → 0 ≤ frameID f) →
  await_first arrivals s = Ok (s', rest) →
  ∃ consumed, arrivals = consumed ++ rest
    ∧ writer_inv (seen ++ consumed) s'
    ∧ (rest = [] ∨ (0 : Z) ∈ frameID <$> seen ++ consumed).
Proof.
  induction arrivals as [|f arrivals IH]; intros seen s s' rest Hinv Hw Hnodup Hnn.
  - simpl. intros [= <- <-]. exists []. rewrite !app_nil_r.
    split; [done|split; [done|by left]].
  - cbn [await_first].
    assert (frameID f ∉ frameID <$> seen) as Hnew.
    { rewrite fmap_app in Hnodup. apply NoDup_app in Hnodup as (_ & Hdisj & _).
      intros Hin. apply (Hdisj _ Hin). simpl. by left. }
    destruct (Z.eqb_spec (frameID f) 0) as [Hid|Hid]; cbn [negb].
    + intros (s1 & Hs1 & [= <- <-])%bind_Ok. exists [f]. split; [done|].
      apply bind_Ok in Hs1 as (li & _ & Hs1).
      apply bind_Ok in Hs1 as (fl & _ & Hs1).
      apply bind_Ok in Hs1 as (data & _ & [= <-]).
      destruct Hinv as (Hcons & Hge & Hbuf & Hw1 & Hall).
      split.
      * split; [done|split; [done|split; [|split; [done|]]]];
          cbn [buffer keys keysLen wantedID].
        -- intros k Hk. rewrite fmap_app, elem_of_app. left. by apply Hbuf.
        -- intros j Hj. rewrite fmap_app, elem_of_app. left. by apply Hall.
      * right. rewrite fmap_app, elem_of_app. right. simpl. rewrite Hid. by left.
    + intros (s1 & Hs1 & Hrest)%bind_Ok.
      assert (0 ≤ frameID f) by (apply Hnn; by left).
      destruct (enqueue_spec seen s f s1 Hinv Hnew ltac:(lia) Hs1) as [Hinv1 Hw1].
      destruct (IH (seen ++ [f]) s1 s' rest Hinv1 ltac:(lia)) as (consumed & -> & Hinv' & Hzero).
      * by rewrite <- (assoc_L (++)).
      * intros f' Hf'. apply Hnn. by right.
      * done.
      * exists (f :: consumed). rewrite <- (assoc_L (++)) in Hinv', Hzero. done.
Qed.

Lemma init_inv : writer_inv [] init.
Proof.
  split; [split; [constructor|split; [done|]]|split; [constructor|split; [|split; [done|]]]];
    cbn [buffer keys keysLen wantedID init].
  - intros k. rewrite lookup_empty. split; [by intros ?%elem_of_nil|by intros [? ?]].
  - intros k. rewrite lookup_empty. by intros [? ?].
  - intros j Hj. lia.
Qed.


(** A frame is new when it arrives: its index is not among those of the
    frames before it. *)
Lemma arrival_fresh (consumed rest : list frameData) (n : nat) (f : frameData) :
  NoDup (frameID <$> consumed ++ rest) → rest !! n = Some f →
  frameID f ∉ frameID <$> consumed ++ take n rest.
Proof.
  intros Hnodup Hf Hin. apply list_elem_of_fmap in Hin as (f' & Heq & Hf').
  apply list_elem_of_lookup in Hf' as [m Hm].
  assert ((consumed ++ rest) !! m = Some f') as Hm'.
  { apply lookup_app_Some in Hm as [Hm|[Hlen Hm]].
    - by apply lookup_app_l_Some.
    - apply lookup_take_Some in Hm as [Hm _].
      rewrite lookup_app_r by done. done. }
  assert ((consumed ++ rest) !! (length consumed + n)%nat = Some f) as Hn'.
  { rewrite lookup_app_r by lia. rewrite <- Hf. f_equal. lia. }
  assert (m = (length consumed + n)%nat) as ->.
  { eapply (NoDup_lookup _ _ _ (frameID f) Hnodup).
    - rewrite list_lookup_fmap, Hm'. simpl. by rewrite Heq.
    - by rewrite list_lookup_fmap, Hn'. }
  apply lookup_app_Some in Hm as [Hm|[_ Hm]].
  - apply lookup_lt_Some in Hm. lia.
  - apply lookup_take_Some in Hm as [_ Hm]. lia.
Qed.

(** *** The buffered indices and the cursor *)




Lemma await_first_wanted arrivals : ∀ s s' rest,
  await_first arrivals s = Ok (s', rest) → wantedID s' = wantedID s.
Proof.
  induction arrivals as [|f arrivals IH]; intros s s' rest; cbn [await_first].
  - by intros [= <- <-].
  - destruct (negb (frameID f =? 0)).
    + intros (s1 & Hs1 & Hrest)%bind_Ok. rewrite (IH _ _ _ Hrest).
      unfold enqueue in Hs1. apply bind_Ok in Hs1 as (keys' & _ & [= <-]). done.
    + intros (s1 & Hs1 & [= <- <-])%bind_Ok. unfold first_frame in Hs1.
      apply bind_Ok in Hs1 as (li & _ & Hs1).
      apply bind_Ok in Hs1 as (fl & _ & Hs1).
      apply bind_Ok in Hs1 as (data & _ & [= <-]). done.
Qed.


End WriterFacts.

(** ** The pipelines *)

Module PipelineFacts.
Import SliceFacts CodecFacts RoundTrip EmitterFacts.

Lemma number_ids {A} (l : list A) (g : nat → A → frameData) :
  (∀ i x, frameID (g i x) = Z.of_nat i) →
  frameID <$> imap g l = Z.of_nat <$> seq 0 (length l).
Proof.
  intros Hg. apply list_eq. intros i.
  rewrite !list_lookup_fmap, list_lookup_imap.
  destruct (l !! i) as [x|] eqn:Hx; simpl.
  - rewrite lookup_seq_lt by (by eapply lookup_lt_Some). simpl. by rewrite Hg.
  - rewrite lookup_seq_ge by (by apply lookup_ge_None). done.
Qed.

(** The emitter hands the frames to the codec in index order, whatever the
    order in which the workers deliver them. *)
Lemma emitter_order_independent (bitmaps : list (list Z)) arrivals :
  arrivals ≡ₚ Encode.number bitmaps →
  ∃ e, Emitter.run arrivals = Ok e
     ∧ Emitter.stdin e = concat bitmaps
     ∧ Emitter.keys e = []
     ∧ Emitter.wantedID e = Slice.len bitmaps.
Proof.
  intros Hperm.
  set (payload := λ j : Z, default [] (bitmaps !! Z.to_nat j)).
  assert (frameID <$> Encode.number bitmaps = Z.of_nat <$> seq 0 (length bitmaps)) as Hids.
  { by apply number_ids. }
  assert (∀ f, f ∈ arrivals ↔ ∃ n v, bitmaps !! n = Some v ∧ f = FrameData (Z.of_nat n) v) as Hin.
  { intros f. rewrite Hperm. unfold Encode.number. rewrite list_elem_of_lookup. split.
    - intros (n & Hn). rewrite list_lookup_imap in Hn.
      destruct (bitmaps !! n) as [v|] eqn:Hv; [|done]. injection Hn as <-. eauto.
    - intros (n & v & Hv & ->). exists n. rewrite list_lookup_imap, Hv. done. }
  destruct (emitter_run_spec payload arrivals) as (e & Hrun & Hpre & Hgt).
  { rewrite Hperm, Hids. apply NoDup_fmap; [apply _|apply NoDup_seq]. }
  { intros f (n & v & Hv & ->)%Hin. simpl. split; [lia|].
    unfold payload. by rewrite Nat2Z.id, Hv. }
  destruct Hpre as ((Hsorted & Hkl & Hdom) & Hge & Hseen & Hbuf & Hw & Hall & Hout).
  assert (∀ k, k ∈ frameID <$> arrivals ↔ 0 ≤ k < Slice.len bitmaps) as Hidrange.
  { intros k. rewrite Hperm, Hids, list_elem_of_fmap. unfold Slice.len. split.
    - intros (n & -> & Hn%elem_of_seq). lia.
    - intros Hk. exists (Z.to_nat k). split; [lia|]. apply elem_of_seq. lia. }
  assert (Emitter.wantedID e = Slice.len bitmaps) as Hwanted.
  { pose proof (len_nonneg bitmaps).
    destruct (Z.lt_trichotomy (Emitter.wantedID e) (Slice.len bitmaps)) as [Hlt | [Heq | Hbig]];
      [exfalso|done|exfalso].
    - pose proof (proj2 (Hidrange (Emitter.wantedID e)) ltac:(lia)) as Hex.
      apply list_elem_of_fmap in Hex as (f & Hf & Hfin).
      destruct (Hseen f Hfin) as [?|Hbufd]; [lia|].
      rewrite <- Hf in Hbufd. apply Hdom in Hbufd.
      rewrite Forall_forall in Hgt. specialize (Hgt _ Hbufd). lia.
    - specialize (Hall (Slice.len bitmaps) ltac:(lia)). apply Hidrange in Hall. lia. }
  assert (Emitter.keys e = []) as Hkeys.
  { destruct (Emitter.keys e) as [|k ks] eqn:Hks; [done|exfalso].
    apply Forall_cons in Hgt as [Hk _].
    destruct (proj1 (Hdom k) ltac:(left)) as [v Hv].
    destruct (Hbuf k v Hv) as [_ Hkin%Hidrange]. lia. }
  exists e. split; [done|]. split; [|done].
  rewrite Hout, Hwanted. f_equal.
  apply list_eq. intros n. rewrite list_lookup_fmap. unfold Slice.len.
  destruct (bitmaps !! n) as [v|] eqn:Hv.
  - rewrite lookup_seqZ_lt by (apply lookup_lt_Some in Hv; lia). simpl.
    unfold payload. by rewrite Z.add_0_l, Nat2Z.id, Hv.
  - rewrite lookup_seqZ_ge by (apply lookup_ge_None in Hv; lia). done.
Qed.


Lemma codec_lossless_app (l1 l2 : list Z) (n : nat) :
  length l1 = (4 * n)%nat →
  codec_lossless (l1 ++ l2) = codec_lossless l1 ++ codec_lossless l2.
Proof.
  revert l1. induction n as [|n IH]; intros l1 Hlen.
  - by destruct l1.
  - destruct l1 as [|r [|g [|b [|a rest]]]]; simpl in Hlen; try lia.
    simpl. rewrite (IH rest) by lia. done.
Qed.

Lemma codec_lossless_concat (bitmaps : list (list Z)) :
  Forall (λ bm, Slice.len bm = 8294400) bitmaps →
  codec_lossless (concat bitmaps) = concat (codec_lossless <$> bitmaps).
Proof.
  induction 1 as [|bm bitmaps Hbm _ IH]; simpl; [done|].
  rewrite (codec_lossless_app bm _ (Z.to_nat 2073600)), IH; [done|].
  unfold Slice.len in Hbm. lia.
Qed.

(** The reader goroutine cuts the stream back into the frames it is made of. *)
Lemma read_frames_concat (frames : list (list Z)) : ∀ fuel frameCount,
  Forall (λ f, Slice.len f = rawBytesPerFrame) frames →
  (length frames ≤ fuel)%nat →
  Decode.read_frames fuel frameCount (concat frames) =
    imap (λ i f, FrameData (frameCount + Z.of_nat i) f) frames.
Proof.
  induction frames as [|f frames IH]; intros fuel frameCount Hlen Hfuel.
  - destruct fuel; [done|]. simpl. done.
  - destruct fuel as [|fuel]; [simpl in Hfuel; lia|].
    apply Forall_cons in Hlen as [Hf Hlen].
    cbn [Decode.read_frames concat]. rewrite len_app, Hf.
    pose proof (len_nonneg (concat frames)).
    rewrite (proj2 (Z.leb_le _ _)) by lia.
    unfold Slice.len in Hf.
    rewrite take_app_length', drop_app_length' by lia.
    cbn [imap]. rewrite Z.add_0_r. f_equal.
    rewrite IH by (done || (simpl in Hfuel; lia)).
    apply imap_ext. intros i x _. simpl. f_equal. lia.
Qed.

Lemma len_concat_frames (frames : list (list Z)) n :
  Forall (λ f, Slice.len f = n) frames →
  Slice.len (concat frames) = n * Slice.len frames.
Proof.
  induction 1 as [|f frames Hf _ IH]; simpl; [unfold Slice.len; simpl; lia|].
  rewrite len_app, IH, Hf. unfold Slice.len. simpl length. lia.
Qed.

Lemma reader_concat (frames : list (list Z)) :
  Forall (λ f, Slice.len f = rawBytesPerFrame) frames →
  Decode.reader (concat frames) = Encode.number frames.
Proof.
  intros Hlen. unfold Decode.reader.
  rewrite read_frames_concat; [done|done|].
  rewrite (len_concat_frames _ _ Hlen).
  rewrite Z.mul_comm, Z.div_mul by done. unfold Slice.len. lia.
Qed.

(** Every worker of [encode] succeeds on a frame of the chunker, and the
    matching worker of [decode] recovers the padded segment. *)
Lemma serializer_frames (chunks : list (list Z)) (g : nat → Z) :
  Forall (λ c, 1 ≤ Slice.len c ≤ 12150 ∧ ∀ v, v ∈ c → 0 ≤ v < 256) chunks →
  ∃ bitmaps,
    mapM Encode.serializer (imap (λ i c, FrameData (g i) c) chunks) =
      Ok (imap (λ i bm, FrameData (g i) bm) bitmaps)
    ∧ mapM Encode.pack chunks = Ok bitmaps
    ∧ Forall (λ bm, Slice.len bm = 8294400) bitmaps
    ∧ mapM Decode.digester (imap (λ i bm, FrameData (g i) (codec_lossless bm)) bitmaps) =
        Ok (imap (λ i c, FrameData (g i) (pad c)) chunks).
Proof.
  intros Hgood. revert g. induction Hgood as [|c chunks [Hlen Hbytes] _ IH]; intros g.
  - exists []. done.
  - destruct (unpack_pack c Hlen Hbytes) as (bm & Hpack & Hbm & Hunpack).
    destruct (IH (g ∘ S)) as (bitmaps & Hser & Hpacks & Hlens & Hdig).
    assert (mapM Encode.serializer (imap ((λ i c, FrameData (g i) c) ∘ S) chunks) =
            Ok (imap ((λ i bm, FrameData (g i) bm) ∘ S) bitmaps)) as Hser' by exact Hser.
    assert (mapM Decode.digester
              (imap ((λ i bm, FrameData (g i) (codec_lossless bm)) ∘ S) bitmaps) =
            Ok (imap ((λ i c, FrameData (g i) (pad c)) ∘ S) chunks)) as Hdig' by exact Hdig.
    exists (bm :: bitmaps). cbn [imap mapM].
    unfold Encode.serializer at 1. cbn [value frameID]. rewrite Hpack. cbn [bind].
    rewrite Hser'. cbn [bind]. split; [done|].
    split; [by rewrite Hpacks|]. split; [by constructor|].
    unfold Decode.digester at 1. cbn [value frameID]. rewrite Hunpack. cbn [bind].
    rewrite Hdig'. cbn [bind]. done.
Qed.

(** The chunker cuts the stream into pieces of [processedBytesPerFrame]
    bytes, the last one possibly shorter, none of them empty. *)
Lemma chunk_spec (bytes : list Z) :
  ∃ chunks, Encode.chunk bytes = Ok chunks
    ∧ Slice.len chunks = Writer.ceil_div (Slice.len bytes) processedBytesPerFrame
    ∧ ∀ (n : nat) c, chunks !! n = Some c →
        c = take (Z.to_nat 12150) (drop (Z.to_nat (Z.of_nat n * 12150)) bytes)
        ∧ Z.of_nat n * 12150 < Slice.len bytes.
Proof.
  unfold Encode.chunk. change processedBytesPerFrame with 12150.
  pose proof (len_nonneg bytes) as Hnn.
  set (P := λ (n : nat) (chunks : list (list Z)),
         length chunks = n
       ∧ ∀ (m : nat) c, chunks !! m = Some c →
           c = take (Z.to_nat 12150) (drop (Z.to_nat (Z.of_nat m * 12150)) bytes)
           ∧ Z.of_nat m * 12150 < Slice.len bytes).
  loop_invariant P as (chunks & Hrun & Hcount & Hpieces);
    [| |exists chunks; split; [done|split; [|done]]].
  - split; [done|]. intros m c Hc. done.
  - intros n i chunks Hi [Hcount Hpieces].
    apply for_range_Some in Hi as [-> Hi]; [|lia]. rewrite Z.add_0_l in *.
    assert (∃ piece,
              Slice.slice bytes (Z.of_nat n * 12150)
                (if Z.of_nat n * 12150 + 12150 >? Slice.len bytes
                 then Slice.len bytes else Z.of_nat n * 12150 + 12150) = Ok piece
              ∧ piece = take (Z.to_nat 12150) (drop (Z.to_nat (Z.of_nat n * 12150)) bytes))
      as (piece & -> & Hpiece).
    { destruct (Z.gtb_spec (Z.of_nat n * 12150 + 12150) (Slice.len bytes)) as [Hgt|Hle].
      - rewrite slice_Ok by lia. eexists. split; [done|].
        unfold Slice.len. rewrite !take_ge; try done; rewrite length_drop; unfold Slice.len in *; lia.
      - rewrite slice_Ok by lia. eexists. split; [done|]. do 2 f_equal. lia. }
    cbn [bind]. eexists. split; [done|]. split.
    + rewrite length_app. simpl. lia.
    + intros m c [Hc|[Hm Hc]]%lookup_app_Some; [by apply Hpieces|].
      destruct (m - length chunks)%nat as [|?] eqn:Hd; [|done].
      injection Hc as <-. assert (m = n) as -> by lia. done.
  - unfold Slice.len at 1. rewrite Hcount, for_range_length_gen.
    unfold Writer.ceil_div. rewrite Z2Nat.id.
    + replace (Slice.len bytes - 0 + 12150 - 1) with (Slice.len bytes + 12149) by lia.
      Z.div_mod_to_equations. lia.
    + apply Z.div_pos; lia.
Qed.

Lemma chunk_frames (bytes : list Z) chunks :
  (∀ v, v ∈ bytes → 0 ≤ v < 256) →
  Encode.chunk bytes = Ok chunks →
  Forall (λ c, 1 ≤ Slice.len c ≤ 12150 ∧ ∀ v, v ∈ c → 0 ≤ v < 256) chunks.
Proof.
  intros Hbytes Hchunk.
  destruct (chunk_spec bytes) as (chunks' & Hrun & _ & Hpieces).
  rewrite Hrun in Hchunk. injection Hchunk as <-.
  apply Forall_lookup. intros n c Hc.
  destruct (Hpieces n c Hc) as [-> Hn]. split.
  - unfold Slice.len in *. rewrite length_take, length_drop. lia.
  - intros v Hv. apply Hbytes.
    by apply (subseteq_drop (Z.to_nat (Z.of_nat n * 12150))), (subseteq_take (Z.to_nat 12150)).
Qed.

Lemma PutUint64_bytes n v : v ∈ PutUint64 n → 0 ≤ v < 256.
Proof.
  unfold PutUint64. rewrite !elem_of_cons, elem_of_nil.
  intros H. repeat destruct H as [->|H]; try done; by apply Z.mod_pos_bound.
Qed.

(** What [encode] pipes into the codec: the bitmaps of the segments, in
    index order, whatever the order in which the packers deliver. *)
Lemma encode_spec (completion : list frameData → list frameData) file :
  (∀ v, v ∈ file → 0 ≤ v < 256) →
  (∀ l, completion l ≡ₚ l) →
  ∃ chunks bitmaps,
    Encode.chunk (Encode.with_header file) = Ok chunks
    ∧ mapM Encode.pack chunks = Ok bitmaps
    ∧ Forall (λ bm, Slice.len bm = 8294400) bitmaps
    ∧ mapM Decode.digester (Encode.number (codec_lossless <$> bitmaps)) =
        Ok (Encode.number (pad <$> chunks))
    ∧ encode completion file = Ok (concat bitmaps).
Proof.
  intros Hbytes Hperm.
  destruct (chunk_spec (Encode.with_header file)) as (chunks & Hchunk & _ & _).
  assert (Forall (λ c, 1 ≤ Slice.len c ≤ 12150 ∧ ∀ v, v ∈ c → 0 ≤ v < 256) chunks)
    as Hgood.
  { apply (chunk_frames (Encode.with_header file)); [|done].
    intros v [Hv|Hv]%elem_of_app; [by eapply PutUint64_bytes|by apply Hbytes]. }
  destruct (serializer_frames chunks Z.of_nat Hgood)
    as (bitmaps & Hser & Hpacks & Hlens & Hdig).
  destruct (emitter_order_independent bitmaps (completion (Encode.number bitmaps)))
    as (e & Hrun & Hout & _); [apply Hperm|].
  exists chunks, bitmaps. split; [done|]. split; [done|]. split; [done|]. split.
  - unfold Encode.number. rewrite !imap_fmap. exact Hdig.
  - unfold encode, Encode.rawFrames.
    change (negb (frameWidth `mod` dotSize =? 0) || negb (frameHeight `mod` dotSize =? 0))
      with false. cbv iota.
    rewrite Hchunk. cbn [bind].
    unfold Encode.number at 1. rewrite Hser. cbn [bind].
    fold (Encode.number bitmaps). rewrite Hrun. cbn [bind]. by rewrite Hout.
Qed.

(** The video does not depend on the order in which the packers deliver. *)
Lemma encode_order_independent (completion : list frameData → list frameData) file :
  (∀ v, v ∈ file → 0 ≤ v < 256) →
  (∀ l, completion l ≡ₚ l) →
  ∃ video, encode in_order file = Ok video ∧ encode completion file = Ok video.
Proof.
  intros Hbytes Hperm.
  destruct (encode_spec in_order file Hbytes) as (chunks & bitmaps & Hc & Hp & _ & _ & He);
    [done|].
  destruct (encode_spec completion file Hbytes Hperm)
    as (chunks' & bitmaps' & Hc' & Hp' & _ & _ & He').
  rewrite Hc in Hc'. injection Hc' as <-. rewrite Hp in Hp'. injection Hp' as <-.
  eauto.
Qed.

(** [decode] after [encode], reduced to the ordered writer: whatever the
    order in which the packers deliver, the digested frames that reach the
    writer are the padded segments of the chunker, in the order in which the
    unpackers deliver them. *)
Lemma decode_encode (completion1 completion2 : list frameData → list frameData) file :
  (∀ v, v ∈ file → 0 ≤ v < 256) →
  (∀ l, completion1 l ≡ₚ l) →
  ∃ chunks video,
    Encode.chunk (Encode.with_header file) = Ok chunks
    ∧ encode completion1 file = Ok video
    ∧ decode completion2 (codec_lossless video) =
        let* w := Writer.run (completion2 (Encode.number (pad <$> chunks))) in
        Ok (Writer.file w).
Proof.
  intros Hbytes Hperm.
  destruct (encode_spec completion1 file Hbytes Hperm)
    as (chunks & bitmaps & Hchunk & _ & Hlens & Hdig & Henc).
  exists chunks, (concat bitmaps). split; [done|]. split; [done|].
  unfold decode. rewrite codec_lossless_concat by done.
  rewrite reader_concat.
  2:{ apply Forall_fmap. eapply Forall_impl; [exact Hlens|].
      intros bm Hbm. simpl. by apply codec_lossless_len. }
  rewrite Hdig. done.
Qed.

End PipelineFacts.

(** ** The header *)

Module HeaderFacts.

Lemma testbit_byte_at (v k n : Z) :
  0 ≤ k → 0 ≤ n →
  Z.testbit (((v ≫ k) `mod` 256) ≪ k) n =
    bool_decide (k ≤ n < k + 8) && Z.testbit v n.
Proof.
  intros Hk Hn. rewrite Z.shiftl_spec by done.
  destruct (decide (k ≤ n)) as [Hle|Hlt].
  - change 256 with (2 ^ 8).
    destruct (decide (n - k < 8)) as [Hin|Hout].
    + rewrite Z.mod_pow2_bits_low by lia. rewrite Z.shiftr_spec by lia.
      rewrite bool_decide_eq_true_2 by lia. simpl. f_equal. lia.
    + rewrite Z.mod_pow2_bits_high by lia.
      rewrite bool_decide_eq_false_2 by lia. done.
  - rewrite Z.testbit_neg_r by lia. rewrite bool_decide_eq_false_2 by lia. done.
Qed.

(** The header that [encode] prepends is the length that [decode] reads. *)
Lemma Uint64_PutUint64 (v : Z) : 0 ≤ v < 2 ^ 64 → Uint64 (PutUint64 v) = Ok v.
Proof.
  intros Hv.
  assert (∀ a0 a1 a2 a3 a4 a5 a6 a7,
            Uint64 [a0; a1; a2; a3; a4; a5; a6; a7] =
            Ok (Z.lor a7 (Z.lor (a6 ≪ 8) (Z.lor (a5 ≪ 16) (Z.lor (a4 ≪ 24)
                 (Z.lor (a3 ≪ 32) (Z.lor (a2 ≪ 40) (Z.lor (a1 ≪ 48) (a0 ≪ 56)))))))))
    as Hread by reflexivity.
  unfold PutUint64. rewrite Hread. f_equal.
  apply Z.bits_inj'. intros n Hn.
  rewrite !Z.lor_spec.
  pose proof (testbit_byte_at v 0 n ltac:(lia) Hn) as H0.
  rewrite Z.shiftr_0_r, Z.shiftl_0_r in H0.
  rewrite H0, !testbit_byte_at by lia.
  destruct (Z.testbit v n) eqn:Hbit.
  - assert (n < 64) as Hn64.
    { destruct (Z.lt_ge_cases n 64) as [|Hge]; [done|exfalso].
      rewrite <- (Z.mod_small v (2 ^ 64)) in Hbit by lia.
      rewrite Z.mod_pow2_bits_high in Hbit by lia. done. }
    rewrite !andb_true_r.
    repeat case_bool_decide; try lia; reflexivity.
  - rewrite !andb_false_r. reflexivity.
Qed.

End HeaderFacts.

(** ** Where the round trip holds, and where the last frame is lost *)

Module InOrderFacts.
Import SliceFacts PipelineFacts HeaderFacts.

(** A write that starts inside the file. *)
Lemma WriteAt_inside (file b : list Z) (off : Z) :
  0 ≤ off → b ≠ [] → off ≤ Slice.len file →
  File.WriteAt file b off =
    take (Z.to_nat off) file ++ b ++ drop (Z.to_nat off + length b) file.
Proof.
  intros Hoff Hb Hin. unfold File.WriteAt.
  rewrite (proj2 (Z.ltb_ge off 0)) by done.
  destruct (Z.eqb_spec (Slice.len b) 0) as [Hz|_].
  { destruct b; [done|]. unfold Slice.len in Hz. simpl in Hz. lia. }
  cbn [orb]. unfold Slice.len in Hin.
  replace (Z.to_nat off - length file)%nat with 0%nat by lia.
  cbn [replicate]. by rewrite app_nil_r.
Qed.

Section in_order.
Variable file : list Z.
Let L := Slice.len file.
Hypothesis long_enough : processedBytesPerFrame - 8 ≤ L.
Hypothesis fits_int64 : L < 2 ^ 63.

(** The write offset of frame [m + 1], and the file once the frames up to
    [m] are written: the bytes of the original up to that offset, zero after. *)
Let off (m : Z) : Z := 12142 + m * 12150.
Let written (m : Z) : list Z :=
  take (Z.to_nat (off m)) file ++ replicate (Z.to_nat (L - off m)) 0.
Let state (m : Z) : Writer.writer :=
  Writer.Writer (written m) (Z.rem (L - 12142) 12150) L ∅ [] 0 (m + 1) (off m).

Lemma in_order_first_frame (c0 : list Z) :
  c0 = take (Z.to_nat 12150) (Encode.with_header file) →
  Writer.first_frame Writer.init (pad c0) = Ok (state 0).
Proof.
  intros Hc0. pose proof (len_nonneg file) as Hnn. fold L in Hnn.
  change processedBytesPerFrame with 12150 in *.
  assert (length c0 = Z.to_nat 12150) as Hlen0.
  { subst c0. rewrite length_take. unfold Encode.with_header.
    rewrite length_app. unfold L, Slice.len in *. simpl length. lia. }
  assert (pad c0 = c0) as ->.
  { unfold pad, Slice.len. rewrite Hlen0.
    change (Z.to_nat (processedBytesPerFrame - Z.of_nat (Z.to_nat 12150))) with 0%nat.
    simpl. apply app_nil_r. }
  assert (c0 = PutUint64 L ++ take (Z.to_nat 12142) file) as Hsplit.
  { subst c0. unfold Encode.with_header. fold L. rewrite take_app.
    rewrite (take_ge (PutUint64 L)) by (simpl; lia).
    do 2 f_equal. }
  unfold Writer.first_frame, Writer.header_length.
  rewrite slice_Ok by (unfold Slice.len; lia). cbn [bind].
  assert (take (Z.to_nat (8 - 0)) (drop (Z.to_nat 0) c0) = PutUint64 L) as ->.
  { rewrite Hsplit. change (Z.to_nat 0) with 0%nat. rewrite drop_0.
    by rewrite (take_app_length' (PutUint64 L)). }
  rewrite Uint64_PutUint64 by lia. cbn [bind].
  rewrite wrap_int64_small by lia.
  unfold File.Truncate. rewrite (proj2 (Z.ltb_ge L 0)) by lia. cbn [bind].
  change processedBytesPerFrame with 12150.
  rewrite (proj2 (Z.ltb_ge L (12150 - 8))) by lia.
  unfold Slice.slice_from. rewrite slice_Ok by (unfold Slice.len; lia). cbn [bind].
  unfold state, Writer.init. cbn [Writer.file Writer.buffer Writer.keys Writer.keysLen
    Writer.wantedID Writer.nextWriteByte].
  change (processedBytesPerFrame - 8) with 12142. change (off 0) with 12142.
  change (0 + 1) with 1. f_equal.
  assert (take (Z.to_nat (Slice.len c0 - 8)) (drop (Z.to_nat 8) c0)
          = take (Z.to_nat 12142) file) as ->.
  { rewrite Hsplit at 2. rewrite (drop_app_length' (PutUint64 L)) by done.
    apply take_ge. rewrite length_take. unfold Slice.len. lia. }
  rewrite resize_nil.
  rewrite WriteAt_inside.
  - unfold written. change (off 0) with 12142. change (Z.to_nat 0) with 0%nat.
    rewrite take_0, app_nil_l, Nat.add_0_l, drop_replicate, length_take.
    f_equal. do 2 f_equal. unfold L, Slice.len in *. lia.
  - lia.
  - intros Hnil.
    assert (length (take (Z.to_nat 12142) file) = 0%nat) as Hl by (by rewrite Hnil).
    rewrite length_take in Hl. unfold L, Slice.len in *. lia.
  - unfold Slice.len. rewrite length_replicate. lia.
Qed.

Lemma in_order_step (m : Z) (c : list Z) :
  0 ≤ m → (m + 1) * 12150 < L + 8 → L + 8 ≠ (m + 2) * 12150 →
  c = take (Z.to_nat 12150) (drop (Z.to_nat ((m + 1) * 12150)) (Encode.with_header file)) →
  Writer.step (state m) (FrameData (m + 1) (pad c)) = Ok (state (m + 1)).
Proof.
  intros Hm Hexists Hne Hc. pose proof (len_nonneg file) as Hnn. fold L in Hnn.
  change processedBytesPerFrame with 12150 in *.
  assert (c = take (Z.to_nat 12150) (drop (Z.to_nat (off m)) file)) as Hc'.
  { rewrite Hc. unfold Encode.with_header.
    assert (length (PutUint64 (Slice.len file)) = 8%nat) as Hhdr by reflexivity.
    rewrite drop_app_ge; rewrite Hhdr; [|lia].
    do 2 f_equal. unfold off. lia. }
  assert (off m < L) as Hoff by (unfold off; lia).
  assert (Slice.len c = Z.min 12150 (L - off m)) as Hlenc.
  { rewrite Hc'. unfold Slice.len. rewrite length_take, length_drop.
    unfold L, Slice.len, off in *. lia. }
  assert ((if m + 1 =? Writer.ceil_div (L + 8) 12150 - 1
           then Slice.slice_to (pad c) (Z.rem (L - 12142) 12150)
           else Ok (pad c)) = Ok c) as Hvalue.
  { destruct (Z.eqb_spec (m + 1) (Writer.ceil_div (L + 8) 12150 - 1)) as [Hlast|Hmid];
      unfold Writer.ceil_div in *.
    - assert (L - off m < 12150 ∧ Z.rem (L - 12142) 12150 = L - off m) as [Hshort Hrem].
      { assert (L + 8 ≤ (m + 2) * 12150) as Hceil.
        { clear -Hlast. Z.div_mod_to_equations. lia. }
        unfold off in *. split; [lia|].
        rewrite Z.rem_mod_nonneg by lia.
        destruct (div_mod_unique_pos (L - 12142) 12150 m (L - (12142 + m * 12150)))
          as [_ ->]; lia. }
      unfold Slice.slice_to. rewrite slice_Ok.
      + rewrite Hrem. f_equal. change (Z.to_nat 0) with 0%nat. rewrite drop_0.
        unfold pad. rewrite Z.sub_0_r. apply take_app_length'.
        unfold Slice.len in Hlenc. lia.
      + done.
      + lia.
      + unfold pad. rewrite len_app. unfold Slice.len at 2.
        rewrite length_replicate. change processedBytesPerFrame with 12150. lia.
    - f_equal. unfold pad. change processedBytesPerFrame with 12150.
      assert (Slice.len c = 12150) as ->.
      { rewrite Hlenc. unfold off in *. Z.div_mod_to_equations. lia. }
      change (Z.to_nat (12150 - 12150)) with 0%nat. apply app_nil_r. }
  unfold Writer.step, state.
  cbn [frameID value Writer.file Writer.buffer Writer.keys Writer.keysLen Writer.wantedID
       Writer.nextWriteByte Writer.lengthInt Writer.lastFrameOffset].
  rewrite Z.eqb_refl. change processedBytesPerFrame with 12150.
  rewrite Hvalue. cbn [bind]. change (0 =? 0) with true. cbv iota.
  do 2 f_equal; [|unfold off; lia].
  assert (length (take (Z.to_nat (off m)) file) = Z.to_nat (off m)) as Hlt.
  { rewrite length_take. unfold L, Slice.len in *. lia. }
  rewrite WriteAt_inside.
  - unfold written.
    rewrite (take_app_length' (take (Z.to_nat (off m)) file)) by done.
    rewrite drop_app_add' by done. rewrite drop_replicate.
    rewrite (assoc_L (++)). f_equal.
    + rewrite Hc', take_take_drop. f_equal. unfold off. lia.
    + f_equal. unfold Slice.len in Hlenc. unfold off in *. lia.
  - unfold off. lia.
  - intros Hnil. rewrite Hnil in Hlenc. unfold Slice.len in Hlenc. simpl in Hlenc. lia.
  - unfold written, Slice.len. rewrite length_app, Hlt, length_replicate. lia.
Qed.

(** With the frames arriving in index order, the writer rebuilds a file of
    at least [processedBytesPerFrame - 8] bytes whose last frame is not
    exactly full. *)
Lemma in_order_run (chunks : list (list Z)) :
  (L + 8) `mod` processedBytesPerFrame ≠ 0 →
  Encode.chunk (Encode.with_header file) = Ok chunks →
  ∃ w, Writer.run (in_order (Encode.number (pad <$> chunks))) = Ok w
     ∧ Writer.file w = file.
Proof.
  intros last_not_full Hchunk. pose proof (len_nonneg file) as Hnn. fold L in Hnn.
  change processedBytesPerFrame with 12150 in *.
  destruct (chunk_spec (Encode.with_header file)) as (chunks' & Hrun & Hcount & Hpieces).
  rewrite Hchunk in Hrun. injection Hrun as <-.
  assert (Slice.len (Encode.with_header file) = L + 8) as Hstream.
  { unfold Encode.with_header. rewrite len_app. unfold L. 
    change (Slice.len (PutUint64 (Slice.len file))) with 8. lia. }
  rewrite Hstream in Hcount, Hpieces. change processedBytesPerFrame with 12150 in Hcount.
  destruct chunks as [|c0 cs].
  { unfold Slice.len, Writer.ceil_div in Hcount. simpl in Hcount.
    exfalso. Z.div_mod_to_equations. lia. }
  destruct (Hpieces 0%nat c0 eq_refl) as [Hc0 _].
  change (Z.to_nat (Z.of_nat 0 * 12150)) with 0%nat in Hc0. rewrite drop_0 in Hc0.
  unfold Writer.run, in_order, Encode.number, id. cbn [fmap list_fmap imap Writer.await_first frameID value].
  change (Z.of_nat 0 =? 0) with true. cbn [negb].
  rewrite (in_order_first_frame c0 Hc0). cbn [bind fst snd].
  loop_invariant (λ (n : nat) (s : Writer.writer), s = state (Z.of_nat n))
    as (w & Hw & ->); [| |exists (state (Z.of_nat (length (imap ((λ id frame, FrameData (Z.of_nat id) frame) ∘ S) (list_fmap _ _ pad cs))))); split; [exact Hw|]].
  - done.
  - intros n f s Hf ->. rewrite list_lookup_imap, list_lookup_fmap in Hf.
    destruct (cs !! n) as [c|] eqn:Hcn; [|done]. simpl in Hf. injection Hf as <-.
    destruct (Hpieces (S n) c Hcn) as [Hc Hn].
    exists (state (Z.of_nat (S n))). split; [|done].
    replace (Z.of_nat (S n)) with (Z.of_nat n + 1) in * by lia.
    apply in_order_step; [lia|lia| |exact Hc].
    intros Heq. apply last_not_full. rewrite Heq. apply Z.mod_mul. lia.
  - rewrite length_imap, length_fmap. unfold state. cbn [Writer.file]. unfold written.
    assert (L ≤ off (Z.of_nat (length cs))) as Hend.
    { unfold off. unfold Slice.len, Writer.ceil_div in Hcount. simpl length in Hcount.
      Z.div_mod_to_equations. lia. }
    rewrite take_ge by (unfold L, Slice.len in *; lia).
    replace (Z.to_nat (L - off (Z.of_nat (length cs)))) with 0%nat by lia.
    apply app_nil_r.
Qed.

(** The last frame when it is exactly full: [lastFrameOffset] is 0, the
    frame is cut down to nothing and the file stays as it was. *)
Lemma in_order_step_full_last (m : Z) (c : list Z) :
  0 ≤ m → L + 8 = (m + 2) * 12150 →
  Writer.step (state m) (FrameData (m + 1) c) =
    Ok (Writer.Writer (written m) (Z.rem (L - 12142) 12150) L ∅ [] 0 (m + 2) (off (m + 1))).
Proof.
  intros Hm Hfull. unfold Writer.step, state.
  cbn [frameID value Writer.file Writer.buffer Writer.keys Writer.keysLen Writer.wantedID
       Writer.nextWriteByte Writer.lengthInt Writer.lastFrameOffset].
  rewrite Z.eqb_refl. change processedBytesPerFrame with 12150.
  assert (Writer.ceil_div (L + 8) 12150 - 1 = m + 1) as ->.
  { rewrite Hfull. unfold Writer.ceil_div. Z.div_mod_to_equations. lia. }
  rewrite Z.eqb_refl.
  assert (Z.rem (L - 12142) 12150 = 0) as Hrem.
  { replace (L - 12142) with ((m + 1) * 12150) by lia.
    rewrite Z.rem_mod_nonneg by lia. apply Z.mod_mul. lia. }
  rewrite Hrem. unfold Slice.slice_to.
  rewrite slice_Ok by (pose proof (len_nonneg c); lia).
  cbn [bind]. change (0 =? 0) with true. cbv iota.
  change (Z.to_nat (0 - 0)) with 0%nat. rewrite take_0.
  unfold File.WriteAt at 1. rewrite orb_true_r.
  do 2 f_equal; unfold off; lia.
Qed.

(** With the frames arriving in index order and the last one exactly full,
    the writer leaves the bytes of the last frame zero. *)
Lemma in_order_run_full_last (k : Z) (chunks : list (list Z)) :
  2 ≤ k → L + 8 = k * 12150 →
  Encode.chunk (Encode.with_header file) = Ok chunks →
  ∃ w, Writer.run (in_order (Encode.number (pad <$> chunks))) = Ok w
     ∧ Writer.file w = written (k - 2).
Proof.
  intros Hk Hfull Hchunk. pose proof (len_nonneg file) as Hnn. fold L in Hnn.
  change processedBytesPerFrame with 12150 in *.
  destruct (chunk_spec (Encode.with_header file)) as (chunks' & Hrun & Hcount & Hpieces).
  rewrite Hchunk in Hrun. injection Hrun as <-.
  assert (Slice.len (Encode.with_header file) = L + 8) as Hstream.
  { unfold Encode.with_header. rewrite len_app. unfold L.
    change (Slice.len (PutUint64 (Slice.len file))) with 8. lia. }
  rewrite Hstream in Hcount, Hpieces. change processedBytesPerFrame with 12150 in Hcount.
  assert (Slice.len chunks = k) as Hcount'.
  { rewrite Hcount, Hfull. unfold Writer.ceil_div. Z.div_mod_to_equations. lia. }
  destruct chunks as [|c0 cs].
  { unfold Slice.len in Hcount'. simpl in Hcount'. lia. }
  assert (Z.of_nat (length cs) = k - 1) as Hcs.
  { unfold Slice.len in Hcount'. simpl length in Hcount'. lia. }
  destruct (Hpieces 0%nat c0 eq_refl) as [Hc0 _].
  change (Z.to_nat (Z.of_nat 0 * 12150)) with 0%nat in Hc0. rewrite drop_0 in Hc0.
  unfold Writer.run, in_order, Encode.number, id.
  cbn [fmap list_fmap imap Writer.await_first frameID value].
  change (Z.of_nat 0 =? 0) with true. cbn [negb].
  rewrite (in_order_first_frame c0 Hc0). cbn [bind fst snd].
  loop_invariant (λ (n : nat) (s : Writer.writer),
      if decide (Z.of_nat n < k - 1) then s = state (Z.of_nat n)
      else Writer.file s = written (k - 2))
    as (w & Hw & Hfinal); [| |exists w; split; [exact Hw|]].
  - rewrite decide_True by lia. done.
  - intros n f s Hf Hs. rewrite list_lookup_imap, list_lookup_fmap in Hf.
    destruct (cs !! n) as [c|] eqn:Hcn; [|done]. simpl in Hf. injection Hf as <-.
    pose proof (lookup_lt_Some _ _ _ Hcn) as Hn.
    rewrite decide_True in Hs by lia. subst s.
    destruct (Hpieces (S n) c Hcn) as [Hc Hlt].
    replace (Z.of_nat (S n)) with (Z.of_nat n + 1) in * by lia.
    destruct (decide (Z.of_nat n + 1 < k - 1)) as [Hmid|Hlast].
    + exists (state (Z.of_nat n + 1)). split; [|done].
      apply in_order_step; [lia|lia|nia|exact Hc].
    + eexists. split.
      * apply in_order_step_full_last; [lia|nia].
      * cbn [Writer.file]. f_equal. lia.
  - rewrite length_imap, length_fmap in Hfinal.
    rewrite decide_False in Hfinal by lia. exact Hfinal.
Qed.

End in_order.

(** X18. For every file of at least [processedBytesPerFrame - 8] bytes
    whose last frame is not exactly full, [decode] gives back what [encode]
    was run on, provided the frames reach the writer in index order (the
    order of the packers does not matter). *)
Lemma decode_encode_in_order (completion : list frameData → list frameData) (file : list Z) :
  (∀ v, v ∈ file → 0 ≤ v < 256) →
  (∀ l, completion l ≡ₚ l) →
  processedBytesPerFrame - 8 ≤ Slice.len file → Slice.len file < 2 ^ 63 →
  (Slice.len file + 8) `mod` processedBytesPerFrame ≠ 0 →
  ∃ video, encode completion file = Ok video
         ∧ decode in_order (codec_lossless video) = Ok file.
Proof.
  intros Hbytes Hperm Hlong Hfits Hlast.
  destruct (decode_encode completion in_order file Hbytes Hperm)
    as (chunks & video & Hchunk & Henc & Hdec).
  destruct (in_order_run file Hlong Hfits chunks Hlast Hchunk) as (w & Hrun & Hfile).
  exists video. split; [exact Henc|]. rewrite Hdec, Hrun. cbn [bind]. by rewrite Hfile.
Qed.

End InOrderFacts.

Module LastFrameFacts.
Import SliceFacts PipelineFacts.

(** A file of [k * processedBytesPerFrame - 8] bytes is cut into exactly
    [k] frames. *)
Lemma chunk_count_exact (k : Z) (file : list Z) :
  1 ≤ k → Slice.len file = k * processedBytesPerFrame - 8 →
  ∃ chunks, Encode.chunk (Encode.with_header file) = Ok chunks
          ∧ Slice.len chunks = k.
Proof.
  intros Hk Hlen.
  destruct (chunk_spec (Encode.with_header file)) as (chunks & Hrun & Hcount & _).
  exists chunks. split; [exact Hrun|]. rewrite Hcount.
  unfold Encode.with_header. rewrite len_app, Hlen.
  change (Slice.len (PutUint64 (k * processedBytesPerFrame - 8))) with 8.
  change processedBytesPerFrame with 12150.
  unfold Writer.ceil_div. Z.div_mod_to_equations. lia.
Qed.

Lemma WriteAt_nothing (file : list Z) (off : Z) : File.WriteAt file [] off = file.
Proof. unfold File.WriteAt. by rewrite orb_true_r. Qed.

(** When the header records [k * processedBytesPerFrame - 8] bytes with
    [k >= 2], the writer cuts the last frame, index [k - 1], down to
    [lastFrameOffset = 0] bytes and leaves the file as it is. *)
Lemma full_last_frame_not_written (k : Z) (s : Writer.writer) (frame : frameData) :
  2 ≤ k →
  Writer.lengthInt s = k * processedBytesPerFrame - 8 →
  Writer.lastFrameOffset s = Z.rem (Writer.lengthInt s - 12142) 12150 →
  Writer.wantedID s = k - 1 → frameID frame = k - 1 → Writer.keysLen s = 0 →
  ∃ s', Writer.step s frame = Ok s' ∧ Writer.file s' = Writer.file s.
Proof.
  change processedBytesPerFrame with 12150.
  intros Hk Hlen Hoff Hw Hid Hkl. unfold Writer.step.
  change processedBytesPerFrame with 12150.
  rewrite Hid, Hw, Z.eqb_refl, Hlen, Hoff, Hlen, Hkl.
  assert (Writer.ceil_div (k * 12150 - 8 + 8) 12150 - 1 = k - 1) as ->.
  { unfold Writer.ceil_div. Z.div_mod_to_equations. lia. }
  assert (Z.rem (k * 12150 - 8 - 12142) 12150 = 0) as ->.
  { rewrite Z.rem_mod_nonneg by lia. Z.div_mod_to_equations. lia. }
  rewrite Z.eqb_refl. unfold Slice.slice_to.
  rewrite slice_Ok by (pose proof (len_nonneg (value frame)); lia).
  cbn [bind Writer.keysLen]. change (0 =? 0) with true. cbv iota.
  eexists. split; [reflexivity|]. cbn [Writer.file]. apply WriteAt_nothing.
Qed.

End LastFrameFacts.

(** * The claims of the specification *)

(** ** Running the examples *)

Lemma list_eqb_eq {A} (eqb : A → A → bool) (l1 l2 : list A) :
  (∀ x y, eqb x y = true → x = y) → list_eqb eqb l1 l2 = true → l1 = l2.
Proof.
  intros Heqb. revert l2. induction l1 as [|x l1 IH]; intros [|y l2]; simpl; try done.
  intros [Hxy Hl]%andb_true_iff. f_equal; auto.
Qed.

Lemma returns_Ok o expected : returns o expected = true → o = Ok expected.
Proof.
  destruct o as [l| |]; simpl; try done.
  intros H. f_equal. apply (list_eqb_eq Z.eqb); [|done]. intros x y. apply Z.eqb_eq.
Qed.

Lemma chunks_are_Ok o expected : chunks_are o expected = true → o = Ok expected.
Proof.
  destruct o as [l| |]; simpl; try done.
  intros H. f_equal. apply (list_eqb_eq (list_eqb Z.eqb)); [|done].
  intros x y. apply list_eqb_eq. intros a b. apply Z.eqb_eq.
Qed.

Lemma bytes_checked (l : list Z) :
  forallb (λ v, (0 <=? v) && (v <? 256)) l = true → ∀ v, v ∈ l → 0 ≤ v < 256.
Proof.
  intros H v Hv. rewrite forallb_forall in H.
  specialize (H v (proj1 (list_elem_of_In _ _) Hv)). lia.
Qed.

Lemma bytes_of_range n b v : 0 ≤ b < 256 → v ∈ bytes_of n b → 0 ≤ v < 256.
Proof. intros Hb [-> _]%elem_of_replicate. done. Qed.

Lemma second_first_perm l : second_first l ≡ₚ l.
Proof. destruct l as [|a [|b l]]; simpl; try done. apply perm_swap. Qed.

Import PipelineFacts.

(** C1. [decode] does not give back every file that [encode] was run on:
    of the ten bytes of [greeting] it restores the first two, the other
    eight read as zero. *)
Theorem decode_encode_greeting :
  ∃ video, encode in_order greeting = Ok video
    ∧ decode in_order (codec_lossless video) = Ok [72; 101; 0; 0; 0; 0; 0; 0; 0; 0].
Proof.
  destruct (decode_encode in_order in_order greeting)
    as (chunks & video & Hchunk & Henc & Hdec).
  { apply bytes_checked. reflexivity. }
  { intros l. reflexivity. }
  assert (Encode.chunk (Encode.with_header greeting) =
          Ok [[0; 0; 0; 0; 0; 0; 0; 10; 72; 101; 108; 108; 111; 32; 114; 111; 99; 113]])
    as Hc by (apply chunks_are_Ok; vm_compute; reflexivity).
  rewrite Hc in Hchunk. injection Hchunk as <-.
  exists video. split; [exact Henc|]. rewrite Hdec.
  apply returns_Ok. vm_compute. reflexivity.
Qed.

(** C2. The file that [decode] writes depends on the order in which the
    unpackers deliver: when frame 1 of a two-frame video reaches the writer
    before frame 0 it is never written, while the emitter of [encode] pipes
    the same video for both orders. *)
Theorem writer_depends_on_arrival_order :
  ∃ video, encode in_order (bytes_of 12242 65) = Ok video
    ∧ encode second_first (bytes_of 12242 65) = Ok video
    ∧ decode in_order (codec_lossless video) = Ok (bytes_of 12242 65)
    ∧ decode second_first (codec_lossless video) =
        Ok (bytes_of 12142 65 ++ bytes_of 100 0).
Proof.
  assert (∀ v, v ∈ bytes_of 12242 65 → 0 ≤ v < 256) as Hbytes.
  { intros v. apply bytes_of_range. lia. }
  assert (Encode.chunk (Encode.with_header (bytes_of 12242 65)) =
          Ok [PutUint64 12242 ++ bytes_of 12142 65; bytes_of 100 65])
    as Hc by (apply chunks_are_Ok; vm_compute; reflexivity).
  destruct (decode_encode in_order in_order (bytes_of 12242 65) Hbytes)
    as (chunks & video & Hchunk & Henc & Hdec); [intros l; reflexivity|].
  destruct (decode_encode in_order second_first (bytes_of 12242 65) Hbytes)
    as (chunks' & video' & Hchunk' & Henc' & Hdec'); [intros l; reflexivity|].
  destruct (encode_order_independent second_first (bytes_of 12242 65) Hbytes)
    as (video'' & Henc'' & Hswap); [apply second_first_perm|].
  rewrite Henc in Henc', Henc''. injection Henc' as <-. injection Henc'' as <-.
  rewrite Hc in Hchunk, Hchunk'. injection Hchunk as <-. injection Hchunk' as <-.
  exists video. split; [exact Henc|]. split; [exact Hswap|]. split.
  - rewrite Hdec. apply returns_Ok. vm_compute. reflexivity.
  - rewrite Hdec'. apply returns_Ok. vm_compute. reflexivity.
Qed.

(** ** C3: the frame packer *)

Import SliceFacts PackFacts.

(** The packer reads [frame[0]] before it looks at the length, so it is not
    defined on an empty segment.  The chunking loop of [encode] never makes
    one: it appends [bytes[i:end]] only for [i < end]. *)
Lemma pack_empty_panics :
  Slice.len (@nil Z) ≤ processedBytesPerFrame
  ∧ Encode.pack [] = Panic
  ∧ Encode.serializer (FrameData 0 []) = Panic.
Proof.
  assert (Encode.pack [] = Panic) as Hpack.
  { unfold Encode.pack.
    change (Encode.pixelDataLen `div` 4) with 2073600.
    replace (Z.to_nat 2073600) with (S (Z.to_nat 2073599)) by lia.
    rewrite dots_unfold. cbn [Encode.cur Encode.i Encode.pixelData].
    rewrite len_make by done. reflexivity. }
  split; [done|]. split; [exact Hpack|].
  unfold Encode.serializer. cbn [value]. by rewrite Hpack.
Qed.

(** C3. For every payload segment of at most [processedBytesPerFrame]
    bytes (a segment holds at least one byte, as every one that the chunking
    loop sends to the packer does) the packer returns a bitmap of
    [frameWidth * frameHeight] RGBA pixels in which channel [c < 3] of every
    pixel of macro-dot [d] is 0xFF if bit [3 * d + c] of the segment
    (most significant bit first) is set and 0x00 if it is clear, the
    macro-dots being numbered row by row over the grid of
    [frameWidth / dotSize] columns; the alpha channel is zero, and so is
    every macro-dot past the end of the segment. *)
Theorem pack_bitmap (frame : list Z) :
  1 ≤ Slice.len frame ≤ processedBytesPerFrame →
  ∃ bitmap, Encode.pack frame = Ok bitmap
    ∧ Slice.len bitmap = frameWidth * frameHeight * 4
    ∧ (∀ x y c, 0 ≤ x < frameWidth → 0 ≤ y < frameHeight → 0 ≤ c < 4 →
         rgba_at bitmap x y c =
           Some (if decide (c < 3)
                 then channel_value (payload_bit frame (3 * dot_of x y + c))
                 else 0))
    ∧ (∀ x y c, 0 ≤ x < frameWidth → 0 ≤ y < frameHeight → 0 ≤ c < 4 →
         8 * Slice.len frame ≤ 3 * dot_of x y →
         rgba_at bitmap x y c = Some 0).
Proof.
  intros Hlen. destruct (pack_spec frame Hlen) as (bitmap & Hpack & Hblen & Hpix).
  exists bitmap. split; [exact Hpack|]. split; [exact Hblen|]. split.
  - intros x y c Hx Hy Hc. apply Hpix. by split.
  - intros x y c Hx Hy Hc Hpast. rewrite Hpix by (by split).
    case_decide; [|done]. rewrite payload_bit_past by lia. done.
Qed.

Lemma pack_bitmap_witness :
  ∃ bitmap, Encode.pack [65] = Ok bitmap
    ∧ Slice.len bitmap = frameWidth * frameHeight * 4
    ∧ (∀ x y c, 0 ≤ x < frameWidth → 0 ≤ y < frameHeight → 0 ≤ c < 4 →
         rgba_at bitmap x y c =
           Some (if decide (c < 3)
                 then channel_value (payload_bit [65] (3 * dot_of x y + c))
                 else 0))
    ∧ (∀ x y c, 0 ≤ x < frameWidth → 0 ≤ y < frameHeight → 0 ≤ c < 4 →
         8 * Slice.len [65] ≤ 3 * dot_of x y →
         rgba_at bitmap x y c = Some 0).
Proof.
  apply (pack_bitmap [65]). vm_compute. split; discriminate.
Defined.

(** ** C4 and C5: the frame unpacker *)

Import UnpackFacts RoundTrip.

Lemma red_at_4_4_len : Slice.len red_at_4_4 = rawBytesPerFrame.
Proof.
  unfold red_at_4_4, Slice.len. rewrite length_insert.
  apply (len_make 6220800). lia.
Qed.

(** C4, as the specification states it, fails: the pixel that is sampled
    lies 3 pixels into its block, not [dotSize / 2 = 4].  A bitmap whose only
    bright channel is at pixel [(4, 4)] unpacks to a first bit of 0. *)
Lemma unpack_misses_pixel_4_4 :
  Slice.len red_at_4_4 = rawBytesPerFrame
  ∧ sampled_bit_at (dotSize `div` 2) red_at_4_4 0 = true
  ∧ ∃ out, Decode.unpack red_at_4_4 = Ok out ∧ payload_bit out 0 = false.
Proof.
  pose proof red_at_4_4_len as Hlen.
  split; [exact Hlen|]. split.
  - unfold sampled_bit_at, rgb_at, red_at_4_4.
    change (0 `div` 3) with 0. change (0 `mod` 240) with 0.
    change (0 `div` 240) with 0. change (0 `mod` 3) with 0.
    change (dotSize `div` 2) with 4.
    change ((0 * 8 + 4) * 5760 + (0 * 8 + 4) * 3 + 0) with (4 * 5760 + 4 * 3).
    rewrite list_lookup_insert_eq; [done|].
    unfold Slice.make. rewrite length_replicate. change rawBytesPerFrame with 6220800. lia.
  - destruct (unpack_spec red_at_4_4 Hlen) as (out & Hrun & _ & _ & Hbits).
    exists out. split; [exact Hrun|]. rewrite Hbits by lia.
    unfold sampled_bit. unfold sampled_bit_at, rgb_at, red_at_4_4.
    change (0 `div` 3) with 0. change (0 `mod` 240) with 0.
    change (0 `div` 240) with 0. change (0 `mod` 3) with 0.
    rewrite list_lookup_insert_ne by lia.
    unfold Slice.make. rewrite lookup_replicate_2; [done|].
    change rawBytesPerFrame with 6220800. lia.
Qed.

(** C4 (amended). For every bitmap of the frame geometry (3 bytes per
    pixel) the unpacker returns [processedBytesPerFrame] bytes whose bit [m]
    (most significant bit first) is the high bit of channel [m mod 3] of one
    pixel of macro-dot [m / 3]: the pixel [dotSize / 2 - 1 = 3] pixels into
    the block of the macro-dot in both directions, the macro-dots taken row
    by row as the packer numbers them. *)
Theorem unpack_samples (bytes : list Z) :
  Slice.len bytes = rawBytesPerFrame →
  ∃ out, Decode.unpack bytes = Ok out
    ∧ Slice.len out = processedBytesPerFrame
    ∧ ∀ m, 0 ≤ m < 8 * processedBytesPerFrame →
        payload_bit out m = sampled_bit_at (dotSize `div` 2 - 1) bytes m.
Proof.
  intros Hlen. destruct (unpack_spec bytes Hlen) as (out & Hrun & Holen & _ & Hbits).
  exists out. split; [exact Hrun|]. split; [exact Holen|]. exact Hbits.
Qed.

Lemma unpack_samples_witness :
  ∃ out, Decode.unpack red_at_4_4 = Ok out
    ∧ Slice.len out = processedBytesPerFrame
    ∧ ∀ m, 0 ≤ m < 8 * processedBytesPerFrame →
        payload_bit out m = sampled_bit_at (dotSize `div` 2 - 1) red_at_4_4 m.
Proof.
  apply (unpack_samples red_at_4_4). apply red_at_4_4_len.
Defined.

(** C5. Two bitmaps of the frame geometry whose channel bytes have the same
    high bit at every sampled pixel unpack to the same payload. *)
Theorem unpack_threshold (bytes1 bytes2 : list Z) :
  Slice.len bytes1 = rawBytesPerFrame →
  Slice.len bytes2 = rawBytesPerFrame →
  (∀ column row c, 0 ≤ column < 240 → 0 ≤ row < 135 → 0 ≤ c < 3 →
     high_bit <$> rgb_at bytes1 (column * 8 + 3) (row * 8 + 3) c =
     high_bit <$> rgb_at bytes2 (column * 8 + 3) (row * 8 + 3) c) →
  Decode.unpack bytes1 = Decode.unpack bytes2.
Proof.
  intros Hlen1 Hlen2 Hsame.
  destruct (unpack_spec bytes1 Hlen1) as (out1 & -> & Holen1 & Hrange1 & Hbits1).
  destruct (unpack_spec bytes2 Hlen2) as (out2 & -> & Holen2 & Hrange2 & Hbits2).
  f_equal. apply payload_bit_ext; try done.
  - unfold Slice.len in *. lia.
  - intros m Hm. rewrite Hbits1, Hbits2 by lia.
    unfold sampled_bit. unfold sampled_bit_at.
    assert (0 ≤ (m `div` 3) `mod` 240 < 240 ∧ 0 ≤ (m `div` 3) `div` 240 < 135
            ∧ 0 ≤ m `mod` 3 < 3) as (Hx & Hy & Hc).
    { Z.div_mod_to_equations. lia. }
    specialize (Hsame _ _ _ Hx Hy Hc).
    destruct (rgb_at bytes1 _ _ _), (rgb_at bytes2 _ _ _); simpl in Hsame; congruence.
Qed.

Lemma unpack_threshold_witness :
  Decode.unpack (bytes_of rawBytesPerFrame 255) = Decode.unpack (bytes_of rawBytesPerFrame 224).
Proof.
  assert (∀ b, Slice.len (bytes_of rawBytesPerFrame b) = rawBytesPerFrame) as Hlen.
  { intros b. unfold bytes_of, Slice.len. rewrite length_replicate.
    change rawBytesPerFrame with 6220800. lia. }
  apply unpack_threshold; [apply Hlen|apply Hlen|].
  intros column row c Hx Hy Hc. unfold rgb_at, bytes_of.
  change rawBytesPerFrame with 6220800.
  rewrite !lookup_replicate_2 by lia. reflexivity.
Defined.

(** ** C6, C7 and C8: the length bookkeeping of the writer *)

(** C6. The reconstructed file does not always have the length of the
    header: on the empty file [decode] panics at [frameValue[8:0]], and when
    the last frame of a three-frame video overtakes the second one it is
    written whole, which makes the file 12142 bytes longer than the 24300
    that the header records. *)
Theorem decode_length_not_exact :
  (∃ video, encode in_order [] = Ok video
     ∧ decode in_order (codec_lossless video) = Panic)
  ∧ (∃ video, encode in_order (bytes_of 24300 65) = Ok video
       ∧ decode third_second (codec_lossless video) =
           Ok (bytes_of 24300 65 ++ bytes_of 12142 0)).
Proof.
  split.
  - destruct (decode_encode in_order in_order [])
      as (chunks & video & Hchunk & Henc & Hdec).
    { intros v Hv. by apply elem_of_nil in Hv. }
    { intros l. reflexivity. }
    assert (Encode.chunk (Encode.with_header []) = Ok [[0; 0; 0; 0; 0; 0; 0; 0]])
      as Hc by (apply chunks_are_Ok; vm_compute; reflexivity).
    rewrite Hc in Hchunk. injection Hchunk as <-.
    exists video. split; [exact Henc|]. rewrite Hdec. vm_compute. reflexivity.
  - destruct (decode_encode in_order third_second (bytes_of 24300 65))
      as (chunks & video & Hchunk & Henc & Hdec).
    { intros v. apply bytes_of_range. lia. }
    { intros l. reflexivity. }
    assert (Encode.chunk (Encode.with_header (bytes_of 24300 65)) =
            Ok [PutUint64 24300 ++ bytes_of 12142 65; bytes_of 12150 65; bytes_of 8 65])
      as Hc by (apply chunks_are_Ok; vm_compute; reflexivity).
    rewrite Hc in Hchunk. injection Hchunk as <-.
    exists video. split; [exact Henc|]. rewrite Hdec.
    apply returns_Ok. vm_compute. reflexivity.
Qed.

(** C7. A file of [2 * 12150 - 8] bytes is cut into exactly two frames, but
    [decode] truncates the second one to [(24292 - 12142) % 12150 = 0] bytes:
    its payload is not written and the second half of the file reads as
    zero. *)
Theorem decode_drops_full_last_frame :
  ∃ chunks video,
    Encode.chunk (Encode.with_header (bytes_of (2 * 12150 - 8) 65)) = Ok chunks
    ∧ length chunks = 2%nat
    ∧ encode in_order (bytes_of (2 * 12150 - 8) 65) = Ok video
    ∧ decode in_order (codec_lossless video) =
        Ok (bytes_of 12142 65 ++ bytes_of 12150 0).
Proof.
  destruct (decode_encode in_order in_order (bytes_of (2 * 12150 - 8) 65))
    as (chunks & video & Hchunk & Henc & Hdec).
  { intros v. apply bytes_of_range. lia. }
  { intros l. reflexivity. }
  assert (Encode.chunk (Encode.with_header (bytes_of (2 * 12150 - 8) 65)) =
          Ok [PutUint64 24292 ++ bytes_of 12142 65; bytes_of 12150 65])
    as Hc by (apply chunks_are_Ok; vm_compute; reflexivity).
  exists chunks, video. split; [exact Hchunk|].
  rewrite Hc in Hchunk. injection Hchunk as <-.
  split; [reflexivity|]. split; [exact Henc|]. rewrite Hdec.
  apply returns_Ok. vm_compute. reflexivity.
Qed.

(** C8. The one-byte file [0x41] is cut into exactly one frame, and
    [decode] panics on it at [frameValue[8:1]]. *)
Theorem decode_single_byte_panics :
  ∃ chunks video,
    Encode.chunk (Encode.with_header [65]) = Ok chunks
    ∧ length chunks = 1%nat
    ∧ encode in_order [65] = Ok video
    ∧ decode in_order (codec_lossless video) = Panic.
Proof.
  destruct (decode_encode in_order in_order [65])
    as (chunks & video & Hchunk & Henc & Hdec).
  { apply bytes_checked. reflexivity. }
  { intros l. reflexivity. }
  assert (Encode.chunk (Encode.with_header [65]) = Ok [[0; 0; 0; 0; 0; 0; 0; 1; 65]])
    as Hc by (apply chunks_are_Ok; vm_compute; reflexivity).
  exists chunks, video. split; [exact Hchunk|].
  rewrite Hc in Hchunk. injection Hchunk as <-.
  split; [reflexivity|]. split; [exact Henc|]. rewrite Hdec. vm_compute. reflexivity.
Qed.

(** ** C9: the reorder buffer *)

Lemma payload_of_spec arrivals f :
  NoDup (frameID <$> arrivals) → f ∈ arrivals →
  value f = payload_of arrivals (frameID f).
Proof.
  intros Hnodup Hf. unfold payload_of.
  destruct (list_find_elem_of (λ g, frameID g = frameID f) arrivals f Hf eq_refl)
    as [[i g] Hfind].
  rewrite Hfind. apply list_find_Some in Hfind as (Hg & Hid & _).
  apply list_elem_of_lookup in Hf as [j Hj].
  assert (i = j) as ->.
  { eapply (NoDup_lookup _ _ _ (frameID f) Hnodup).
    - rewrite list_lookup_fmap, Hg. simpl. by rewrite Hid.
    - by rewrite list_lookup_fmap, Hj. }
  congruence.
Qed.




(** ** C10: the write of frame 0 *)

Lemma Uint64_8 (b : list Z) : length b = 8%nat → ∃ u, Uint64 b = Ok u.
Proof.
  intros Hlen.
  destruct b as [|b0 [|b1 [|b2 [|b3 [|b4 [|b5 [|b6 [|b7 [|? ?]]]]]]]]]; try done.
  eexists. reflexivity.
Qed.

(** C10. For a frame 0 of [processedBytesPerFrame] bytes whose header
    records [lengthInt]: below 8 the short-file branch is taken, its slice
    [frameValue[8:lengthInt]] is out of range and the handling of frame 0
    panics; from 8 on the slice of the branch that is taken is in range. *)
Theorem first_frame_needs_length_8 (s : Writer.writer) (frameValue : list Z) :
  Slice.len frameValue = processedBytesPerFrame →
  ∃ lengthInt, Writer.header_length frameValue = Ok lengthInt
    ∧ (lengthInt < 8 →
         lengthInt < processedBytesPerFrame - 8
         ∧ Slice.slice frameValue 8 lengthInt = Panic
         ∧ Writer.first_frame s frameValue = Panic)
    ∧ (8 ≤ lengthInt →
         ∃ data,
           (if lengthInt <? processedBytesPerFrame - 8
            then Slice.slice frameValue 8 lengthInt
            else Slice.slice_from frameValue 8) = Ok data).
Proof.
  change processedBytesPerFrame with 12150. intros Hlen.
  unfold Writer.first_frame, Writer.header_length.
  rewrite slice_Ok by lia. cbn [bind].
  destruct (Uint64_8 (take (Z.to_nat (8 - 0)) (drop (Z.to_nat 0) frameValue))) as [u ->].
  { rewrite length_take, length_drop. unfold Slice.len in Hlen. lia. }
  cbn [bind]. set (lengthInt := wrap_int64 u).
  exists lengthInt. split; [done|]. split.
  - intros Hlt. split; [lia|]. split; [apply slice_Panic; lia|].
    unfold File.Truncate. destruct (lengthInt <? 0); [reflexivity|].
    cbn [bind]. change processedBytesPerFrame with 12150.
    rewrite (proj2 (Z.ltb_lt lengthInt (12150 - 8))) by lia.
    rewrite slice_Panic by lia. done.
  - intros Hge. destruct (Z.ltb_spec lengthInt (12150 - 8)) as [Hshort|Hlong].
    + rewrite slice_Ok by lia. by eexists.
    + unfold Slice.slice_from. rewrite slice_Ok by lia. by eexists.
Qed.

Lemma first_frame_needs_length_8_witness :
  ∃ lengthInt,
    Writer.header_length (pad [0; 0; 0; 0; 0; 0; 0; 1; 65]) = Ok lengthInt
    ∧ (lengthInt < 8 →
         lengthInt < processedBytesPerFrame - 8
         ∧ Slice.slice (pad [0; 0; 0; 0; 0; 0; 0; 1; 65]) 8 lengthInt = Panic
         ∧ Writer.first_frame Writer.init (pad [0; 0; 0; 0; 0; 0; 0; 1; 65]) = Panic)
    ∧ (8 ≤ lengthInt →
         ∃ data,
           (if lengthInt <? processedBytesPerFrame - 8
            then Slice.slice (pad [0; 0; 0; 0; 0; 0; 0; 1; 65]) 8 lengthInt
            else Slice.slice_from (pad [0; 0; 0; 0; 0; 0; 0; 1; 65]) 8) = Ok data).
Proof.
  apply (first_frame_needs_length_8 Writer.init (pad [0; 0; 0; 0; 0; 0; 0; 1; 65])).
  vm_compute. reflexivity.
Defined.

(** * Further properties of the pipelines *)

(** ** Lists of outcomes *)

Lemma foldM_app {A B} (f : A → B → outcome A) (a : A) (l1 l2 : list B) :
  foldM f a (l1 ++ l2) = let* a' := foldM f a l1 in foldM f a' l2.
Proof.
  revert a. induction l1 as [|x l1 IH]; intros a; simpl; [done|].
  destruct (f a x); simpl; [apply IH|done|done].
Qed.

Lemma mapM_Forall2 {A B} (f : A → outcome B) (l : list A) (r : list B) :
  mapM f l = Ok r ↔ Forall2 (λ x y, f x = Ok y) l r.
Proof.
  revert r. induction l as [|x l IH]; intros r; simpl.
  - split; [intros [= <-]; constructor|by intros ->%Forall2_nil_inv_l].
  - split.
    + intros (y & Hy & (ys & Hys & [= <-])%bind_Ok)%bind_Ok.
      constructor; [done|by apply IH].
    + intros (y & ys & Hy & Hys & ->)%Forall2_cons_inv_l.
      rewrite Hy. cbn [bind]. apply IH in Hys. rewrite Hys. done.
Qed.

Lemma mapM_length {A B} (f : A → outcome B) (l : list A) (r : list B) :
  mapM f l = Ok r → length r = length l.
Proof. intros H%mapM_Forall2. symmetry. by eapply Forall2_length. Qed.

Lemma Forall2_Permutation_l {A B} (R : A → B → Prop) (l1 l2 : list A) (r1 : list B) :
  l1 ≡ₚ l2 → Forall2 R l1 r1 → ∃ r2, Forall2 R l2 r2 ∧ r1 ≡ₚ r2.
Proof.
  intros Hperm. revert r1.
  induction Hperm as [|x l1 l2 _ IH|x y l|l1 l2 l3 _ IH1 _ IH2]; intros r1 H.
  - apply Forall2_nil_inv_l in H as ->. exists []. by split.
  - apply Forall2_cons_inv_l in H as (y & ys & Hy & Hys & ->).
    destruct (IH ys Hys) as (r2 & H2 & Hp). exists (y :: r2). split; [by constructor|].
    by constructor.
  - apply Forall2_cons_inv_l in H as (y' & ys & Hy' & Hys & ->).
    apply Forall2_cons_inv_l in Hys as (x' & zs & Hx' & Hzs & ->).
    exists (x' :: y' :: zs). split; [by repeat constructor|]. apply perm_swap.
  - destruct (IH1 r1 H) as (r2 & H2 & Hp2). destruct (IH2 r2 H2) as (r3 & H3 & Hp3).
    exists r3. split; [done|]. by etrans.
Qed.

(** ** The worker pools *)

Module PoolFacts.
Import Pool.

Lemma held_idle (n : nat) : omap id (replicate n (@None frameData)) = [].
Proof. induction n; simpl; done. Qed.

Lemma held_all_idle (ws : list (option frameData)) :
  Forall (λ w, w = None) ws → omap id ws = [].
Proof. induction 1 as [|w ws -> _ IH]; simpl; done. Qed.

Lemma held_split (ws : list (option frameData)) (w : nat) (o o' : option frameData) :
  ws !! w = Some o →
  omap id ws = omap id (take w ws) ++ option_list o ++ omap id (drop (S w) ws)
  ∧ omap id (<[w := o']> ws) =
      omap id (take w ws) ++ option_list o' ++ omap id (drop (S w) ws).
Proof.
  intros Hw. pose proof (lookup_lt_Some _ _ _ Hw) as Hlt. split.
  - rewrite <- (take_drop_middle ws w o Hw) at 1.
    rewrite omap_app. f_equal. by destruct o.
  - rewrite insert_take_drop by done. rewrite omap_app. f_equal. by destruct o'.
Qed.

Section pool.
Variable work : frameData → outcome frameData.

(** What a run of the pool keeps: the frames are those already handed over
    (as [srcs], with their results in [arrived]), those the workers hold,
    and those still in the queue. *)
Lemma pool_step_frames (frames : list frameData) p p' :
  step work p p' →
  (∃ srcs, Forall2 (λ f f', work f = Ok f') srcs (arrived p)
         ∧ frames ≡ₚ srcs ++ omap id (workers p) ++ queue p) →
  ∃ srcs, Forall2 (λ f f', work f = Ok f') srcs (arrived p')
        ∧ frames ≡ₚ srcs ++ omap id (workers p') ++ queue p'.
Proof.
  intros Hstep (srcs & Hdone & Hperm).
  destruct Hstep as [f q ws out w Hw|f f' q ws out w Hw Hwork]; cbn [queue workers arrived] in *.
  - exists srcs. split; [done|]. rewrite Hperm.
    destruct (held_split ws w None (Some f) Hw) as [-> ->]. simpl.
    apply Permutation_app_head. rewrite <- !(assoc_L (++)).
    apply Permutation_app_head. symmetry. apply Permutation_middle.
  - exists (srcs ++ [f]). split.
    + apply Forall2_app; [done|by constructor].
    + rewrite Hperm. destruct (held_split ws w (Some f) None Hw) as [-> ->]. simpl.
      rewrite <- !(assoc_L (++)). apply Permutation_app_head. simpl.
      symmetry. apply Permutation_middle.
Qed.

Lemma pool_run_frames (frames : list frameData) threads p :
  rtc (step work) (init threads frames) p →
  ∃ srcs, Forall2 (λ f f', work f = Ok f') srcs (arrived p)
        ∧ frames ≡ₚ srcs ++ omap id (workers p) ++ queue p.
Proof.
  intros Hrun. apply rtc_nsteps in Hrun as [n Hrun].
  revert p Hrun. induction n as [|n IH]; intros p Hrun.
  - inversion Hrun; subst.
    exists []. split; [constructor|]. unfold init. cbn [arrived workers queue].
    by rewrite held_idle.
  - apply nsteps_inv_r in Hrun as (p1 & Hrun & Hstep).
    eapply pool_step_frames; [exact Hstep|]. by apply IH.
Qed.

(** With a single worker the frames keep their order. *)
Lemma single_step_frames (frames : list frameData) p p' :
  step work p p' →
  (length (workers p) = 1%nat
   ∧ ∃ srcs, Forall2 (λ f f', work f = Ok f') srcs (arrived p)
           ∧ frames = srcs ++ omap id (workers p) ++ queue p) →
  length (workers p') = 1%nat
  ∧ ∃ srcs, Forall2 (λ f f', work f = Ok f') srcs (arrived p')
          ∧ frames = srcs ++ omap id (workers p') ++ queue p'.
Proof.
  intros Hstep (Hone & srcs & Hdone & Heq).
  destruct Hstep as [f q ws out w Hw|f f' q ws out w Hw Hwork]; cbn [queue workers arrived] in *.
  - split; [by rewrite length_insert|].
    destruct ws as [|w0 [|? ?]]; try done.
    destruct w as [|w]; [|done]. injection Hw as ->.
    exists srcs. split; [done|]. rewrite Heq. done.
  - split; [by rewrite length_insert|].
    destruct ws as [|w0 [|? ?]]; try done.
    destruct w as [|w]; [|done]. injection Hw as ->.
    exists (srcs ++ [f]). split; [apply Forall2_app; [done|by constructor]|].
    rewrite Heq. simpl. by rewrite <- (assoc_L (++)).
Qed.

Lemma single_run_frames (frames : list frameData) p :
  rtc (step work) (init 1 frames) p →
  length (workers p) = 1%nat
  ∧ ∃ srcs, Forall2 (λ f f', work f = Ok f') srcs (arrived p)
          ∧ frames = srcs ++ omap id (workers p) ++ queue p.
Proof.
  intros Hrun. apply rtc_nsteps in Hrun as [n Hrun].
  revert p Hrun. induction n as [|n IH]; intros p Hrun.
  - inversion Hrun; subst.
    split; [done|]. exists []. split; [constructor|done].
  - apply nsteps_inv_r in Hrun as (p1 & Hrun & Hstep).
    eapply single_step_frames; [exact Hstep|]. by apply IH.
Qed.

(** The schedule in which worker 0 takes every frame and hands it over
    before the next one is sent. *)
Lemma in_order_schedule (frames : list frameData) : ∀ results ws out,
  ws !! 0%nat = Some None →
  mapM work frames = Ok results →
  rtc (step work) (Pool frames ws out) (Pool [] ws (out ++ results)).
Proof.
  induction frames as [|f frames IH]; intros results ws out Hidle Hwork.
  - injection Hwork as <-. rewrite app_nil_r. done.
  - apply mapM_Forall2 in Hwork.
    apply Forall2_cons_inv_l in Hwork as (f' & results' & Hf & Hrest & ->).
    apply mapM_Forall2 in Hrest.
    eapply rtc_l; [by apply (receive work f frames ws out 0)|].
    eapply rtc_l.
    { apply (send work f f' frames (<[0%nat := Some f]> ws) out 0); [|done].
      apply list_lookup_insert_eq. by eapply lookup_lt_Some. }
    rewrite list_insert_insert_eq, list_insert_id by done.
    rewrite (cons_middle f' out results'), (assoc_L (++)). by apply IH.
Qed.

End pool.
End PoolFacts.

(** ** The chunker *)

Lemma concat_pieces {A} (k : nat) : ∀ (pieces : list (list A)) (l : list A),
  (∀ (n : nat) c, pieces !! n = Some c → c = take k (drop (n * k) l)) →
  (length l ≤ length pieces * k)%nat →
  concat pieces = l.
Proof.
  induction pieces as [|c pieces IH]; intros l Hpieces Hlen.
  - simpl in Hlen. destruct l; [done|simpl in Hlen; lia].
  - simpl. rewrite (Hpieces 0%nat c eq_refl). simpl. rewrite drop_0.
    rewrite (IH (drop k l)).
    + apply take_drop.
    + intros n c' Hc'. rewrite (Hpieces (S n) c' Hc'), drop_drop. reflexivity.
    + rewrite length_drop. simpl in Hlen. lia.
Qed.

(** X1. The chunking loop of [encode] never fails and loses nothing: the
    pieces, put end to end, are the stream it was given; none of them is
    empty, all but the last hold exactly [processedBytesPerFrame] bytes, and
    there are just as many as it takes to hold the stream. *)
Theorem chunk_partitions_stream (bytes : list Z) :
  ∃ chunks, Encode.chunk bytes = Ok chunks
    ∧ concat chunks = bytes
    ∧ Forall (λ c, 1 ≤ Slice.len c ≤ processedBytesPerFrame) chunks
    ∧ (∀ (n : nat) c, chunks !! n = Some c → (S n < length chunks)%nat →
         Slice.len c = processedBytesPerFrame)
    ∧ (Slice.len chunks - 1) * processedBytesPerFrame < Slice.len bytes
    ∧ Slice.len bytes ≤ Slice.len chunks * processedBytesPerFrame.
Proof.
  destruct (chunk_spec bytes) as (chunks & Hrun & Hcount & Hpieces).
  change processedBytesPerFrame with 12150 in *.
  pose proof (len_nonneg bytes) as Hnn.
  assert ((Slice.len chunks - 1) * 12150 < Slice.len bytes
          ∧ Slice.len bytes ≤ Slice.len chunks * 12150) as Hbounds.
  { rewrite Hcount. unfold Writer.ceil_div. Z.div_mod_to_equations. lia. }
  exists chunks. split; [exact Hrun|]. split; [|split; [|split; [|exact Hbounds]]].
  - apply (concat_pieces (Z.to_nat 12150)).
    + intros n c Hc. destruct (Hpieces n c Hc) as [-> _]. do 2 f_equal. lia.
    + unfold Slice.len in Hbounds. lia.
  - apply Forall_lookup. intros n c Hc. destruct (Hpieces n c Hc) as [-> Hn].
    unfold Slice.len in *. rewrite length_take, length_drop. lia.
  - intros n c Hc Hnext. destruct (Hpieces n c Hc) as [-> Hn].
    unfold Slice.len in *. rewrite length_take, length_drop. lia.
Qed.

(** ** [encode] as a whole *)

Lemma len_with_header (file : list Z) :
  Slice.len (Encode.with_header file) = Slice.len file + 8.
Proof.
  unfold Encode.with_header. rewrite len_app.
  change (Slice.len (PutUint64 (Slice.len file))) with 8. lia.
Qed.

(** X2. [encode] never fails, whatever the file and whatever the order in
    which the packers deliver: it pipes one bitmap of
    [frameWidth * frameHeight] RGBA pixels into the codec for every
    [processedBytesPerFrame] bytes, or part thereof, of the file and its
    8-byte header. *)
Theorem encode_pipes_whole_frames (completion : list frameData → list frameData)
    (file : list Z) :
  (∀ v, v ∈ file → 0 ≤ v < 256) →
  (∀ l, completion l ≡ₚ l) →
  ∃ video n, encode completion file = Ok video
    ∧ Slice.len video = n * (frameWidth * frameHeight * 4)
    ∧ (n - 1) * processedBytesPerFrame < Slice.len file + 8
    ∧ Slice.len file + 8 ≤ n * processedBytesPerFrame.
Proof.
  intros Hbytes Hperm.
  destruct (encode_spec completion file Hbytes Hperm)
    as (chunks & bitmaps & Hchunk & Hpack & Hlens & _ & Henc).
  destruct (chunk_spec (Encode.with_header file)) as (chunks' & Hrun & Hcount & _).
  rewrite Hchunk in Hrun. injection Hrun as <-.
  exists (concat bitmaps), (Slice.len chunks). split; [exact Henc|].
  rewrite len_with_header in Hcount. pose proof (len_nonneg file).
  change processedBytesPerFrame with 12150 in *.
  split; [|rewrite Hcount; unfold Writer.ceil_div; Z.div_mod_to_equations; lia].
  rewrite (len_concat_frames _ _ Hlens).
  apply mapM_length in Hpack. unfold Slice.len. rewrite Hpack.
  change (frameWidth * frameHeight * 4) with 8294400. lia.
Qed.

Lemma encode_pipes_whole_frames_witness :
  ∃ video n, encode second_first greeting = Ok video
    ∧ Slice.len video = n * (frameWidth * frameHeight * 4)
    ∧ (n - 1) * processedBytesPerFrame < Slice.len greeting + 8
    ∧ Slice.len greeting + 8 ≤ n * processedBytesPerFrame.
Proof.
  apply (encode_pipes_whole_frames second_first greeting).
  - apply bytes_checked. reflexivity.
  - apply second_first_perm.
Defined.

(** ** The ordered emitter *)

(** X3. Whatever frames (with distinct, non-negative indices) have reached
    the emitter of [encode], and in whatever order, it has written to the
    codec exactly the frames [0 .. wantedID - 1], each once and in index
    order, where [wantedID] is the least index that has not arrived: a
    frame is written as soon as all frames before it are there, and never
    earlier. *)
Theorem emitter_writes_longest_prefix (arrivals : list frameData) :
  NoDup (frameID <$> arrivals) → (∀ f, f ∈ arrivals → 0 ≤ frameID f) →
  ∃ s, Emitter.run arrivals = Ok s
     ∧ 0 ≤ Emitter.wantedID s
     ∧ (∀ j, 0 ≤ j < Emitter.wantedID s → j ∈ frameID <$> arrivals)
     ∧ (Emitter.wantedID s ∉ frameID <$> arrivals)
     ∧ Emitter.stdin s =
         concat (payload_of arrivals <$> seqZ 0 (Emitter.wantedID s)).
Proof.
  intros Hnodup Hnn.
  destruct (EmitterFacts.emitter_run_spec (payload_of arrivals) arrivals Hnodup)
    as (s & Hrun & Hpre & Hgt).
  { intros f Hf. split; [by apply Hnn|by apply payload_of_spec]. }
  destruct Hpre as ((_ & _ & Hdom) & _ & Hseen & _ & Hw & Hall & Hout).
  exists s. split; [exact Hrun|]. split; [exact Hw|]. split; [exact Hall|].
  split; [|exact Hout].
  intros (f & Hid & Hf)%list_elem_of_fmap.
  destruct (Hseen f Hf) as [Hlt|Hbuf]; [lia|].
  rewrite <- Hid in Hbuf. apply Hdom in Hbuf.
  rewrite Forall_forall in Hgt. specialize (Hgt _ Hbuf). lia.
Qed.

Lemma emitter_writes_longest_prefix_witness :
  ∃ s, Emitter.run [FrameData 1 [20]; FrameData 3 [40]; FrameData 0 [10]] = Ok s
     ∧ 0 ≤ Emitter.wantedID s
     ∧ (∀ j, 0 ≤ j < Emitter.wantedID s →
          j ∈ frameID <$> [FrameData 1 [20]; FrameData 3 [40]; FrameData 0 [10]])
     ∧ (Emitter.wantedID s ∉
          frameID <$> [FrameData 1 [20]; FrameData 3 [40]; FrameData 0 [10]])
     ∧ Emitter.stdin s =
         concat (payload_of [FrameData 1 [20]; FrameData 3 [40]; FrameData 0 [10]]
                   <$> seqZ 0 (Emitter.wantedID s)).
Proof.
  apply (emitter_writes_longest_prefix
           [FrameData 1 [20]; FrameData 3 [40]; FrameData 0 [10]]).
  - apply (bool_decide_unpack _). vm_compute. exact I.
  - intros f Hf. apply list_elem_of_In in Hf. simpl in Hf.
    destruct Hf as [<- | [<- | [<- | []]]]; simpl; lia.
Defined.

(** X4. Once every frame of a video has reached the emitter, in whatever
    order, the codec has received the bitmaps in index order, and the
    reorder buffer is empty again: no frame is left behind, none is written
    twice. *)
Theorem emitter_flushes_every_frame (bitmaps : list (list Z)) (arrivals : list frameData) :
  arrivals ≡ₚ Encode.number bitmaps →
  ∃ e, Emitter.run arrivals = Ok e
     ∧ Emitter.stdin e = concat bitmaps
     ∧ Emitter.buffer e = ∅
     ∧ Emitter.keys e = []
     ∧ Emitter.keysLen e = 0
     ∧ Emitter.wantedID e = Slice.len bitmaps.
Proof.
  intros Hperm.
  destruct (emitter_order_independent bitmaps arrivals Hperm)
    as (e & Hrun & Hout & Hkeys & Hwanted).
  assert (frameID <$> Encode.number bitmaps = Z.of_nat <$> seq 0 (length bitmaps)) as Hids.
  { by apply number_ids. }
  destruct (EmitterFacts.emitter_run_spec (payload_of arrivals) arrivals)
    as (e' & Hrun' & ((_ & Hlen & Hdom) & _) & _).
  { rewrite Hperm, Hids. apply NoDup_fmap; [apply _|apply NoDup_seq]. }
  { intros f Hf. split.
    - assert (frameID f ∈ frameID <$> Encode.number bitmaps) as Hin.
      { rewrite <- Hperm. by apply list_elem_of_fmap_2. }
      rewrite Hids in Hin. apply list_elem_of_fmap in Hin as (n & -> & _). lia.
    - apply payload_of_spec; [|done].
      rewrite Hperm, Hids. apply NoDup_fmap; [apply _|apply NoDup_seq]. }
  rewrite Hrun in Hrun'. injection Hrun' as <-.
  exists e. split; [exact Hrun|]. split; [exact Hout|].
  split; [|split; [exact Hkeys|split; [|exact Hwanted]]].
  - apply map_empty. intros k. apply eq_None_not_Some. intros Hk%Hdom.
    rewrite Hkeys in Hk. by apply elem_of_nil in Hk.
  - by rewrite Hlen, Hkeys.
Qed.

Lemma emitter_flushes_every_frame_witness :
  ∃ e, Emitter.run [FrameData 2 [3]; FrameData 0 [1]; FrameData 1 [2]] = Ok e
     ∧ Emitter.stdin e = concat [[1]; [2]; [3]]
     ∧ Emitter.buffer e = ∅
     ∧ Emitter.keys e = []
     ∧ Emitter.keysLen e = 0
     ∧ Emitter.wantedID e = Slice.len [[1]; [2]; [3]].
Proof.
  apply (emitter_flushes_every_frame [[1]; [2]; [3]]
           [FrameData 2 [3]; FrameData 0 [1]; FrameData 1 [2]]).
  change (Encode.number [[1]; [2]; [3]])
    with [FrameData 0 [1]; FrameData 1 [2]; FrameData 2 [3]].
  apply (Permutation_cons_app [FrameData 0 [1]; FrameData 1 [2]] []).
  reflexivity.
Defined.

(** ** One frame through the packer, the codec and the unpacker *)

(** X5. A payload segment survives the way through one frame: the unpacker
    of [decode], run on the pixels that the packer of [encode] produced for
    a non-empty segment of at most [processedBytesPerFrame] bytes, returns
    the segment, padded with zero bytes to [processedBytesPerFrame]. *)
Theorem frame_round_trip (frame : list Z) :
  1 ≤ Slice.len frame ≤ processedBytesPerFrame →
  (∀ v, v ∈ frame → 0 ≤ v < 256) →
  ∃ bitmap, Encode.pack frame = Ok bitmap
    ∧ Decode.unpack (codec_lossless bitmap) = Ok (pad frame).
Proof.
  intros Hlen Hbytes.
  destruct (unpack_pack frame Hlen Hbytes) as (bitmap & Hpack & _ & Hunpack).
  exists bitmap. split; [exact Hpack|exact Hunpack].
Qed.

Lemma frame_round_trip_witness :
  ∃ bitmap, Encode.pack greeting = Ok bitmap
    ∧ Decode.unpack (codec_lossless bitmap) = Ok (pad greeting).
Proof.
  apply (frame_round_trip greeting).
  - vm_compute. split; discriminate.
  - apply bytes_checked. reflexivity.
Defined.

(** ** The sorted insertion *)

(** X6. The insertion into [keys] that the program writes out three times
    (binary search, [append], [copy], store) never fails on an ascending
    list and is a sorted insertion: the result holds the old keys and the
    new one, in ascending order; the order is strict when the key is new. *)
Theorem insert_key_sorted (keys : list Z) (frameID : Z) :
  StronglySorted Z.lt keys →
  ∃ keys', Reorder.insert_key keys frameID = Ok keys'
    ∧ keys' ≡ₚ frameID :: keys
    ∧ StronglySorted Z.le keys'
    ∧ (frameID ∉ keys → StronglySorted Z.lt keys').
Proof.
  intros Hsorted.
  destruct (ReorderFacts.insert_key_spec keys frameID Hsorted) as (r & Hrun & Hlo & Hhi).
  exists (take r keys ++ frameID :: drop r keys). split; [exact Hrun|].
  pose proof (take_drop r keys) as Hsplit.
  rewrite <- Hsplit in Hsorted.
  apply StronglySorted_app in Hsorted as (Hcross & Hs1 & Hs2).
  assert (∀ (R : Z → Z → Prop), (∀ x y, x < y → R x y) →
            (∀ x, x ∈ drop r keys → R frameID x) →
            StronglySorted R (take r keys ++ frameID :: drop r keys)) as Hbuild.
  { intros R Hlt Hnew. apply StronglySorted_app. split; [|split].
    - intros x1 x2 Hx1 [->|Hx2]%elem_of_cons.
      + apply Hlt. rewrite Forall_forall in Hlo. by apply Hlo.
      + apply Hlt. by apply Hcross.
    - clear -Hs1 Hlt. induction Hs1 as [|x l _ IH Hx]; constructor; [done|].
      eapply Forall_impl; [exact Hx|]. intros y Hy. by apply Hlt.
    - apply StronglySorted_cons. split; [by apply Forall_forall|].
      clear -Hs2 Hlt. induction Hs2 as [|x l _ IH Hx]; constructor; [done|].
      eapply Forall_impl; [exact Hx|]. intros y Hy. by apply Hlt. }
  split; [|split].
  - etrans; [symmetry; apply Permutation_middle|]. by rewrite Hsplit.
  - apply Hbuild; [intros; lia|]. intros x Hx.
    rewrite Forall_forall in Hhi. by apply Hhi.
  - intros Hfresh. apply Hbuild; [done|]. intros x Hx.
    rewrite Forall_forall in Hhi. specialize (Hhi x Hx).
    assert (x ≠ frameID); [|lia].
    intros ->. apply Hfresh. rewrite <- Hsplit. apply elem_of_app. by right.
Qed.

Lemma insert_key_sorted_witness :
  ∃ keys', Reorder.insert_key [2; 5; 9] 7 = Ok keys'
    ∧ keys' ≡ₚ 7 :: [2; 5; 9]
    ∧ StronglySorted Z.le keys'
    ∧ (7 ∉ [2; 5; 9] → StronglySorted Z.lt keys').
Proof.
  apply (insert_key_sorted [2; 5; 9] 7).
  repeat (constructor; [|repeat (constructor; [lia|]); constructor]).
  constructor.
Defined.

(** ** The reader and the unpackers of [decode] *)

Lemma read_frames_spec : ∀ fuel frameCount (stream : list Z),
  fuel = Z.to_nat (Slice.len stream `div` rawBytesPerFrame) →
  frameID <$> Decode.read_frames fuel frameCount stream = seqZ frameCount (Z.of_nat fuel)
  ∧ Forall (λ f, Slice.len (value f) = rawBytesPerFrame)
           (Decode.read_frames fuel frameCount stream)
  ∧ concat (value <$> Decode.read_frames fuel frameCount stream) =
      take (fuel * Z.to_nat rawBytesPerFrame) stream.
Proof.
  change rawBytesPerFrame with 6220800.
  induction fuel as [|fuel IH]; intros frameCount stream Hfuel.
  - simpl. split; [done|]. split; [constructor|done].
  - pose proof (len_nonneg stream) as Hnn.
    assert (6220800 ≤ Slice.len stream) as Hfull.
    { destruct (Z.le_gt_cases 6220800 (Slice.len stream)) as [|Hshort]; [done|].
      rewrite Z.div_small in Hfuel by lia. done. }
    cbn [Decode.read_frames]. change rawBytesPerFrame with 6220800.
    rewrite (proj2 (Z.leb_le _ _)) by done.
    destruct (IH (frameCount + 1) (drop (Z.to_nat 6220800) stream)) as (Hids & Hlens & Hcat).
    { unfold Slice.len in *. rewrite length_drop.
      replace (Z.of_nat (length stream - Z.to_nat 6220800))
        with (Z.of_nat (length stream) - 6220800) by lia.
      assert ((Z.of_nat (length stream) - 6220800) `div` 6220800 =
              Z.of_nat (length stream) `div` 6220800 - 1) as ->
        by (Z.div_mod_to_equations; lia).
      lia. }
    cbn [fmap list_fmap concat frameID value]. split; [|split].
    + change (list_fmap frameData Z frameID) with (fmap (M:=list) frameID).
      rewrite Hids. replace (Z.of_nat (S fuel)) with (1 + Z.of_nat fuel) by lia.
      rewrite (seqZ_app frameCount 1) by lia. done.
    + constructor; [|done]. cbn [value]. unfold Slice.len in *.
      rewrite length_take. lia.
    + change (list_fmap frameData (list Z) value) with (fmap (M:=list) value).
      rewrite Hcat, take_take_drop. f_equal.
Qed.

Lemma reader_cuts_stream_aux (stream : list Z) :
  frameID <$> Decode.reader stream = seqZ 0 (Slice.len stream `div` rawBytesPerFrame)
  ∧ Forall (λ f, Slice.len (value f) = rawBytesPerFrame) (Decode.reader stream).
Proof.
  destruct (read_frames_spec (Z.to_nat (Slice.len stream `div` rawBytesPerFrame)) 0 stream
              eq_refl) as (Hids & Hlens & _).
  pose proof (len_nonneg stream) as Hnn.
  assert (0 ≤ Slice.len stream `div` rawBytesPerFrame) as Hq.
  { apply Z.div_pos; [done|]. by change rawBytesPerFrame with 6220800. }
  unfold Decode.reader. split; [|exact Hlens].
  rewrite Hids. by rewrite Z2Nat.id.
Qed.

Module ReaderFacts.
Import Reader.

Lemma read_frames_short fuel c (stream : list Z) :
  Slice.len stream < rawBytesPerFrame → Decode.read_frames fuel c stream = [].
Proof.
  intros Hshort. destruct fuel; [done|]. cbn [Decode.read_frames].
  by rewrite (proj2 (Z.leb_gt _ _)).
Qed.

(** [Read] into the window [dst[lo:]]. *)
Lemma copy_window {A} (dst src : list A) (lo : Z) :
  0 ≤ lo → lo + Slice.len src ≤ Slice.len dst →
  Slice.copy_into dst lo (Slice.len dst) src =
    Ok (take (Z.to_nat lo) dst ++ src ++ drop (Z.to_nat lo + length src) dst).
Proof.
  intros H1 H2. unfold Slice.copy_into.
  pose proof (len_nonneg src).
  rewrite (proj2 (Z.leb_le 0 lo)), (proj2 (Z.leb_le lo _)),
    (proj2 (Z.leb_le _ (Slice.len dst))) by lia. simpl.
  unfold Slice.len in *. rewrite Nat.min_r by lia. rewrite (take_ge src) by lia. done.
Qed.

Section loop.

(** The frames that remain to be sent when [stream] is still to come. *)
Let cut (c : Z) (stream : list Z) : list frameData :=
  Decode.read_frames (Z.to_nat (Slice.len stream `div` rawBytesPerFrame)) c stream.

Lemma cut_full c (stream : list Z) :
  rawBytesPerFrame ≤ Slice.len stream →
  cut c stream =
    FrameData c (take (Z.to_nat rawBytesPerFrame) stream)
    :: cut (c + 1) (drop (Z.to_nat rawBytesPerFrame) stream).
Proof.
  intros Hfull. unfold cut. change rawBytesPerFrame with 6220800 in *.
  assert (Slice.len (drop (Z.to_nat 6220800) stream) = Slice.len stream - 6220800) as ->.
  { unfold Slice.len in *. rewrite length_drop. lia. }
  assert ((Slice.len stream - 6220800) `div` 6220800 = Slice.len stream `div` 6220800 - 1)
    as -> by (Z.div_mod_to_equations; lia).
  assert (1 ≤ Slice.len stream `div` 6220800) as Hq by (Z.div_mod_to_equations; lia).
  replace (Z.to_nat (Slice.len stream `div` 6220800))
    with (S (Z.to_nat (Slice.len stream `div` 6220800 - 1))) by lia.
  cbn [Decode.read_frames]. change rawBytesPerFrame with 6220800.
  by rewrite (proj2 (Z.leb_le _ _)).
Qed.

(** The loop between two reads: [pending] is the part of the current frame
    that is in [buffer] already, and the blocks [bs] are still in the pipe. *)
Lemma loop_spec (br : bool) : ∀ fuel bs s pending,
  Slice.len (buffer s) = rawBytesPerFrame →
  bytesRead s = Slice.len pending →
  take (length pending) (buffer s) = pending →
  Slice.len pending < rawBytesPerFrame →
  (length (concat bs) + length bs < fuel)%nat →
  loop fuel (Pipe bs br) s =
    if br then Panic
    else Ok (sent s ++ cut (frameCount s) (pending ++ concat bs)).
Proof.
  induction fuel as [|fuel IH]; intros bs s pending Hbuf Hread Hpend Hshort Hfuel; [lia|].
  destruct s as [buf c r snt]. cbn [buffer bytesRead frameCount sent] in *. subst r.
  pose proof (len_nonneg pending) as Hnn.
  cbn [loop buffer bytesRead frameCount sent].
  unfold Slice.slice_from. rewrite slice_Ok by lia. cbn [bind].
  assert (Slice.len (take (Z.to_nat (Slice.len buf - Slice.len pending))
                          (drop (Z.to_nat (Slice.len pending)) buf))
          = rawBytesPerFrame - Slice.len pending) as ->.
  { unfold Slice.len in *. rewrite length_take, length_drop. lia. }
  unfold Read. cbn [blocks broken].
  destruct bs as [|b bs].
  - destruct br; [done|]. cbn [concat]. rewrite app_nil_r.
    unfold cut. rewrite read_frames_short by done. by rewrite app_nil_r.
  - set (n := Z.to_nat (Z.min (rawBytesPerFrame - Slice.len pending) (Slice.len b))).
    pose proof (len_nonneg b) as Hbnn. pose proof (len_nonneg (concat bs)) as Hcnn.
    assert (Slice.len (take n b) = Z.of_nat n) as Hdata.
    { unfold Slice.len in *. rewrite length_take. lia. }
    assert (Z.of_nat n ≤ rawBytesPerFrame - Slice.len pending) as Hcap by lia.
    assert (Z.of_nat n ≤ Slice.len b) as Hnb by lia.
    rewrite copy_window by lia. cbn [bind]. rewrite Hdata.
    replace (Z.to_nat (Slice.len pending)) with (length pending)
      by (unfold Slice.len; lia).
    rewrite Hpend.
    cbn [concat] in *. rewrite length_app in Hfuel. cbn [length] in Hfuel.
    destruct (Z.eqb_spec (Slice.len pending + Z.of_nat n) rawBytesPerFrame) as [Hfull|Hpart].
    + (* the frame is complete *)
      rewrite (drop_ge buf) by (unfold Slice.len in *; rewrite length_take; lia).
      rewrite app_nil_r.
      set (rest := if Z.of_nat n <? Slice.len b then drop n b :: bs else bs).
      assert (concat rest = drop n b ++ concat bs) as Hrest.
      { unfold rest. destruct (Z.ltb_spec (Z.of_nat n) (Slice.len b)); [done|].
        rewrite drop_ge by (unfold Slice.len in *; lia). done. }
      assert (length (concat rest) + length rest < fuel)%nat as Hfuel'.
      { rewrite Hrest, length_app, length_drop. unfold rest.
        destruct (Z.ltb_spec (Z.of_nat n) (Slice.len b)); simpl length;
          unfold Slice.len in *; change rawBytesPerFrame with 6220800 in *; lia. }
      rewrite (IH rest _ []); cbn [buffer bytesRead frameCount sent].
      * destruct br; [done|]. f_equal. rewrite <- (assoc_L (++)). f_equal.
        rewrite Hrest. cbn [app].
        rewrite (cut_full c) by (rewrite !len_app; lia).
        assert (pending ++ b ++ concat bs =
                (pending ++ take n b) ++ drop n b ++ concat bs) as ->.
        { rewrite <- (assoc_L (++)), (assoc_L (++) (take n b)), take_drop. done. }
        assert (Z.to_nat rawBytesPerFrame = length (pending ++ take n b)) as ->.
        { rewrite length_app, length_take. unfold Slice.len in *. lia. }
        rewrite take_app_length, drop_app_length. done.
      * rewrite len_app, Hdata. lia.
      * done.
      * done.
      * by change rawBytesPerFrame with 6220800.
      * exact Hfuel'.
    + (* the block was too short to complete the frame *)
      assert (n = length b) as Hn by (unfold Slice.len in *; lia).
      rewrite (proj2 (Z.ltb_ge _ _)) by lia.
      rewrite Hn, take_ge by lia.
      rewrite (IH bs _ (pending ++ b)); cbn [buffer bytesRead frameCount sent].
      * by rewrite <- (assoc_L (++)).
      * rewrite !len_app. unfold Slice.len in *. rewrite length_drop. lia.
      * rewrite len_app. unfold Slice.len. lia.
      * rewrite (assoc_L (++)). apply take_app_length.
      * rewrite len_app. unfold Slice.len in *. lia.
      * lia.
Qed.

Lemma run_spec (p : pipe) (fuel : nat) :
  (length (concat (blocks p)) + length (blocks p) < fuel)%nat →
  run fuel p =
    if broken p then Panic else Ok (Decode.reader (concat (blocks p))).
Proof.
  intros Hfuel. destruct p as [bs br]. cbn [blocks broken] in *.
  unfold run.
  rewrite (loop_spec br fuel bs init []); cbn [buffer bytesRead frameCount sent init].
  - done.
  - apply len_make. done.
  - done.
  - apply take_0.
  - done.
  - exact Hfuel.
Qed.

End loop.
End ReaderFacts.

(** X7. The read loop of the reader goroutine of [decode]: however the pipe
    hands the stream of the codec over (in blocks of any sizes, of which the
    loop takes what fits into the rest of its buffer), the loop ends, and
    the frames it has sent are the consecutive pieces of [rawBytesPerFrame]
    bytes of the stream, numbered from 0; the bytes of an incomplete last
    frame are dropped without an error.  When the stream ends with an error
    other than the end of file, the loop panics. *)
Theorem reader_cuts_stream (p : Reader.pipe) :
  ∃ frames,
    (∃ fuel0, ∀ fuel, (fuel0 ≤ fuel)%nat →
       Reader.run fuel p = if Reader.broken p then Panic else Ok frames)
    ∧ frames = Decode.reader (concat (Reader.blocks p))
    ∧ frameID <$> frames =
        seqZ 0 (Slice.len (concat (Reader.blocks p)) `div` rawBytesPerFrame)
    ∧ Forall (λ f, Slice.len (value f) = rawBytesPerFrame) frames
    ∧ concat (value <$> frames) =
        take (Z.to_nat (Slice.len (concat (Reader.blocks p)) `div` rawBytesPerFrame
                        * rawBytesPerFrame))
             (concat (Reader.blocks p)).
Proof.
  set (stream := concat (Reader.blocks p)).
  exists (Decode.reader stream). split; [|split; [done|]].
  { exists (S (length stream + length (Reader.blocks p))). intros fuel Hfuel.
    apply ReaderFacts.run_spec. fold stream. lia. }
  destruct (read_frames_spec (Z.to_nat (Slice.len stream `div` rawBytesPerFrame)) 0 stream
              eq_refl) as (Hids & Hlens & Hcat).
  pose proof (len_nonneg stream) as Hnn.
  assert (0 ≤ Slice.len stream `div` rawBytesPerFrame) as Hq.
  { apply Z.div_pos; [done|]. by change rawBytesPerFrame with 6220800. }
  unfold Decode.reader. split; [|split; [exact Hlens|]].
  - rewrite Hids. by rewrite Z2Nat.id.
  - rewrite Hcat. f_equal. change rawBytesPerFrame with 6220800 in *. lia.
Qed.

Lemma digester_frames (frames : list frameData) :
  Forall (λ f, Slice.len (value f) = rawBytesPerFrame) frames →
  ∃ digested, mapM Decode.digester frames = Ok digested
    ∧ frameID <$> digested = frameID <$> frames
    ∧ Forall (λ f, Slice.len (value f) = processedBytesPerFrame
                   ∧ ∀ v, v ∈ value f → 0 ≤ v < 256) digested
    ∧ Forall2 (λ f d, Decode.unpack (value f) = Ok (value d)) frames digested.
Proof.
  induction 1 as [|f frames Hf _ IH].
  - exists []. split; [done|]. split; [done|]. split; constructor.
  - destruct IH as (digested & Hrun & Hids & Hgood & Hvals).
    destruct (unpack_spec (value f) Hf) as (out & Hout & Hlen & Hrange & _).
    exists (FrameData (frameID f) out :: digested).
    cbn [mapM]. unfold Decode.digester at 1. rewrite Hout. cbn [bind].
    rewrite Hrun. cbn [bind]. split; [done|]. split; [|split].
    + cbn [fmap list_fmap frameID]. f_equal. exact Hids.
    + constructor; [|done]. cbn [value]. split; [exact Hlen|exact Hrange].
    + constructor; [|done]. exact Hout.
Qed.

(** X8. The unpackers of [decode] never fail: whatever bytes the codec
    delivers, every frame that the reader sends is turned into a segment of
    [processedBytesPerFrame] bytes that keeps the index of the frame. *)
Theorem digester_never_fails (stream : list Z) :
  ∃ digested, mapM Decode.digester (Decode.reader stream) = Ok digested
    ∧ frameID <$> digested = seqZ 0 (Slice.len stream `div` rawBytesPerFrame)
    ∧ Forall (λ f, Slice.len (value f) = processedBytesPerFrame
                   ∧ ∀ v, v ∈ value f → 0 ≤ v < 256) digested.
Proof.
  destruct (reader_cuts_stream_aux stream) as (Hids & Hlens).
  destruct (digester_frames _ Hlens) as (digested & Hrun & Hids' & Hgood & _).
  exists digested. split; [exact Hrun|]. split; [|exact Hgood].
  by rewrite Hids', Hids.
Qed.

(** ** The length header *)

Import HeaderFacts.

Lemma header_length_prefix (L : Z) (rest : list Z) :
  0 ≤ L < 2 ^ 63 → Writer.header_length (PutUint64 L ++ rest) = Ok L.
Proof.
  intros HL. unfold Writer.header_length.
  rewrite slice_Ok; [|lia|lia|].
  2:{ rewrite len_app. change (Slice.len (PutUint64 L)) with 8.
      pose proof (len_nonneg rest). lia. }
  cbn [bind]. change (Z.to_nat 0) with 0%nat. rewrite drop_0.
  change (Z.to_nat (8 - 0)) with (length (PutUint64 L)).
  rewrite take_app_length. rewrite Uint64_PutUint64 by lia. cbn [bind].
  by rewrite wrap_int64_small by lia.
Qed.

(** X9. The length that the writer of [decode] reads off frame 0 is the
    length of the file that [encode] was run on: the header that [encode]
    prepends survives chunking and padding. *)
Theorem header_round_trip (file : list Z) :
  Slice.len file < 2 ^ 63 →
  ∃ chunks c0, Encode.chunk (Encode.with_header file) = Ok chunks
    ∧ chunks !! 0%nat = Some c0
    ∧ Writer.header_length (pad c0) = Ok (Slice.len file).
Proof.
  intros Hfits. pose proof (len_nonneg file) as Hnn.
  destruct (chunk_spec (Encode.with_header file)) as (chunks & Hrun & Hcount & Hpieces).
  rewrite len_with_header in Hcount. change processedBytesPerFrame with 12150 in Hcount.
  destruct chunks as [|c0 cs].
  { unfold Slice.len, Writer.ceil_div in Hcount. simpl in Hcount.
    exfalso. Z.div_mod_to_equations. lia. }
  exists (c0 :: cs), c0. split; [exact Hrun|]. split; [done|].
  destruct (Hpieces 0%nat c0 eq_refl) as [Hc0 _].
  change (Z.to_nat (Z.of_nat 0 * 12150)) with 0%nat in Hc0. rewrite drop_0 in Hc0.
  assert (c0 = PutUint64 (Slice.len file) ++ take (Z.to_nat 12142) file) as ->.
  { rewrite Hc0. unfold Encode.with_header. rewrite take_app.
    rewrite (take_ge (PutUint64 _)) by (simpl; lia). do 2 f_equal. }
  unfold pad. rewrite <- (assoc_L (++)). apply header_length_prefix. lia.
Qed.

Lemma header_round_trip_witness :
  ∃ chunks c0, Encode.chunk (Encode.with_header greeting) = Ok chunks
    ∧ chunks !! 0%nat = Some c0
    ∧ Writer.header_length (pad c0) = Ok (Slice.len greeting).
Proof.
  apply (header_round_trip greeting). vm_compute. reflexivity.
Defined.

(** ** Files of a single frame *)

(** X11. What [decode] makes of a file that is shorter than
    [processedBytesPerFrame - 8] bytes, and so fits into frame 0 together
    with its header: below 8 bytes it panics, and from 8 bytes on it writes
    all but the last 8 bytes and leaves these zero, because the write of
    frame 0 ends at [frameValue[lengthInt]] instead of
    [frameValue[8 + lengthInt]].  The orders in which the workers deliver
    play no part. *)
Theorem decode_encode_short_file
    (completion1 completion2 : list frameData → list frameData) (file : list Z) :
  (∀ v, v ∈ file → 0 ≤ v < 256) →
  (∀ l, completion1 l ≡ₚ l) → (∀ l, completion2 l ≡ₚ l) →
  Slice.len file < processedBytesPerFrame - 8 →
  ∃ video, encode completion1 file = Ok video
    ∧ decode completion2 (codec_lossless video) =
        if Slice.len file <? 8 then Panic
        else Ok (take (Z.to_nat (Slice.len file - 8)) file ++ replicate 8 0).
Proof.
  intros Hbytes Hperm1 Hperm2 Hshort. pose proof (len_nonneg file) as Hnn.
  change processedBytesPerFrame with 12150 in *.
  destruct (decode_encode completion1 completion2 file Hbytes Hperm1)
    as (chunks & video & Hchunk & Henc & Hdec).
  exists video. split; [exact Henc|]. rewrite Hdec. clear Hdec Henc.
  destruct (chunk_spec (Encode.with_header file)) as (chunks' & Hrun & Hcount & Hpieces).
  rewrite Hchunk in Hrun. injection Hrun as <-.
  rewrite len_with_header in Hcount. change processedBytesPerFrame with 12150 in Hcount.
  assert (chunks = [Encode.with_header file]) as ->.
  { assert (Slice.len chunks = 1) as Hone.
    { rewrite Hcount. unfold Writer.ceil_div. Z.div_mod_to_equations. lia. }
    destruct chunks as [|c0 [|c1 cs]]; unfold Slice.len in Hone; simpl in Hone; try lia.
    destruct (Hpieces 0%nat c0 eq_refl) as [-> _].
    change (Z.to_nat (Z.of_nat 0 * 12150)) with 0%nat. rewrite drop_0.
    f_equal. apply take_ge. pose proof (len_with_header file) as Hl.
    unfold Slice.len in *. lia. }
  change (Encode.number (pad <$> [Encode.with_header file]))
    with [FrameData 0 (pad (Encode.with_header file))].
  assert (completion2 [FrameData 0 (pad (Encode.with_header file))] =
          [FrameData 0 (pad (Encode.with_header file))]) as ->.
  { apply Permutation_singleton_r, Hperm2. }
  unfold Writer.run. cbn [Writer.await_first frameID value].
  change (negb (0 =? 0)) with false. cbv iota.
  set (frameValue := pad (Encode.with_header file)).
  assert (frameValue = PutUint64 (Slice.len file)
                       ++ file ++ replicate (Z.to_nat (12142 - Slice.len file)) 0)
    as HfV.
  { unfold frameValue, pad. rewrite len_with_header. unfold Encode.with_header.
    rewrite <- (assoc_L (++)). do 3 f_equal. change processedBytesPerFrame with 12150. lia. }
  assert (Slice.len frameValue = 12150) as HlenV.
  { rewrite HfV, !len_app. change (Slice.len (PutUint64 _)) with 8.
    unfold Slice.len at 2. rewrite length_replicate. lia. }
  unfold Writer.first_frame.
  rewrite HfV at 1. rewrite header_length_prefix by lia. cbn [bind].
  unfold File.Truncate. rewrite (proj2 (Z.ltb_ge _ 0)) by lia. cbn [bind].
  change processedBytesPerFrame with 12150.
  rewrite (proj2 (Z.ltb_lt _ (12150 - 8))) by lia.
  destruct (Z.ltb_spec (Slice.len file) 8) as [Htiny|Hbig].
  { rewrite slice_Panic by lia. reflexivity. }
  rewrite slice_Ok by lia. cbn [bind fst snd foldM Writer.file Writer.init].
  f_equal.
  assert (take (Z.to_nat (Slice.len file - 8)) (drop (Z.to_nat 8) frameValue)
          = take (Z.to_nat (Slice.len file - 8)) file) as ->.
  { rewrite HfV. rewrite (drop_app_length' (PutUint64 _)) by done.
    rewrite take_app_le by (unfold Slice.len; lia). done. }
  rewrite resize_nil.
  destruct (decide (Slice.len file = 8)) as [Heq|Hne].
  - rewrite Heq. change (Z.to_nat (8 - 8)) with 0%nat. rewrite take_0.
    rewrite LastFrameFacts.WriteAt_nothing. done.
  - rewrite InOrderFacts.WriteAt_inside.
    + change (Z.to_nat 0) with 0%nat.
      rewrite take_0, app_nil_l, Nat.add_0_l, drop_replicate, length_take.
      do 2 f_equal. unfold Slice.len in *. lia.
    + lia.
    + intros Hnil.
      assert (length (take (Z.to_nat (Slice.len file - 8)) file) = 0%nat) as Hl
        by (by rewrite Hnil).
      rewrite length_take in Hl. unfold Slice.len in *. lia.
    + unfold Slice.len. rewrite length_replicate. lia.
Qed.

Lemma decode_encode_short_file_witness :
  ∃ video, encode in_order greeting = Ok video
    ∧ decode second_first (codec_lossless video) =
        if Slice.len greeting <? 8 then Panic
        else Ok (take (Z.to_nat (Slice.len greeting - 8)) greeting ++ replicate 8 0).
Proof.
  apply (decode_encode_short_file in_order second_first greeting).
  - apply bytes_checked. reflexivity.
  - intros l. reflexivity.
  - apply second_first_perm.
  - vm_compute. reflexivity.
Defined.

(** ** When [decode] fails *)

Module WriterTotal.
Import ReorderFacts WriterFacts Writer.

Lemma enqueue_total s f :
  StronglySorted Z.lt (keys s) →
  ∃ s', enqueue s f = Ok s' ∧ same_header s s'.
Proof.
  intros Hsorted. unfold enqueue.
  destruct (insert_key_spec (keys s) (frameID f) Hsorted) as (r & -> & _).
  cbn [bind]. eexists. split; [done|]. done.
Qed.

Lemma drain_total fuel : ∀ s,
  keysLen s = Slice.len (keys s) → keys s ≠ [] → (length (keys s) ≤ fuel)%nat →
  ∃ s', drain fuel s = Ok s' ∧ same_header s s'.
Proof.
  induction fuel as [|fuel IH]; intros s Hkl Hne Hfuel.
  { destruct (keys s); [done|simpl in Hfuel; lia]. }
  destruct s as [fl lfo li buf ks kl w nwb]. cbn [keys keysLen] in *.
  destruct ks as [|k0 rest]; [done|].
  cbn [drain keys wantedID]. rewrite (index_Ok _ _ k0) by done. cbn [bind].
  destruct (Z.eqb_spec k0 w) as [->|Hk0ne]; [|by eexists].
  cbn [file buffer keys keysLen wantedID nextWriteByte lastFrameOffset lengthInt].
  assert (Slice.slice_from (w :: rest) 1 = Ok rest) as ->.
  { unfold Slice.slice_from. rewrite slice_Ok; unfold Slice.len; simpl length; try lia.
    replace (Z.to_nat (Z.of_nat (S (length rest)) - 1)) with (length rest) by lia.
    change (Z.to_nat 1) with 1%nat. simpl. by rewrite take_ge. }
  cbn [bind]. unfold Slice.len in Hkl. simpl length in Hkl.
  destruct (Z.eqb_spec (kl - 1) 0) as [Hz|Hnz]; [by eexists|].
  destruct (IH (Writer (File.WriteAt fl (Reorder.map_get buf w) nwb) lfo li
                       (delete w buf) rest (kl - 1) (w + 1) (nwb + processedBytesPerFrame)))
    as (s' & Hrun & Hsame); cbn [keys keysLen].
  - unfold Slice.len. lia.
  - intros ->. simpl in Hkl. lia.
  - simpl in Hfuel. lia.
  - exists s'. split; [exact Hrun|exact Hsame].
Qed.

Lemma step_total s f :
  StronglySorted Z.lt (keys s) → keysLen s = Slice.len (keys s) →
  1 ≤ wantedID s →
  lastFrameOffset s = Z.rem (lengthInt s - 12142) 12150 →
  Slice.len (value f) = processedBytesPerFrame →
  ∃ s', step s f = Ok s' ∧ same_header s s'.
Proof.
  intros Hsorted Hkl Hw Hoff Hlen. unfold step.
  change processedBytesPerFrame with 12150 in *.
  destruct (Z.eqb_spec (frameID f) (wantedID s)) as [Hid|Hid];
    [|by apply enqueue_total].
  assert (∃ v, (if frameID f =? ceil_div (lengthInt s + 8) 12150 - 1
                then Slice.slice_to (value f) (lastFrameOffset s)
                else Ok (value f)) = Ok v) as [v ->].
  { destruct (Z.eqb_spec (frameID f) (ceil_div (lengthInt s + 8) 12150 - 1)) as [Hlast|_];
      [|by eexists].
    assert (12142 < lengthInt s) as Hlong.
    { unfold ceil_div in Hlast. Z.div_mod_to_equations. lia. }
    unfold Slice.slice_to. rewrite slice_Ok; [by eexists|done| |].
    - rewrite Hoff, Z.rem_mod_nonneg by lia. Z.div_mod_to_equations. lia.
    - rewrite Hoff, Z.rem_mod_nonneg by lia. Z.div_mod_to_equations. lia. }
  cbn [bind keysLen].
  destruct (Z.eqb_spec (keysLen s) 0) as [Hz|Hnz]; [by eexists|].
  cbn [keys].
  set (s1 := Writer _ _ _ _ _ _ _ _).
  destruct (drain_total (length (keys s)) s1) as (s' & Hrun & Hsame);
    subst s1; cbn [keys keysLen]; [done| |done|].
  - intros Hnil. rewrite Hnil in Hkl. unfold Slice.len in Hkl. simpl in Hkl. lia.
  - exists s'. split; [exact Hrun|exact Hsame].
Qed.

(** The handling of frame 0 on a file system that accepts the length: it
    fails exactly when the header records less than 8 bytes. *)
Lemma first_frame_outcome s frameValue :
  Slice.len frameValue = processedBytesPerFrame →
  ∃ L, header_length frameValue = Ok L
     ∧ (L < 8 → first_frame s frameValue = Panic)
     ∧ (8 ≤ L → ∃ s', first_frame s frameValue = Ok s'
                    ∧ lastFrameOffset s' = Z.rem (lengthInt s' - 12142) 12150).
Proof.
  change processedBytesPerFrame with 12150. intros Hlen.
  unfold first_frame, header_length.
  change processedBytesPerFrame with 12150.
  rewrite slice_Ok by lia. cbn [bind].
  destruct (Uint64_8 (take (Z.to_nat (8 - 0)) (drop (Z.to_nat 0) frameValue))) as [u ->].
  { rewrite length_take, length_drop. unfold Slice.len in Hlen. lia. }
  cbn [bind]. set (L := wrap_int64 u).
  exists L. split; [done|]. split.
  - intros Hlt. unfold File.Truncate. destruct (Z.ltb_spec L 0); [done|]. cbn [bind].
    rewrite (proj2 (Z.ltb_lt L (12150 - 8))) by lia.
    rewrite slice_Panic by lia. done.
  - intros Hge. unfold File.Truncate. rewrite (proj2 (Z.ltb_ge L 0)) by lia. cbn [bind].
    destruct (Z.ltb_spec L (12150 - 8)) as [Hshort|Hlong].
    + rewrite slice_Ok by lia. cbn [bind]. eexists. split; [done|]. done.
    + unfold Slice.slice_from. rewrite slice_Ok by lia. cbn [bind].
      eexists. split; [done|]. done.
Qed.

Lemma await_first_outcome arrivals : ∀ seen s,
  writer_inv seen s → wantedID s = 1 →
  NoDup (frameID <$> seen ++ arrivals) →
  (∀ f, f ∈ arrivals → 0 ≤ frameID f ∧ Slice.len (value f) = processedBytesPerFrame) →
  match await_first arrivals s with
  | Ok first =>
      (∀ f, f ∈ arrivals → frameID f = 0 →
         ∃ L, header_length (value f) = Ok L ∧ 8 ≤ L)
      ∧ (first.2 ≠ [] →
           lastFrameOffset first.1 = Z.rem (lengthInt first.1 - 12142) 12150)
  | Panic =>
      ∃ f L, f ∈ arrivals ∧ frameID f = 0
           ∧ header_length (value f) = Ok L ∧ L < 8
  | OutOfFuel => False
  end.
Proof.
  induction arrivals as [|f arrivals IH]; intros seen s Hinv Hw Hnodup Hgood.
  { simpl. split; [by intros f ?%elem_of_nil|done]. }
  cbn [await_first].
  assert (frameID f ∉ frameID <$> seen) as Hnew.
  { rewrite fmap_app in Hnodup. apply NoDup_app in Hnodup as (_ & Hdisj & _).
    intros Hin. apply (Hdisj _ Hin). simpl. by left. }
  destruct (Hgood f ltac:(by left)) as [Hnn Hlen].
  destruct (Z.eqb_spec (frameID f) 0) as [Hid|Hid]; cbn [negb].
  - destruct (first_frame_outcome s (value f) Hlen) as (L & HL & Hpanic & Hok).
    destruct (Z.lt_ge_cases L 8) as [Hlt|Hge].
    + rewrite Hpanic by done. cbn [bind]. exists f, L. split; [by left|done].
    + destruct (Hok Hge) as (s' & -> & Hoff). cbn [bind fst snd]. split; [|done].
      intros f' Hf' Hid'. exists L. split; [|done].
      apply elem_of_cons in Hf' as [->|Hf']; [done|exfalso].
      rewrite fmap_app in Hnodup. apply NoDup_app in Hnodup as (_ & _ & Hnd).
      simpl in Hnd. apply NoDup_cons in Hnd as [Hnotin _]. apply Hnotin.
      rewrite Hid, <- Hid'. by apply list_elem_of_fmap_2.
  - destruct Hinv as ((Hsorted & Hkl & Hdom) & Hrest).
    destruct (enqueue_total s f Hsorted) as (s1 & Hs1 & _).
    rewrite Hs1. cbn [bind].
    destruct (enqueue_spec seen s f s1) as [Hinv1 Hw1]; [done|done|lia|done|].
    specialize (IH (seen ++ [f]) s1 Hinv1 ltac:(lia)).
    rewrite <- (assoc_L (++)) in IH. specialize (IH Hnodup).
    specialize (IH ltac:(intros f' Hf'; apply Hgood; by right)).
    destruct (await_first arrivals s1) as [[s' rest]| |]; [| |done].
    + destruct IH as [Hhdr Hoff]. split; [|done].
      intros f' [->|Hf']%elem_of_cons Hid'; [done|by apply Hhdr].
    + destruct IH as (f' & L & Hf' & Hrest'). exists f', L. split; [by right|done].
Qed.

(** The outcome of the writer on frames of [processedBytesPerFrame] bytes
    with distinct, non-negative indices. *)
Lemma run_outcome arrivals :
  NoDup (frameID <$> arrivals) →
  (∀ f, f ∈ arrivals → 0 ≤ frameID f ∧ Slice.len (value f) = processedBytesPerFrame) →
  match run arrivals with
  | Ok _ =>
      ∀ f, f ∈ arrivals → frameID f = 0 →
        ∃ L, header_length (value f) = Ok L ∧ 8 ≤ L
  | Panic =>
      ∃ f L, f ∈ arrivals ∧ frameID f = 0
           ∧ header_length (value f) = Ok L ∧ L < 8
  | OutOfFuel => False
  end.
Proof.
  intros Hnodup Hgood. unfold run.
  pose proof (await_first_outcome arrivals [] init init_inv eq_refl Hnodup Hgood) as Hfirst.
  destruct (await_first arrivals init) as [[s1 rest]| |] eqn:Hawait; [|done..].
  cbn [bind fst snd] in *. destruct Hfirst as [Hhdr Hoff].
  assert (∀ f, f ∈ arrivals → 0 ≤ frameID f) as Hnn by (intros f Hf; by apply Hgood).
  destruct (await_first_spec arrivals [] init s1 rest init_inv eq_refl Hnodup Hnn Hawait)
    as (consumed & -> & Hinv1 & Hzero). simpl in Hinv1, Hzero.
  destruct rest as [|f0 rest0]; [done|].
  destruct Hzero as [?|Hzero]; [done|].
  specialize (Hoff ltac:(done)).
  set (rest := f0 :: rest0) in *.
  destruct (foldM_invariant
              (λ n s, writer_inv (consumed ++ take n rest) s
                      ∧ lastFrameOffset s = Z.rem (lengthInt s - 12142) 12150)
              step rest s1) as (s' & -> & _); [| |done].
  - simpl. by rewrite app_nil_r.
  - intros n f s Hf [Hinv Hoffs].
    pose proof Hinv as ((Hsorted & Hkl & _) & _ & _ & Hw & _).
    destruct (Hgood f) as [Hfnn Hflen].
    { apply elem_of_app. right. by eapply list_elem_of_lookup_2. }
    destruct (step_total s f Hsorted Hkl Hw Hoffs Hflen) as (s2 & Hstep & HL & HO).
    exists s2. split; [exact Hstep|]. split; [|by rewrite HO, HL].
    rewrite (take_S_r _ _ f) by done. rewrite (assoc_L (++)).
    eapply writer_step_spec; [exact Hinv| | |exact Hfnn|exact Hstep].
    + rewrite fmap_app, elem_of_app. by left.
    + intros Hin. apply list_elem_of_fmap in Hin as (f' & Heq & Hf').
      apply list_elem_of_lookup in Hf' as [m Hm].
      assert ((consumed ++ rest) !! m = Some f') as Hm'.
      { apply lookup_app_Some in Hm as [Hm|[Hlen Hm]].
        - by apply lookup_app_l_Some.
        - apply lookup_take_Some in Hm as [Hm _].
          rewrite lookup_app_r by done. done. }
      assert ((consumed ++ rest) !! (length consumed + n)%nat = Some f) as Hn'.
      { rewrite lookup_app_r by lia. rewrite <- Hf. f_equal. lia. }
      assert (m = (length consumed + n)%nat) as ->.
      { eapply (NoDup_lookup _ _ _ (frameID f) Hnodup).
        - rewrite list_lookup_fmap, Hm'. simpl. by rewrite Heq.
        - by rewrite list_lookup_fmap, Hn'. }
      apply lookup_app_Some in Hm as [Hm|[_ Hm]].
      * apply lookup_lt_Some in Hm. lia.
      * apply lookup_take_Some in Hm as [_ Hm]. lia.
Qed.

End WriterTotal.

Lemma reader_head (video : list Z) :
  rawBytesPerFrame ≤ Slice.len video →
  ∃ rest, Decode.reader video =
            FrameData 0 (take (Z.to_nat rawBytesPerFrame) video) :: rest.
Proof.
  intros Hfull. unfold Decode.reader.
  assert (1 ≤ Slice.len video `div` rawBytesPerFrame) as Hq.
  { change rawBytesPerFrame with 6220800 in *. Z.div_mod_to_equations. lia. }
  destruct (Z.to_nat (Slice.len video `div` rawBytesPerFrame)) as [|fuel] eqn:Hfuel; [lia|].
  cbn [Decode.read_frames]. rewrite (proj2 (Z.leb_le _ _)) by done. by eexists.
Qed.

Lemma reader_nil (video : list Z) :
  Slice.len video < rawBytesPerFrame → Decode.reader video = [].
Proof.
  intros Hshort. pose proof (len_nonneg video). unfold Decode.reader.
  by rewrite Z.div_small by lia.
Qed.

(** [decode] reduced to its writer: the frames that reach it have distinct
    indices and [processedBytesPerFrame] bytes each, and frame 0, which is
    there as soon as the video holds a frame, carries the announced length. *)
Lemma decode_as_writer (completion : list frameData → list frameData) (video : list Z) :
  (∀ l, completion l ≡ₚ l) →
  ∃ arrivals,
    decode completion video = (let* w := Writer.run arrivals in Ok (Writer.file w))
    ∧ NoDup (frameID <$> arrivals)
    ∧ (∀ f, f ∈ arrivals →
         0 ≤ frameID f ∧ Slice.len (value f) = processedBytesPerFrame)
    ∧ (∀ f, f ∈ arrivals → rawBytesPerFrame ≤ Slice.len video)
    ∧ (rawBytesPerFrame ≤ Slice.len video →
         ∃ d0, d0 ∈ arrivals ∧ frameID d0 = 0
             ∧ announced_length video = Writer.header_length (value d0))
    ∧ (∀ f d0, f ∈ arrivals → d0 ∈ arrivals → frameID f = 0 → frameID d0 = 0 → f = d0).
Proof.
  intros Hperm.
  destruct (reader_cuts_stream_aux video) as (Hids & Hlens).
  destruct (digester_frames _ Hlens) as (digested & Hrun & Hids' & Hgood & Hvals).
  rewrite Hids in Hids'.
  exists (completion digested).
  set (arrivals := completion digested).
  assert (arrivals ≡ₚ digested) as Harr by apply Hperm.
  assert (NoDup (frameID <$> arrivals)) as Hnodup.
  { rewrite Harr, Hids'. apply NoDup_seqZ. }
  split; [unfold decode; by rewrite Hrun|]. split; [exact Hnodup|].
  split; [|split; [|split]].
  - intros f Hf. rewrite Harr in Hf. split.
    + assert (frameID f ∈ frameID <$> digested) as Hin by (by apply list_elem_of_fmap_2).
      rewrite Hids' in Hin. apply elem_of_seqZ in Hin. lia.
    + rewrite Forall_forall in Hgood. by apply Hgood.
  - intros f Hf. destruct (Z.le_gt_cases rawBytesPerFrame (Slice.len video)); [done|].
    rewrite reader_nil in Hrun by lia. injection Hrun as <-.
    rewrite Harr in Hf. by apply elem_of_nil in Hf.
  - intros Hfull. destruct (reader_head video Hfull) as (rest & Hread).
    rewrite Hread in Hvals.
    apply Forall2_cons_inv_l in Hvals as (d0 & ds & Hd0 & _ & ->).
    exists d0. split; [rewrite Harr; by left|]. split.
    + rewrite Hread in Hrun. cbn [mapM] in Hrun.
      apply bind_Ok in Hrun as (d & Hd & (ds' & _ & [= <- _])%bind_Ok).
      unfold Decode.digester in Hd. apply bind_Ok in Hd as (? & _ & [= <-]). done.
    + unfold announced_length. cbn [value] in Hd0. rewrite Hd0. done.
  - intros f d0 Hf Hd0 Hidf Hidd.
    apply list_elem_of_lookup in Hf as [i Hi]. apply list_elem_of_lookup in Hd0 as [j Hj].
    assert (i = j) as ->; [|congruence].
    eapply (NoDup_lookup _ _ _ 0 Hnodup).
    + by rewrite list_lookup_fmap, Hi, <- Hidf.
    + by rewrite list_lookup_fmap, Hj, <- Hidd.
Qed.

(** X12. [decode] ends on every video, whatever the order in which the
    unpackers deliver, and the only step of it that can fail is the handling
    of frame 0: it panics exactly when the video holds a frame and the
    handling of frame 0 (the truncation of the file, then the write of the
    payload) panics on the segment read off that frame.  This is the case
    whenever the length that frame 0 announces is below 8.  Neither the
    unpackers, nor the reorder buffer, nor the write of any later frame can
    make it fail. *)
Theorem decode_fails_only_at_frame_0
    (completion : list frameData → list frameData) (video : list Z) :
  (∀ l, completion l ≡ₚ l) →
  decode completion video ≠ OutOfFuel
  ∧ (decode completion video = Panic ↔
       rawBytesPerFrame ≤ Slice.len video
       ∧ ∃ segment,
           Decode.unpack (take (Z.to_nat rawBytesPerFrame) video) = Ok segment
           ∧ Writer.first_frame Writer.init segment = Panic)
  ∧ (∀ L, rawBytesPerFrame ≤ Slice.len video →
       announced_length video = Ok L → L < 8 →
       decode completion video = Panic).
Proof.
  intros Hperm.
  destruct (decode_as_writer completion video Hperm)
    as (arrivals & -> & Hnodup & Hok & Hfull & Hzero & Huniq).
  assert (rawBytesPerFrame ≤ Slice.len video →
          ∃ segment L,
            Decode.unpack (take (Z.to_nat rawBytesPerFrame) video) = Ok segment
            ∧ announced_length video = Ok L
            ∧ (L < 8 → Writer.first_frame Writer.init segment = Panic)
            ∧ (8 ≤ L → Writer.first_frame Writer.init segment ≠ Panic)) as Hframe.
  { intros Hlong.
    destruct (unpack_spec (take (Z.to_nat rawBytesPerFrame) video))
      as (segment & Hseg & Hlen & _).
    { unfold Slice.len in *. rewrite length_take.
      change rawBytesPerFrame with 6220800 in *. lia. }
    destruct (WriterTotal.first_frame_outcome Writer.init segment Hlen)
      as (L & HL & Hlt & Hge).
    exists segment, L. split; [exact Hseg|]. split.
    - unfold announced_length. rewrite Hseg. exact HL.
    - split; [exact Hlt|]. intros H8. destruct (Hge H8) as (s' & -> & _). done. }
  pose proof (WriterTotal.run_outcome arrivals Hnodup Hok) as Hout.
  destruct (Writer.run arrivals) as [w| |]; cbn [bind]; [| |done].
  - assert (∀ L, rawBytesPerFrame ≤ Slice.len video →
              announced_length video = Ok L → 8 ≤ L) as Hge.
    { intros L Hlong HL. destruct (Hzero Hlong) as (d0 & Hd0 & Hid & Hann).
      destruct (Hout d0 Hd0 Hid) as (L' & HL' & Hge). rewrite Hann in HL.
      rewrite HL in HL'. by injection HL' as <-. }
    split; [done|]. split; [split; [done|]|].
    + intros (Hlong & segment & Hseg & Hpanic).
      destruct (Hframe Hlong) as (segment' & L & Hseg' & HL & _ & Hfine).
      rewrite Hseg in Hseg'. injection Hseg' as <-.
      exfalso. apply Hfine; [|exact Hpanic]. by apply Hge.
    + intros L Hlong HL Hlt. specialize (Hge L Hlong HL). lia.
  - split; [done|]. split; [split; [intros _|done]|done].
    destruct Hout as (f & L & Hf & Hid & HL & Hlt).
    pose proof (Hfull f Hf) as Hlong. split; [exact Hlong|].
    destruct (Hframe Hlong) as (segment & L' & Hseg & HL' & Hpanic & _).
    exists segment. split; [exact Hseg|]. apply Hpanic.
    destruct (Hzero Hlong) as (d0 & Hd0 & Hid0 & Hann).
    rewrite <- (Huniq f d0 Hf Hd0 Hid Hid0), HL in Hann. rewrite Hann in HL'.
    by injection HL' as <-.
Qed.

(** A video whose frame 0 announces less than 8 bytes: the one frame that
    [encode] makes of a file of a single byte. *)
Lemma single_byte_video :
  ∃ video, encode in_order [65] = Ok video
    ∧ rawBytesPerFrame ≤ Slice.len (codec_lossless video)
    ∧ announced_length (codec_lossless video) = Ok 1.
Proof.
  assert (∀ v, v ∈ [65] → 0 ≤ v < 256) as Hbytes by (apply bytes_checked; reflexivity).
  destruct (encode_spec in_order [65] Hbytes)
    as (chunks & bitmaps & Hchunk & Hpack & Hlens & Hdig & Henc); [done|].
  assert (Encode.chunk (Encode.with_header [65]) = Ok [[0; 0; 0; 0; 0; 0; 0; 1; 65]])
    as Hc by (apply chunks_are_Ok; vm_compute; reflexivity).
  rewrite Hc in Hchunk. injection Hchunk as <-.
  apply mapM_length in Hpack.
  destruct bitmaps as [|bm [|? ?]]; [simpl in Hpack; lia| |simpl in Hpack; lia].
  apply Forall_cons in Hlens as [Hbm _].
  pose proof (CodecFacts.codec_lossless_len bm Hbm) as Hraw.
  exists (concat [bm]). split; [exact Henc|]. clear Henc.
  cbn [concat]. rewrite app_nil_r. split; [rewrite Hraw; reflexivity|].
  cbn [Encode.number imap fmap list_fmap mapM] in Hdig.
  apply bind_Ok in Hdig as (d & Hd & (ds & _ & Hds)%bind_Ok).
  injection Hds as Hd0 _. subst d.
  unfold Decode.digester in Hd. cbn [value frameID] in Hd.
  apply bind_Ok in Hd as (segment & Hseg & Hd). injection Hd as Hd.
  unfold announced_length. rewrite take_ge.
  2:{ unfold Slice.len in Hraw. change rawBytesPerFrame with 6220800 in *. lia. }
  rewrite Hseg. cbn [bind]. rewrite Hd. vm_compute. reflexivity.
Qed.

Lemma decode_fails_only_at_frame_0_witness :
  ∃ video, encode in_order [65] = Ok video
    ∧ announced_length (codec_lossless video) = Ok 1
    ∧ decode second_first (codec_lossless video) = Panic.
Proof.
  destruct single_byte_video as (video & Henc & Hfull & Hann).
  exists video. split; [exact Henc|]. split; [exact Hann|].
  apply (proj2 (proj2 (decode_fails_only_at_frame_0 second_first (codec_lossless video)
                         second_first_perm)) 1 Hfull Hann).
  lia.
Defined.

(** ** The length of the file that [decode] writes *)

Module WriterLength.
Import WriterFacts Writer.

Lemma WriteAt_len (file b : list Z) (off : Z) :
  Slice.len file ≤ Slice.len (File.WriteAt file b off).
Proof.
  unfold File.WriteAt.
  destruct ((off <? 0) || (Slice.len b =? 0)); [done|].
  unfold Slice.len.
  rewrite !length_app, length_take, length_drop, !length_app, length_replicate. lia.
Qed.

Lemma drain_len fuel : ∀ s s',
  drain fuel s = Ok s' →
  lengthInt s' = lengthInt s ∧ Slice.len (file s) ≤ Slice.len (file s').
Proof.
  induction fuel as [|fuel IH]; intros s s'; cbn [drain].
  - intros (k0 & _ & Hrest)%bind_Ok. destruct (k0 =? wantedID s); [done|].
    injection Hrest as <-. done.
  - intros (k0 & _ & Hrest)%bind_Ok. destruct (k0 =? wantedID s).
    2:{ injection Hrest as <-. done. }
    apply bind_Ok in Hrest as (keys' & _ & Hrest).
    pose proof (WriteAt_len (file s) (Reorder.map_get (buffer s) (wantedID s))
                  (nextWriteByte s)) as Hgrow.
    destruct (keysLen s - 1 =? 0).
    + injection Hrest as <-. done.
    + apply IH in Hrest as [HL Hlen]. cbn [lengthInt file] in *. split; [done|lia].
Qed.

Lemma step_len s f s' :
  step s f = Ok s' →
  lengthInt s' = lengthInt s ∧ Slice.len (file s) ≤ Slice.len (file s').
Proof.
  unfold step. destruct (frameID f =? wantedID s).
  - intros (v & _ & Hrest)%bind_Ok.
    pose proof (WriteAt_len (file s) v (nextWriteByte s)) as Hgrow.
    cbn [keysLen keys] in Hrest. destruct (keysLen s =? 0).
    + injection Hrest as <-. done.
    + apply drain_len in Hrest as [HL Hlen]. cbn [lengthInt file] in *. split; [done|lia].
  - unfold enqueue. intros (keys' & _ & [= <-])%bind_Ok. done.
Qed.

Lemma first_frame_len s frameValue s' :
  first_frame s frameValue = Ok s' →
  header_length frameValue = Ok (lengthInt s')
  ∧ lengthInt s' ≤ Slice.len (file s').
Proof.
  unfold first_frame. intros (L & HL & Hrest)%bind_Ok.
  apply bind_Ok in Hrest as (fl & Hfl & Hrest).
  apply bind_Ok in Hrest as (data & _ & [= <-]). cbn [lengthInt file].
  split; [done|]. unfold File.Truncate in Hfl.
  destruct (Z.ltb_spec L 0); [done|]. injection Hfl as <-.
  etrans; [|apply WriteAt_len]. unfold Slice.len. rewrite length_resize. lia.
Qed.

Lemma await_first_len arrivals : ∀ s s' rest f,
  await_first arrivals s = Ok (s', rest) →
  f ∈ arrivals → frameID f = 0 → NoDup (frameID <$> arrivals) →
  header_length (value f) = Ok (lengthInt s')
  ∧ lengthInt s' ≤ Slice.len (file s').
Proof.
  induction arrivals as [|g arrivals IH]; intros s s' rest f; [by intros _ ?%elem_of_nil|].
  cbn [await_first]. intros Hrun Hf Hid Hnodup.
  simpl in Hnodup. apply NoDup_cons in Hnodup as [Hfresh Hnodup].
  destruct (Z.eqb_spec (frameID g) 0) as [Hg|Hg]; cbn [negb] in Hrun.
  - apply bind_Ok in Hrun as (s1 & Hs1 & [= <- <-]).
    apply elem_of_cons in Hf as [->|Hf]; [by apply first_frame_len in Hs1|].
    exfalso. apply Hfresh. rewrite Hg, <- Hid. by apply list_elem_of_fmap_2.
  - apply bind_Ok in Hrun as (s1 & _ & Hrun).
    apply elem_of_cons in Hf as [->|Hf]; [done|]. by eapply IH.
Qed.

Lemma run_len arrivals s f :
  run arrivals = Ok s →
  f ∈ arrivals → frameID f = 0 → NoDup (frameID <$> arrivals) →
  header_length (value f) = Ok (lengthInt s)
  ∧ lengthInt s ≤ Slice.len (file s).
Proof.
  unfold run. intros ([s1 rest] & Hfirst & Hrest)%bind_Ok Hf Hid Hnodup.
  cbn [fst snd] in Hrest.
  destruct (await_first_len arrivals init s1 rest f Hfirst Hf Hid Hnodup) as [Hhdr Hlen].
  assert (lengthInt s = lengthInt s1 ∧ Slice.len (file s1) ≤ Slice.len (file s)) as [HL Hgrow].
  { revert Hrest.
    apply (foldM_invariant_Ok
             (λ _ s, lengthInt s = lengthInt s1 ∧ Slice.len (file s1) ≤ Slice.len (file s))).
    - done.
    - intros n g s2 s3 _ [HL2 Hlen2] [HL3 Hlen3]%step_len. split; [congruence|lia]. }
  rewrite HL. split; [done|lia].
Qed.

End WriterLength.

(** X13. The file that [decode] leaves behind is never shorter than the
    length that frame 0 announces, whatever the video and whatever the
    order in which the unpackers deliver: the writer sets that length
    first, and no later write shortens the file. *)
Theorem decoded_file_not_shorter_than_announced
    (completion : list frameData → list frameData) (video out : list Z) :
  (∀ l, completion l ≡ₚ l) →
  rawBytesPerFrame ≤ Slice.len video →
  decode completion video = Ok out →
  ∃ L, announced_length video = Ok L ∧ L ≤ Slice.len out.
Proof.
  intros Hperm Hfull.
  destruct (decode_as_writer completion video Hperm)
    as (arrivals & -> & Hnodup & _ & _ & Hzero & _).
  destruct (Hzero Hfull) as (d0 & Hd0 & Hid & ->).
  intros (w & Hrun & [= <-])%bind_Ok.
  destruct (WriterLength.run_len arrivals w d0 Hrun Hd0 Hid Hnodup) as [Hhdr Hlen].
  exists (Writer.lengthInt w). split; [exact Hhdr|exact Hlen].
Qed.

(** A video to run [decode] on: the one frame that [encode] makes of
    [greeting]. *)
Lemma greeting_video :
  ∃ video, encode in_order greeting = Ok video
    ∧ rawBytesPerFrame ≤ Slice.len (codec_lossless video)
    ∧ decode in_order (codec_lossless video) = Ok [72; 101; 0; 0; 0; 0; 0; 0; 0; 0].
Proof.
  assert (∀ v, v ∈ greeting → 0 ≤ v < 256) as Hbytes by (apply bytes_checked; reflexivity).
  destruct (encode_spec in_order greeting Hbytes)
    as (chunks & bitmaps & Hchunk & Hpack & Hlens & _ & Henc); [done|].
  destruct (decode_encode in_order in_order greeting Hbytes)
    as (chunks' & video & Hchunk' & Henc' & Hdec); [done|].
  rewrite Hchunk in Hchunk'. injection Hchunk' as <-.
  rewrite Henc in Henc'. injection Henc' as <-.
  assert (Encode.chunk (Encode.with_header greeting) =
          Ok [[0; 0; 0; 0; 0; 0; 0; 10; 72; 101; 108; 108; 111; 32; 114; 111; 99; 113]])
    as Hc by (apply chunks_are_Ok; vm_compute; reflexivity).
  rewrite Hc in Hchunk. injection Hchunk as <-.
  exists (concat bitmaps). split; [exact Henc|]. split.
  - apply mapM_length in Hpack.
    destruct bitmaps as [|bm [|? ?]]; [simpl in Hpack; lia| |simpl in Hpack; lia].
    apply Forall_cons in Hlens as [Hbm _]. simpl. rewrite app_nil_r.
    rewrite (CodecFacts.codec_lossless_len bm Hbm). done.
  - rewrite Hdec. apply returns_Ok. vm_compute. reflexivity.
Qed.

Lemma decoded_file_not_shorter_than_announced_witness :
  ∃ video, encode in_order greeting = Ok video
    ∧ ∃ L, announced_length (codec_lossless video) = Ok L
         ∧ L ≤ Slice.len [72; 101; 0; 0; 0; 0; 0; 0; 0; 0].
Proof.
  destruct greeting_video as (video & Henc & Hfull & Hdec).
  exists video. split; [exact Henc|].
  apply (decoded_file_not_shorter_than_announced in_order (codec_lossless video)
           [72; 101; 0; 0; 0; 0; 0; 0; 0; 0]).
  - intros l. reflexivity.
  - exact Hfull.
  - exact Hdec.
Defined.

(** ** The worker pools and the thread count *)

Import PoolFacts.

(** X14. Whatever the number of workers and whatever the schedule, a pool
    that runs to its end has handed every frame to the consumer exactly
    once: the frames that arrive are a permutation of the results of the
    worker body on the frames that were sent, and the body failed on none. *)
Theorem pool_delivers_each_frame_once (threads : Z)
    (work : frameData → outcome frameData) (frames out : list frameData) :
  Pool.arrivals threads work frames out →
  ∃ results, mapM work frames = Ok results ∧ out ≡ₚ results.
Proof.
  intros (p & Hrun & [Hqueue Hidle] & <-).
  destruct (pool_run_frames work frames threads p Hrun) as (srcs & Hdone & Hperm).
  rewrite Hqueue, (held_all_idle _ Hidle), !app_nil_r in Hperm.
  destruct (Forall2_Permutation_l (λ f f', work f = Ok f') srcs frames (Pool.arrived p))
    as (results & Hres & Hp); [by symmetry|done|].
  exists results. split; [by apply mapM_Forall2|done].
Qed.

Lemma pool_delivers_each_frame_once_witness :
  ∃ bitmap, Encode.pack greeting = Ok bitmap
    ∧ ∃ results, mapM Encode.serializer [FrameData 0 greeting] = Ok results
               ∧ [FrameData 0 bitmap] ≡ₚ results.
Proof.
  destruct (pack_spec greeting) as (bitmap & Hpack & _).
  { vm_compute. split; discriminate. }
  exists bitmap. split; [exact Hpack|].
  apply (pool_delivers_each_frame_once 2 Encode.serializer
           [FrameData 0 greeting] [FrameData 0 bitmap]).
  exists (Pool.Pool [] [None; None] [FrameData 0 bitmap]).
  split; [|split; [split; [reflexivity|repeat constructor]|reflexivity]].
  apply (in_order_schedule Encode.serializer [FrameData 0 greeting]
           [FrameData 0 bitmap] [None; None] []); [reflexivity|].
  cbn [mapM]. unfold Encode.serializer. cbn [value frameID]. rewrite Hpack. reflexivity.
Defined.

(** With two or more workers the frames can overtake each other: there is
    a schedule on which the result of the second frame reaches the consumer
    before that of the first. *)
Lemma overtake_schedule (threads : Z)
    (work : frameData → outcome frameData)
    (f0 f1 r0 r1 : frameData) (rest results : list frameData) :
  2 ≤ threads →
  mapM work (f0 :: f1 :: rest) = Ok (r0 :: r1 :: results) →
  Pool.arrivals threads work (f0 :: f1 :: rest) (r1 :: r0 :: results).
Proof.
  intros Hthreads Hwork.
  apply mapM_Forall2 in Hwork.
  apply Forall2_cons_1 in Hwork as [Hf0 Hwork].
  apply Forall2_cons_1 in Hwork as [Hf1 Hwork].
  apply mapM_Forall2 in Hwork.
  assert (∃ ws, replicate (Z.to_nat threads) (@None frameData) = None :: None :: ws
              ∧ Forall (λ w, w = None) ws) as (ws & Hws & Hidle).
  { destruct (Z.to_nat threads) as [|[|n]] eqn:Hn; [lia|lia|].
    exists (replicate n None). split; [done|]. apply Forall_replicate. done. }
  exists (Pool.Pool [] (None :: None :: ws) ([r1; r0] ++ results)).
  split; [|split; [split; [done|by repeat constructor]|done]].
  unfold Pool.init. rewrite Hws.
  eapply rtc_l; [by apply (Pool.receive work f0 _ _ _ 0)|]. cbn [insert list_insert].
  eapply rtc_l; [by apply (Pool.receive work f1 _ _ _ 1)|]. cbn [insert list_insert].
  eapply rtc_l; [by apply (Pool.send work f1 r1 _ _ _ 1)|]. cbn [insert list_insert].
  eapply rtc_l; [by apply (Pool.send work f0 r0 _ _ _ 0)|]. cbn [insert list_insert].
  cbn [app].
  exact (in_order_schedule work rest results (None :: None :: ws) [r1; r0] eq_refl Hwork).
Qed.

Lemma in_order_arrivals (threads : Z) (work : frameData → outcome frameData)
    (frames results : list frameData) :
  1 ≤ threads → mapM work frames = Ok results →
  Pool.arrivals threads work frames results.
Proof.
  intros Hthreads Hwork.
  exists (Pool.Pool [] (replicate (Z.to_nat threads) None) results).
  split; [|split; [split; [done|by apply Forall_replicate]|done]].
  apply (in_order_schedule work frames results _ []); [|done].
  apply lookup_replicate_2. lia.
Qed.

(** X15. The video that [encode] pipes into the codec is a function of the
    file alone: with at least one packer there is a run, and every run,
    whatever the number of packers and whatever the schedule, pipes the
    video of the run in which the frames arrive in index order. *)
Theorem encode_video_independent_of_threads (threads : Z) (file : list Z) :
  (∀ v, v ∈ file → 0 ≤ v < 256) →
  1 ≤ threads →
  (∃ video, Pool.encode threads file video)
  ∧ (∀ threads' video, Pool.encode threads' file video →
       encode in_order file = Ok video).
Proof.
  intros Hbytes Hthreads.
  destruct (encode_spec in_order file Hbytes) as (chunks & bitmaps & Hc & Hp & _ & _ & He);
    [done|].
  assert (Forall (λ c, 1 ≤ Slice.len c ≤ 12150 ∧ ∀ v, v ∈ c → 0 ≤ v < 256) chunks)
    as Hgood.
  { apply (chunk_frames (Encode.with_header file)); [|done].
    intros v [Hv|Hv]%elem_of_app; [by eapply PutUint64_bytes|by apply Hbytes]. }
  destruct (serializer_frames chunks Z.of_nat Hgood) as (bitmaps' & Hser & Hp' & _).
  rewrite Hp in Hp'. injection Hp' as <-.
  fold (Encode.number chunks) in Hser. fold (Encode.number bitmaps) in Hser.
  assert (Encode.rawFrames file = Ok (Encode.number chunks)) as Hraw.
  { unfold Encode.rawFrames. by rewrite Hc. }
  split.
  - destruct (emitter_order_independent bitmaps (Encode.number bitmaps))
      as (e & Hrun & _); [done|].
    exists (Emitter.stdin e), (Encode.number chunks), (Encode.number bitmaps), e.
    split; [done|]. split; [done|]. split; [exact Hraw|].
    split; [by apply in_order_arrivals|done].
  - intros threads' video (rawFrames & packed & e & _ & _ & Hraw' & Harr & Hrun & ->).
    rewrite Hraw in Hraw'. injection Hraw' as <-.
    destruct Harr as (p & Hsteps & [Hqueue Hidle] & <-).
    destruct (pool_run_frames _ _ _ p Hsteps) as (srcs & Hdone & Hperm).
    rewrite Hqueue, (held_all_idle _ Hidle), !app_nil_r in Hperm.
    destruct (Forall2_Permutation_l (λ f f', Encode.serializer f = Ok f') srcs
                (Encode.number chunks) (Pool.arrived p))
      as (results & Hres & Hpr); [by symmetry|done|].
    apply mapM_Forall2 in Hres. rewrite Hser in Hres. injection Hres as <-.
    destruct (emitter_order_independent bitmaps (Pool.arrived p) Hpr)
      as (e' & Hrun' & Hout & _).
    rewrite Hrun in Hrun'. injection Hrun' as <-. by rewrite He, Hout.
Qed.

Lemma encode_video_independent_of_threads_witness :
  (∃ video, Pool.encode 3 greeting video)
  ∧ (∀ threads' video, Pool.encode threads' greeting video →
       encode in_order greeting = Ok video).
Proof.
  apply (encode_video_independent_of_threads 3 greeting).
  - apply bytes_checked. reflexivity.
  - lia.
Defined.

(** X16. With a single unpacker ([-t 1]) the frames reach the writer of
    [decode] in index order: the files that such a run can leave behind are
    exactly the result of [decode] with in-order arrival.  That result is
    also a possible outcome for every larger number of unpackers. *)
Theorem single_unpacker_decodes_in_order (video out : list Z) :
  (Pool.decode 1 video out ↔ decode in_order video = Ok out)
  ∧ (∀ threads, 1 ≤ threads → decode in_order video = Ok out →
       Pool.decode threads video out).
Proof.
  assert (∀ threads, 1 ≤ threads → decode in_order video = Ok out →
            Pool.decode threads video out) as Hex.
  { intros threads Hthreads Hdec. unfold decode in Hdec.
    apply bind_Ok in Hdec as (digested & Hdig & (w & Hrun & [= <-])%bind_Ok).
    exists digested, w. split; [by apply in_order_arrivals|done]. }
  split; [split|exact Hex].
  - intros (digested & w & (p & Hsteps & [Hqueue Hidle] & <-) & Hrun & ->).
    destruct (single_run_frames _ _ p Hsteps) as (_ & srcs & Hdone & Heq).
    rewrite Hqueue, (held_all_idle _ Hidle), !app_nil_r in Heq. subst srcs.
    apply mapM_Forall2 in Hdone.
    unfold decode. rewrite Hdone. cbn [bind]. unfold in_order, id. by rewrite Hrun.
  - by apply Hex.
Qed.

(** ** Round trips with the frames in index order *)

Lemma decode_encode_in_order_witness :
  ∃ video, encode second_first (bytes_of 12242 65) = Ok video
    ∧ decode in_order (codec_lossless video) = Ok (bytes_of 12242 65).
Proof.
  apply (InOrderFacts.decode_encode_in_order second_first (bytes_of 12242 65)).
  - intros v. apply bytes_of_range. lia.
  - apply second_first_perm.
  - vm_compute. discriminate.
  - vm_compute. reflexivity.
  - vm_compute. discriminate.
Defined.

(** X19. A file whose last frame is exactly full loses that frame: for
    every [k >= 2], [decode] (with the frames arriving in index order) of
    the video of a file of [k * processedBytesPerFrame - 8] bytes returns
    the file with its last [processedBytesPerFrame] bytes replaced by zero
    bytes, because [lastFrameOffset] is 0 and the last frame is cut down
    to nothing before it is written. *)
Theorem decode_encode_full_last_frame
    (completion : list frameData → list frameData) (file : list Z) (k : Z) :
  (∀ v, v ∈ file → 0 ≤ v < 256) →
  (∀ l, completion l ≡ₚ l) →
  2 ≤ k → Slice.len file = k * processedBytesPerFrame - 8 → Slice.len file < 2 ^ 63 →
  ∃ video, encode completion file = Ok video
    ∧ decode in_order (codec_lossless video) =
        Ok (take (Z.to_nat (Slice.len file - processedBytesPerFrame)) file
            ++ replicate (Z.to_nat processedBytesPerFrame) 0).
Proof.
  change processedBytesPerFrame with 12150. intros Hbytes Hperm Hk Hlen Hfits.
  destruct (decode_encode completion in_order file Hbytes Hperm)
    as (chunks & video & Hchunk & Henc & Hdec).
  destruct (InOrderFacts.in_order_run_full_last file) with (k := k) (chunks := chunks)
    as (w & Hrun & Hfile); try done.
  { change processedBytesPerFrame with 12150. lia. }
  { lia. }
  exists video. split; [exact Henc|]. rewrite Hdec, Hrun. cbn [bind]. rewrite Hfile.
  do 3 f_equal; lia.
Qed.

Lemma decode_encode_full_last_frame_witness :
  ∃ video, encode in_order (bytes_of 24292 65) = Ok video
    ∧ decode in_order (codec_lossless video) =
        Ok (take (Z.to_nat (Slice.len (bytes_of 24292 65) - processedBytesPerFrame))
              (bytes_of 24292 65)
            ++ replicate (Z.to_nat processedBytesPerFrame) 0).
Proof.
  apply (decode_encode_full_last_frame in_order (bytes_of 24292 65) 2).
  - intros v. apply bytes_of_range. lia.
  - intros l. reflexivity.
  - lia.
  - vm_compute. reflexivity.
  - vm_compute. reflexivity.
Defined.

(** ** When the second frame overtakes the first *)

Lemma number_seqZ {A} (l : list A) (g : nat → A → frameData) :
  (∀ i x, frameID (g i x) = Z.of_nat i) →
  frameID <$> imap g l = seqZ 0 (Slice.len (imap g l)).
Proof.
  intros Hg. rewrite (number_ids l g Hg). unfold Slice.len. rewrite length_imap.
  apply list_eq. intros i. rewrite list_lookup_fmap.
  destruct (decide (i < length l)%nat) as [Hlt|Hge].
  - rewrite lookup_seq_lt, lookup_seqZ_lt by lia. simpl. f_equal; lia.
  - rewrite lookup_seq_ge, lookup_seqZ_ge by lia. done.
Qed.

Module OvertakenFacts.
Import ReorderFacts WriterFacts Writer.

(** The handling of frame 0 leaves the reorder buffer and the cursor alone. *)
Lemma first_frame_frame s s0 frameValue r0 :
  file s = file s0 → first_frame s0 frameValue = Ok r0 →
  first_frame s frameValue =
    Ok (Writer (file r0) (lastFrameOffset r0) (lengthInt r0)
               (buffer s) (keys s) (keysLen s) (wantedID s) (nextWriteByte s)).
Proof.
  unfold first_frame. intros Hfile (L & -> & Hrest)%bind_Ok. cbn [bind].
  rewrite Hfile. apply bind_Ok in Hrest as (fl & -> & Hrest). cbn [bind].
  apply bind_Ok in Hrest as (data & -> & [= <-]). done.
Qed.

Lemma enqueue_only s f :
  StronglySorted Z.lt (keys s) → frameID f ≠ wantedID s →
  ∃ s', step s f = Ok s' ∧ file s' = file s ∧ wantedID s' = wantedID s.
Proof.
  intros Hsorted Hid. unfold step.
  rewrite (proj2 (Z.eqb_neq _ _)) by done. unfold enqueue.
  destruct (insert_key_spec (keys s) (frameID f) Hsorted) as (r & -> & _).
  cbn [bind]. eexists. split; [done|]. done.
Qed.

Lemma enqueue_file s f s' : enqueue s f = Ok s' → file s' = file s.
Proof. unfold enqueue. by intros (keys' & _ & [= <-])%bind_Ok. Qed.

(** The first loop on the frames that arrive before frame 0: all of them
    are buffered, then frame 0 is handled. *)
Lemma await_first_buffers (pre post : list frameData) (frameValue : list Z) r0 :
  first_frame init frameValue = Ok r0 →
  ∀ seen s,
    writer_inv seen s → wantedID s = 1 → file s = file init →
    NoDup (frameID <$> seen ++ pre ++ FrameData 0 frameValue :: post) →
    (∀ f, f ∈ pre → 0 ≤ frameID f) →
    ∃ s', await_first (pre ++ FrameData 0 frameValue :: post) s = Ok (s', post)
        ∧ file s' = file r0.
Proof.
  intros Hfirst. induction pre as [|f pre IH]; intros seen s Hinv Hw Hfile Hnodup Hnn.
  - cbn [app await_first frameID value]. change (negb (0 =? 0)) with false. cbv iota.
    rewrite (first_frame_frame s init frameValue r0 Hfile Hfirst). cbn [bind].
    eexists. split; [done|]. done.
  - cbn [app await_first].
    assert (frameID f ∉ frameID <$> seen) as Hnew.
    { rewrite fmap_app in Hnodup. apply NoDup_app in Hnodup as (_ & Hdisj & _).
      intros Hin. apply (Hdisj _ Hin). simpl. by left. }
    assert (frameID f ≠ 0) as Hid.
    { rewrite fmap_app in Hnodup. apply NoDup_app in Hnodup as (_ & _ & Hnd).
      cbn [app fmap list_fmap] in Hnd. apply NoDup_cons in Hnd as [Hnotin _].
      intros Heq. apply Hnotin. rewrite Heq.
      change (list_fmap frameData Z frameID) with (fmap (M:=list) frameID).
      rewrite fmap_app. apply elem_of_app. right. by left. }
    rewrite (proj2 (Z.eqb_neq _ _)) by done. cbn [negb].
    pose proof Hinv as ((Hsorted & _) & _).
    destruct (WriterTotal.enqueue_total s f Hsorted) as (s1 & Hs1 & _).
    rewrite Hs1. cbn [bind].
    assert (0 ≤ frameID f) by (apply Hnn; by left).
    destruct (enqueue_spec seen s f s1 Hinv Hnew ltac:(lia) Hs1) as [Hinv1 Hw1].
    apply (IH (seen ++ [f]) s1 Hinv1).
    + lia.
    + by rewrite (enqueue_file _ _ _ Hs1).
    + by rewrite <- (assoc_L (++)).
    + intros f' Hf'. apply Hnn. by right.
Qed.

(** Frame 1 arrives before frame 0: it is buffered while the cursor
    [wantedID] stays at 1, so the second loop never sees the index it waits
    for and buffers every later frame as well. *)
Lemma overtaken_run (pre post : list frameData) (frameValue : list Z) r0 :
  NoDup (frameID <$> pre ++ FrameData 0 frameValue :: post) →
  (∀ f, f ∈ pre ++ FrameData 0 frameValue :: post → 0 ≤ frameID f) →
  1 ∈ frameID <$> pre →
  first_frame init frameValue = Ok r0 →
  ∃ s, run (pre ++ FrameData 0 frameValue :: post) = Ok s
     ∧ file s = file r0.
Proof.
  intros Hnodup Hnn Hone Hfirst.
  set (f0 := FrameData 0 frameValue) in *.
  destruct (await_first_buffers pre post frameValue r0 Hfirst [] init init_inv eq_refl eq_refl
              Hnodup) as (sF & Hawait & HfileF).
  { intros f Hf. apply Hnn. apply elem_of_app. by left. }
  fold f0 in Hawait.
  destruct (await_first_spec (pre ++ f0 :: post) [] init sF post init_inv eq_refl
              Hnodup Hnn Hawait) as (consumed & Hsplit & Hinv & _).
  assert (consumed = pre ++ [f0]) as ->.
  { change (f0 :: post) with ([f0] ++ post) in Hsplit. rewrite (assoc_L (++)) in Hsplit.
    symmetry. by apply app_inv_tail in Hsplit. }
  simpl in Hinv.
  pose proof (await_first_wanted _ _ _ _ Hawait) as HwF. cbn [wantedID init] in HwF.
  assert (NoDup (frameID <$> (pre ++ [f0]) ++ post)) as Hnodup'.
  { by rewrite <- (assoc_L (++)). }
  unfold run. rewrite Hawait. cbn [bind fst snd].
  destruct (foldM_invariant
              (λ n s, writer_inv ((pre ++ [f0]) ++ take n post) s
                      ∧ file s = file r0 ∧ wantedID s = 1)
              step post sF) as (s & Hrun & _ & Hfile & _).
  - rewrite app_nil_r. done.
  - intros n f s Hf (Hinvs & Hfile & Hw).
    pose proof Hinvs as ((Hsorted & _) & _).
    pose proof (arrival_fresh (pre ++ [f0]) post n f Hnodup' Hf) as Hnew.
    assert (frameID f ≠ 1) as Hid.
    { intros Heq. apply Hnew. rewrite Heq, !fmap_app, !elem_of_app. by left; left. }
    destruct (enqueue_only s f Hsorted) as (s' & Hstep & Hfile' & Hw'); [by rewrite Hw|].
    exists s'. split; [exact Hstep|]. split; [|split; [congruence|congruence]].
    rewrite (take_S_r _ _ f) by done. rewrite (assoc_L (++)).
    eapply writer_step_spec; [exact Hinvs| |exact Hnew| |exact Hstep].
    + rewrite !fmap_app, !elem_of_app. left; right. by left.
    + apply Hnn. apply elem_of_app. right. right. by eapply list_elem_of_lookup_2.
  - exists s. split; [exact Hrun|exact Hfile].
Qed.

(** The writer on the padded segments of a file of at least two frames,
    frame 1 before frame 0. *)
Lemma overtaken_arrivals_run (file : list Z) (chunks : list (list Z))
    (arrivals : list frameData) :
  processedBytesPerFrame - 8 < Slice.len file → Slice.len file < 2 ^ 63 →
  Encode.chunk (Encode.with_header file) = Ok chunks →
  arrivals ≡ₚ Encode.number (pad <$> chunks) →
  (∀ pre post, arrivals = pre ++ post → 0 ∈ frameID <$> pre → 1 ∈ frameID <$> pre) →
  ∃ s, Writer.run arrivals = Ok s
     ∧ Writer.file s =
         take (Z.to_nat (processedBytesPerFrame - 8)) file
         ++ replicate (Z.to_nat (Slice.len file - (processedBytesPerFrame - 8))) 0.
Proof.
  change processedBytesPerFrame with 12150. intros Hlong Hfits Hchunk Hperm Hover.
  destruct (chunk_spec (Encode.with_header file)) as (chunks' & Hrun & Hcount & Hpieces).
  rewrite Hchunk in Hrun. injection Hrun as <-.
  rewrite len_with_header in Hcount. change processedBytesPerFrame with 12150 in Hcount.
  assert (2 ≤ Slice.len chunks) as Htwo.
  { rewrite Hcount. unfold Writer.ceil_div. Z.div_mod_to_equations. lia. }
  destruct chunks as [|c0 [|c1 cs]]; unfold Slice.len in Htwo; simpl in Htwo; try lia.
  destruct (Hpieces 0%nat c0 eq_refl) as [Hc0 _].
  change (Z.to_nat (Z.of_nat 0 * 12150)) with 0%nat in Hc0. rewrite drop_0 in Hc0.
  pose proof (InOrderFacts.in_order_first_frame file
                ltac:(change processedBytesPerFrame with 12150; lia) Hfits c0 Hc0) as Hfirst.
  cbv beta in Hfirst.
  set (frames := Encode.number (pad <$> c0 :: c1 :: cs)) in *.
  assert (frameID <$> frames = Z.of_nat <$> seq 0 (length (pad <$> c0 :: c1 :: cs)))
    as Hids by (by apply number_ids).
  assert (NoDup (frameID <$> arrivals)) as Hnodup.
  { rewrite Hperm, Hids. apply NoDup_fmap; [apply _|apply NoDup_seq]. }
  assert (∀ f, f ∈ arrivals → 0 ≤ frameID f) as Hnn.
  { intros f Hf. rewrite Hperm in Hf.
    assert (frameID f ∈ frameID <$> frames) as Hin by (by apply list_elem_of_fmap_2).
    rewrite Hids in Hin. apply list_elem_of_fmap in Hin as (i & -> & _). lia. }
  assert (FrameData 0 (pad c0) ∈ arrivals) as Hf0.
  { rewrite Hperm. by left. }
  apply list_elem_of_split in Hf0 as (pre & post & Harr).
  assert (1 ∈ frameID <$> pre) as Hone.
  { specialize (Hover (pre ++ [FrameData 0 (pad c0)]) post).
    rewrite <- (assoc_L (++)) in Hover. specialize (Hover Harr).
    rewrite fmap_app, !elem_of_app in Hover.
    destruct Hover as [|Hbad]; [right; by left|done|].
    apply list_elem_of_singleton in Hbad. done. }
  subst arrivals.
  destruct (overtaken_run pre post (pad c0) _ Hnodup Hnn Hone Hfirst) as (s & Hs & Hfile).
  exists s. split; [exact Hs|]. rewrite Hfile. cbn [Writer.file]. f_equal.
Qed.

(** The same with the second frame first and the others in index order. *)
Lemma overtaken_chunks_run (file : list Z) (chunks : list (list Z)) :
  processedBytesPerFrame - 8 < Slice.len file → Slice.len file < 2 ^ 63 →
  Encode.chunk (Encode.with_header file) = Ok chunks →
  ∃ s, Writer.run (second_first (Encode.number (pad <$> chunks))) = Ok s
     ∧ Writer.file s =
         take (Z.to_nat (processedBytesPerFrame - 8)) file
         ++ replicate (Z.to_nat (Slice.len file - (processedBytesPerFrame - 8))) 0.
Proof.
  intros Hlong Hfits Hchunk.
  apply (overtaken_arrivals_run file chunks); [done..|apply second_first_perm|].
  intros pre post Hsplit Hzero.
  destruct (chunk_spec (Encode.with_header file)) as (chunks' & Hrun & Hcount & _).
  rewrite Hchunk in Hrun. injection Hrun as <-.
  rewrite len_with_header in Hcount. change processedBytesPerFrame with 12150 in *.
  assert (2 ≤ Slice.len chunks) as Htwo.
  { rewrite Hcount. unfold Writer.ceil_div. Z.div_mod_to_equations. lia. }
  destruct chunks as [|c0 [|c1 cs]]; unfold Slice.len in Htwo; simpl in Htwo; try lia.
  destruct pre as [|f pre]; [by apply elem_of_nil in Hzero|].
  injection Hsplit as <- _. by left.
Qed.

End OvertakenFacts.

Lemma second_first_overtakes : overtakes_first second_first.
Proof.
  intros frames Hids Htwo. split; [apply second_first_perm|].
  destruct frames as [|a [|b rest]]; unfold Slice.len in *; simpl length in *; try lia.
  rewrite seqZ_cons in Hids by lia. injection Hids as Ha Hids.
  rewrite seqZ_cons in Hids by lia. injection Hids as Hb _.
  intros pre post Hsplit Hzero. cbn [second_first] in Hsplit.
  destruct pre as [|f pre]; [by apply elem_of_nil in Hzero|].
  injection Hsplit as <- _. simpl. rewrite Hb. by left.
Qed.

(** Every frame overtakes its predecessor. *)
Lemma reverse_overtakes : overtakes_first reverse.
Proof.
  intros frames Hids Htwo. split; [apply reverse_Permutation|].
  destruct frames as [|a [|b rest]]; unfold Slice.len in *; simpl length in *; try lia.
  rewrite seqZ_cons in Hids by lia. injection Hids as Ha Hids.
  rewrite seqZ_cons in Hids by lia. injection Hids as Hb Hrest.
  intros pre post Hsplit Hzero. rewrite !reverse_cons in Hsplit.
  apply app_eq_inv in Hsplit as [(k & Hk & _)|(k & -> & _)].
  2:{ rewrite !fmap_app, !elem_of_app. left; right. simpl. rewrite Hb. by left. }
  exfalso.
  assert (0 ∈ frameID <$> b :: rest) as Hbad.
  { rewrite <- (reverse_Permutation rest).
    assert (b :: reverse rest ≡ₚ reverse rest ++ [b]) as -> by apply Permutation_cons_append.
    rewrite Hk, fmap_app, elem_of_app. by left. }
  simpl in Hbad. apply elem_of_cons in Hbad as [Hbad|Hbad]; [lia|].
  change (list_fmap frameData Z frameID) with (fmap (M:=list) frameID) in *.
  rewrite Hrest in Hbad. apply elem_of_seqZ in Hbad. lia.
Qed.

(** X20. When the second frame reaches the writer of [decode] before the
    first, everything after the first frame is lost, whenever the other
    frames arrive: for every file of more than [processedBytesPerFrame - 8]
    bytes, [decode] returns the first [processedBytesPerFrame - 8] bytes of
    the file followed by zero bytes up to its length.  The writer waits for
    index 1 from the start, buffers frame 1 without a look at that cursor,
    and so buffers every later frame too. *)
Theorem decode_loses_all_but_first_frame
    (completion1 completion2 : list frameData → list frameData) (file : list Z) :
  (∀ v, v ∈ file → 0 ≤ v < 256) →
  (∀ l, completion1 l ≡ₚ l) →
  overtakes_first completion2 →
  processedBytesPerFrame - 8 < Slice.len file → Slice.len file < 2 ^ 63 →
  ∃ video, encode completion1 file = Ok video
    ∧ decode completion2 (codec_lossless video) =
        Ok (take (Z.to_nat (processedBytesPerFrame - 8)) file
            ++ replicate (Z.to_nat (Slice.len file - (processedBytesPerFrame - 8))) 0).
Proof.
  intros Hbytes Hperm Hover Hlong Hfits.
  destruct (decode_encode completion1 completion2 file Hbytes Hperm)
    as (chunks & video & Hchunk & Henc & Hdec).
  set (frames := Encode.number (pad <$> chunks)) in *.
  assert (frameID <$> frames = seqZ 0 (Slice.len frames)) as Hids.
  { by apply number_seqZ. }
  assert (2 ≤ Slice.len frames) as Htwo.
  { destruct (chunk_spec (Encode.with_header file)) as (chunks' & Hrun & Hcount & _).
    rewrite Hchunk in Hrun. injection Hrun as <-.
    rewrite len_with_header in Hcount. change processedBytesPerFrame with 12150 in *.
    unfold frames, Encode.number, Slice.len. rewrite length_imap, length_fmap.
    unfold Slice.len at 1, Writer.ceil_div in Hcount.
    Z.div_mod_to_equations. lia. }
  destruct (Hover frames Hids Htwo) as [Hp Hfirst].
  destruct (OvertakenFacts.overtaken_arrivals_run file chunks (completion2 frames)
              Hlong Hfits Hchunk Hp Hfirst) as (s & Hrun & Hfile).
  exists video. split; [exact Henc|]. rewrite Hdec, Hrun. cbn [bind]. by rewrite Hfile.
Qed.

Lemma decode_loses_all_but_first_frame_witness :
  ∃ video, encode in_order (bytes_of 36500 65) = Ok video
    ∧ decode reverse (codec_lossless video) =
        Ok (take (Z.to_nat (processedBytesPerFrame - 8)) (bytes_of 36500 65)
            ++ replicate
                 (Z.to_nat (Slice.len (bytes_of 36500 65) - (processedBytesPerFrame - 8))) 0).
Proof.
  apply (decode_loses_all_but_first_frame in_order reverse (bytes_of 36500 65)).
  - intros v. apply bytes_of_range. lia.
  - intros l. reflexivity.
  - apply reverse_overtakes.
  - vm_compute. reflexivity.
  - vm_compute. reflexivity.
Defined.

(** X21. With two or more unpackers the outcome of [decode] depends on the
    schedule: for every file of more than [processedBytesPerFrame - 8]
    bytes there is a run, for every thread count from 2 on, in which the
    second frame overtakes the first on its way to the writer, and that run
    leaves only the first [processedBytesPerFrame - 8] bytes of the file,
    followed by zero bytes up to its length. *)
Theorem decode_can_lose_frames_with_two_unpackers (threads : Z)
    (completion : list frameData → list frameData) (file : list Z) :
  (∀ v, v ∈ file → 0 ≤ v < 256) →
  (∀ l, completion l ≡ₚ l) →
  2 ≤ threads →
  processedBytesPerFrame - 8 < Slice.len file → Slice.len file < 2 ^ 63 →
  ∃ video, encode completion file = Ok video
    ∧ Pool.decode threads (codec_lossless video)
        (take (Z.to_nat (processedBytesPerFrame - 8)) file
         ++ replicate (Z.to_nat (Slice.len file - (processedBytesPerFrame - 8))) 0).
Proof.
  intros Hbytes Hperm Hthreads Hlong Hfits.
  destruct (encode_spec completion file Hbytes Hperm)
    as (chunks & bitmaps & Hchunk & Hpack & Hlens & Hdig & Henc).
  destruct (OvertakenFacts.overtaken_chunks_run file chunks Hlong Hfits Hchunk)
    as (s & Hrun & Hfile).
  exists (concat bitmaps). split; [exact Henc|].
  exists (second_first (Encode.number (pad <$> chunks))), s.
  split; [|split; [exact Hrun|by rewrite Hfile]].
  rewrite codec_lossless_concat by done. rewrite reader_concat.
  2:{ apply Forall_fmap. eapply Forall_impl; [exact Hlens|].
      intros bm Hbm. simpl. by apply CodecFacts.codec_lossless_len. }
  apply mapM_length in Hpack.
  assert (2 ≤ length chunks)%nat as Htwo.
  { destruct (chunk_spec (Encode.with_header file)) as (chunks' & Hrun2 & Hcount & _).
    rewrite Hchunk in Hrun2. injection Hrun2 as <-.
    rewrite len_with_header in Hcount. change processedBytesPerFrame with 12150 in *.
    unfold Slice.len at 1, Writer.ceil_div in Hcount.
    Z.div_mod_to_equations. lia. }
  destruct chunks as [|c0 [|c1 cs]], bitmaps as [|b0 [|b1 bs]];
    try (simpl in Hpack, Htwo; lia).
  apply (overtake_schedule threads Decode.digester
           (FrameData 0 (codec_lossless b0)) (FrameData 1 (codec_lossless b1))
           (FrameData 0 (pad c0)) (FrameData 1 (pad c1))); [exact Hthreads|].
  exact Hdig.
Qed.

Lemma decode_can_lose_frames_with_two_unpackers_witness :
  ∃ video, encode in_order (bytes_of 24300 65) = Ok video
    ∧ Pool.decode 3 (codec_lossless video)
        (take (Z.to_nat (processedBytesPerFrame - 8)) (bytes_of 24300 65)
         ++ replicate
              (Z.to_nat (Slice.len (bytes_of 24300 65) - (processedBytesPerFrame - 8))) 0).
Proof.
  apply (decode_can_lose_frames_with_two_unpackers 3 in_order (bytes_of 24300 65)).
  - intros v. apply bytes_of_range. lia.
  - intros l. reflexivity.
  - lia.
  - vm_compute. reflexivity.
  - vm_compute. reflexivity.
Defined.

(** ** The frames that may overtake each other *)

Module ReorderedFacts.
Import ReorderFacts WriterFacts Writer.

Section reordered.
Variable file : list Z.
Variable chunks : list (list Z).
Let L := Slice.len file.
Let k := Slice.len chunks.
Hypothesis long_enough : processedBytesPerFrame - 8 ≤ L.
Hypothesis fits_int64 : L < 2 ^ 63.
Hypothesis last_not_full : (L + 8) `mod` processedBytesPerFrame ≠ 0.
Hypothesis chunked : Encode.chunk (Encode.with_header file) = Ok chunks.

(** The write offset of frame [m + 1], the file once the frames up to [m]
    are written, and the segment that frame [j] carries. *)
Let off (m : Z) : Z := 12142 + m * 12150.
Let written (m : Z) : list Z :=
  take (Z.to_nat (off m)) file ++ replicate (Z.to_nat (L - off m)) 0.
Let payload (j : Z) : list Z := pad (default [] (chunks !! Z.to_nat j)).

Lemma frame_count : (k - 1) * 12150 < L + 8 < k * 12150.
Proof.
  destruct (chunk_spec (Encode.with_header file)) as (chunks' & Hrun & Hcount & _).
  rewrite chunked in Hrun. injection Hrun as <-.
  rewrite len_with_header in Hcount. fold L k in Hcount.
  change processedBytesPerFrame with 12150 in *.
  pose proof (len_nonneg file) as Hnn. fold L in Hnn.
  assert (L + 8 ≠ k * 12150) as Hne.
  { intros Heq. apply last_not_full. rewrite Heq. apply Z.mod_mul. lia. }
  rewrite Hcount in *. unfold Writer.ceil_div in *. Z.div_mod_to_equations. lia.
Qed.

Lemma segment (j : Z) :
  1 ≤ j < k →
  ∃ c, chunks !! Z.to_nat j = Some c
     ∧ c = take (Z.to_nat 12150) (drop (Z.to_nat (off (j - 1))) file)
     ∧ off (j - 1) < L.
Proof.
  intros Hj.
  destruct (chunk_spec (Encode.with_header file)) as (chunks' & Hrun & _ & Hpieces).
  rewrite chunked in Hrun. injection Hrun as <-.
  destruct (lookup_lt_is_Some_2 chunks (Z.to_nat j)) as [c Hc].
  { unfold k, Slice.len in Hj. lia. }
  exists c. split; [exact Hc|]. destruct (Hpieces _ c Hc) as [-> Hlt].
  rewrite len_with_header in Hlt. fold L in Hlt.
  split; [|unfold off; lia].
  unfold Encode.with_header.
  assert (length (PutUint64 (Slice.len file)) = 8%nat) as Hhdr by reflexivity.
  rewrite drop_app_ge; rewrite Hhdr; [|lia].
  do 2 f_equal. unfold off. lia.
Qed.

(** A frame before the last one is full, and its write extends the part of
    the file that is right. *)
Lemma write_full (j : Z) :
  1 ≤ j < k - 1 →
  File.WriteAt (written (j - 1)) (payload j) (off (j - 1)) = written j.
Proof.
  intros Hj. pose proof frame_count as Hk.
  pose proof (len_nonneg file) as Hnn. fold L in Hnn.
  destruct (segment j ltac:(lia)) as (c & Hc & Hcut & Hoff).
  assert (off j ≤ L) as Hoffj by (unfold off in *; lia).
  assert (length c = Z.to_nat 12150) as Hlenc.
  { rewrite Hcut, length_take, length_drop. unfold L, Slice.len, off in *. lia. }
  assert (payload j = c) as ->.
  { unfold payload. rewrite Hc. simpl. unfold pad, Slice.len. rewrite Hlenc.
    change (Z.to_nat (processedBytesPerFrame - Z.of_nat (Z.to_nat 12150))) with 0%nat.
    simpl. apply app_nil_r. }
  assert (length (take (Z.to_nat (off (j - 1))) file) = Z.to_nat (off (j - 1))) as Hlt.
  { rewrite length_take. unfold L, Slice.len in *. lia. }
  rewrite InOrderFacts.WriteAt_inside.
  - unfold written.
    rewrite (take_app_length' (take (Z.to_nat (off (j - 1))) file)) by done.
    rewrite drop_app_add' by done. rewrite drop_replicate.
    rewrite (assoc_L (++)). f_equal.
    + rewrite Hcut, take_take_drop. f_equal. unfold off. lia.
    + f_equal. rewrite Hlenc. unfold off in *. lia.
  - unfold off. lia.
  - intros Hnil. rewrite Hnil in Hlenc. simpl in Hlenc. lia.
  - unfold written, Slice.len. rewrite length_app, Hlt, length_replicate. lia.
Qed.

(** The last frame is cut down to what is left of the file, and its write
    completes the file. *)
Lemma write_last :
  ∃ c, Slice.slice_to (payload (k - 1)) (Z.rem (L - 12142) 12150) = Ok c
     ∧ File.WriteAt (written (k - 2)) c (off (k - 2)) = file.
Proof.
  pose proof frame_count as Hk.
  pose proof (len_nonneg file) as Hnn. fold L in Hnn.
  change processedBytesPerFrame with 12150 in *.
  destruct (segment (k - 1) ltac:(lia)) as (c & Hc & Hcut & Hoff).
  replace (k - 1 - 1) with (k - 2) in * by lia.
  assert (Z.rem (L - 12142) 12150 = L - off (k - 2)) as Hrem.
  { rewrite Z.rem_mod_nonneg by lia.
    destruct (div_mod_unique_pos (L - 12142) 12150 (k - 2) (L - off (k - 2)))
      as [_ ->]; unfold off in *; lia. }
  assert (Slice.len c = L - off (k - 2)) as Hlenc.
  { rewrite Hcut. unfold Slice.len. rewrite length_take, length_drop.
    unfold L, Slice.len, off in *. lia. }
  exists c. split.
  - unfold payload. rewrite Hc. simpl. unfold Slice.slice_to. rewrite slice_Ok.
    + rewrite Hrem. f_equal. change (Z.to_nat 0) with 0%nat. rewrite drop_0.
      unfold pad. rewrite Z.sub_0_r. apply take_app_length'.
      unfold Slice.len in Hlenc. lia.
    + done.
    + lia.
    + unfold pad. rewrite len_app. unfold Slice.len at 2.
      rewrite length_replicate. change processedBytesPerFrame with 12150.
      unfold off in *. lia.
  - assert (length (take (Z.to_nat (off (k - 2))) file) = Z.to_nat (off (k - 2))) as Hlt.
    { rewrite length_take. unfold L, Slice.len in *. lia. }
    rewrite InOrderFacts.WriteAt_inside.
    + unfold written.
      rewrite (take_app_length' (take (Z.to_nat (off (k - 2))) file)) by done.
      rewrite drop_app_add' by done. rewrite drop_replicate.
      replace (Z.to_nat (L - off (k - 2)) - length c)%nat with 0%nat
        by (unfold Slice.len in Hlenc; lia).
      assert (c = drop (Z.to_nat (off (k - 2))) file) as ->.
      { rewrite Hcut. apply take_ge. rewrite length_drop.
        unfold L, Slice.len, off in *. lia. }
      simpl. by rewrite app_nil_r, take_drop.
    + unfold off. lia.
    + intros Hnil. rewrite Hnil in Hlenc. unfold Slice.len in Hlenc. simpl in Hlenc. lia.
    + unfold written, Slice.len. rewrite length_app, Hlt, length_replicate. lia.
Qed.

Lemma last_index : Writer.ceil_div (L + 8) 12150 - 1 = k - 1.
Proof.
  pose proof frame_count as Hk. unfold Writer.ceil_div.
  Z.div_mod_to_equations. lia.
Qed.

(** What the writer keeps about its buffer while frames other than the
    last one arrive, [seen] being the frames received so far: the buffer
    holds the segments of the frames that wait, none of them the last. *)
Let inv_buffer (seen : list frameData) (s : writer) : Prop :=
  buffer_consistent (buffer s) (keys s) (keysLen s)
  ∧ (∀ f, f ∈ seen → frameID f < wantedID s ∨ is_Some (buffer s !! frameID f))
  ∧ (∀ key v, buffer s !! key = Some v →
       v = payload key ∧ key ∈ frameID <$> seen ∧ key < k - 1)
  ∧ 1 ≤ wantedID s ≤ k - 1
  ∧ (∀ j, 1 ≤ j < wantedID s → j ∈ frameID <$> seen).

(** And about the file, once frame 0 is written: the frames before
    [wantedID] are in place. *)
Let inv_file (s : writer) : Prop :=
  Writer.file s = written (wantedID s - 1)
  ∧ nextWriteByte s = off (wantedID s - 1)
  ∧ lengthInt s = L
  ∧ lastFrameOffset s = Z.rem (L - 12142) 12150.

Lemma reordered_drain fuel seen : ∀ s,
  inv_buffer seen s → inv_file s → Forall (λ key, wantedID s ≤ key) (keys s) →
  keys s ≠ [] → (length (keys s) ≤ fuel)%nat →
  ∃ s', drain fuel s = Ok s' ∧ inv_buffer seen s' ∧ inv_file s'
      ∧ Forall (λ key, wantedID s' < key) (keys s').
Proof.
  induction fuel as [|fuel IH]; intros s Hbuf Hfile Hge Hne Hfuel.
  { destruct (keys s); [done|simpl in Hfuel; lia]. }
  destruct s as [fl lfo li buf ks kl w nwb]. cbn [keys] in *.
  destruct ks as [|k0 rest]; [done|].
  destruct Hbuf as ((Hsorted & Hkl & Hdom) & Hseen & Hvals & Hw & Hall).
  destruct Hfile as (Hfl & Hnwb & Hli & Hlfo).
  cbn [buffer keys keysLen wantedID Writer.file nextWriteByte lengthInt lastFrameOffset] in *.
  apply StronglySorted_cons in Hsorted as [Hk0 Hsorted].
  apply Forall_cons in Hge as [Hk0w Hge].
  cbn [drain keys wantedID]. rewrite (index_Ok _ _ k0) by done. cbn [bind].
  destruct (Z.eqb_spec k0 w) as [->|Hk0ne].
  - cbn [Writer.file buffer keys keysLen wantedID nextWriteByte lastFrameOffset lengthInt].
    assert (Slice.slice_from (w :: rest) 1 = Ok rest) as ->.
    { unfold Slice.slice_from. rewrite slice_Ok; unfold Slice.len; simpl length; try lia.
      replace (Z.to_nat (Z.of_nat (S (length rest)) - 1)) with (length rest) by lia.
      change (Z.to_nat 1) with 1%nat. simpl. by rewrite take_ge. }
    cbn [bind].
    destruct (proj1 (Hdom w) ltac:(left)) as [v Hv].
    destruct (Hvals w v Hv) as (-> & Hwseen & Hwlast).
    unfold Reorder.map_get. rewrite Hv. cbn [default].
    rewrite Hfl, Hnwb, write_full by lia.
    set (s1 := Writer (written w) lfo li (delete w buf) rest (kl - 1) (w + 1)
                      (off (w - 1) + processedBytesPerFrame)).
    assert (inv_buffer seen s1) as Hbuf1.
    { split; [split; [done|split]|split; [|split; [|split]]];
        cbn [buffer keys keysLen wantedID s1].
      - unfold Slice.len in *. simpl length in Hkl. lia.
      - intros key. rewrite lookup_delete_is_Some. split.
        + intros Hkey. split.
          * rewrite Forall_forall in Hk0. specialize (Hk0 key Hkey). lia.
          * apply Hdom. by right.
        + intros [Hkw Hkey]. apply Hdom in Hkey.
          apply elem_of_cons in Hkey as [?|?]; done.
      - intros f Hf. destruct (Hseen f Hf) as [?|Hin]; [left; lia|].
        destruct (decide (frameID f = w)); [left; lia|right].
        by apply lookup_delete_is_Some.
      - intros key v [_ Hkey]%lookup_delete_Some. by apply Hvals.
      - lia.
      - intros j Hj. destruct (decide (j = w)) as [->|]; [done|]. apply Hall. lia. }
    assert (inv_file s1) as Hfile1.
    { split; [|split; [|done]]; cbn [Writer.file nextWriteByte wantedID s1].
      - f_equal. lia.
      - unfold off. change processedBytesPerFrame with 12150. lia. }
    assert (Forall (λ key, w + 1 ≤ key) rest) as Hge1.
    { eapply Forall_impl; [exact Hk0|]. intros; simpl in *; lia. }
    destruct (Z.eqb_spec (kl - 1) 0) as [Hz|Hnz].
    + exists s1. split; [done|]. split; [done|]. split; [done|]. cbn [keys s1].
      destruct rest; [constructor|].
      unfold Slice.len in Hkl. simpl length in Hkl. lia.
    + apply IH; cbn [keys wantedID s1]; [done|done|done| |simpl in Hfuel; lia].
      intros ->. unfold Slice.len in Hkl. simpl length in Hkl. lia.
  - eexists. split; [done|]. split.
    { split; [split; [|done]|done]. cbn [keys]. by apply StronglySorted_cons. }
    split; [done|]. cbn [keys wantedID]. apply Forall_cons. split; [lia|].
    eapply Forall_impl; [exact Hk0|]. intros; simpl in *; lia.
Qed.

Lemma reordered_enqueue seen s f :
  inv_buffer seen s → Forall (λ key, wantedID s < key) (keys s) →
  frameID f ∉ frameID <$> seen → wantedID s < frameID f < k - 1 →
  value f = payload (frameID f) →
  ∃ s', enqueue s f = Ok s' ∧ inv_buffer (seen ++ [f]) s'
      ∧ Forall (λ key, wantedID s' < key) (keys s')
      ∧ Writer.file s' = Writer.file s ∧ nextWriteByte s' = nextWriteByte s
      ∧ wantedID s' = wantedID s ∧ same_header s s'.
Proof.
  intros ((Hsorted & Hkl & Hdom) & Hseen & Hvals & Hw & Hall) Hgt Hnew Hid Hval.
  unfold enqueue.
  destruct (insert_key_spec (keys s) (frameID f) Hsorted) as (r & -> & Hlo & Hhi).
  cbn [bind]. eexists. split; [done|].
  assert (frameID f ∉ keys s) as Hfresh.
  { intros [v Hv]%Hdom. by destruct (Hvals _ _ Hv) as (_ & ? & _). }
  pose proof (take_drop r (keys s)) as Hsplit.
  assert (∀ key, key ∈ take r (keys s) ++ frameID f :: drop r (keys s)
                 ↔ key = frameID f ∨ key ∈ keys s) as Hmem.
  { intros key. rewrite <- Hsplit at 3. rewrite !elem_of_app, elem_of_cons. tauto. }
  split; [|split; [|done]].
  - split; [split; [|split]|split; [|split; [|split]]];
      cbn [buffer keys keysLen wantedID].
    + rewrite <- Hsplit in Hsorted.
      apply StronglySorted_app in Hsorted as (Hcross & Hs1 & Hs2).
      apply StronglySorted_app. split; [|split; [done|]].
      * intros x1 x2 Hx1 [->|Hx2]%elem_of_cons; [|by apply Hcross].
        rewrite Forall_forall in Hlo. by apply Hlo.
      * apply StronglySorted_cons. split; [|done].
        apply Forall_forall. intros x Hx.
        rewrite Forall_forall in Hhi. specialize (Hhi x Hx).
        assert (x ≠ frameID f); [|lia].
        intros ->. apply Hfresh. rewrite <- Hsplit. apply elem_of_app. by right.
    + unfold Slice.len in *. rewrite length_app. simpl length.
      rewrite <- Hsplit in Hkl. rewrite length_app in Hkl. lia.
    + intros key. rewrite Hmem, lookup_insert_is_Some, Hdom.
      split; intros [?|?]; auto. destruct (decide (frameID f = key)); auto.
      right. tauto.
    + intros f' [Hf'|Hf']%elem_of_app.
      * destruct (Hseen f' Hf') as [?|Hin]; [by left|right].
        apply lookup_insert_is_Some. destruct (decide (frameID f = frameID f')); auto.
      * apply list_elem_of_singleton in Hf' as ->. right.
        apply lookup_insert_is_Some. by left.
    + intros key v Hv. rewrite fmap_app, elem_of_app.
      apply lookup_insert_Some in Hv as [[<- <-]|[Hne Hv]].
      * split; [done|]. split; [|lia]. right. simpl. by left.
      * destruct (Hvals key v Hv) as (? & ? & ?). auto.
    + done.
    + intros j Hj. rewrite fmap_app, elem_of_app. left. by apply Hall.
  - cbn [keys wantedID]. apply Forall_forall. intros key [->|Hkey]%Hmem; [lia|].
    rewrite Forall_forall in Hgt. by apply Hgt.
Qed.

Lemma reordered_step seen s f :
  inv_buffer seen s → inv_file s → Forall (λ key, wantedID s < key) (keys s) →
  frameID f ∉ frameID <$> seen → 1 ≤ frameID f < k - 1 →
  value f = payload (frameID f) →
  ∃ s', step s f = Ok s' ∧ inv_buffer (seen ++ [f]) s' ∧ inv_file s'
      ∧ Forall (λ key, wantedID s' < key) (keys s').
Proof.
  intros Hbuf Hfile Hgt Hnew Hid Hval. unfold step.
  destruct (Z.eqb_spec (frameID f) (wantedID s)) as [Hw|Hw].
  - destruct Hbuf as ((Hsorted & Hkl & Hdom) & Hseen & Hvals & Hwr & Hall).
    destruct Hfile as (Hfl & Hnwb & Hli & Hlfo).
    change processedBytesPerFrame with 12150.
    rewrite Hli, last_index. rewrite (proj2 (Z.eqb_neq _ _)) by lia. cbn [bind].
    rewrite Hval, Hw, Hfl, Hnwb, write_full by lia.
    set (s1 := Writer _ _ _ _ _ _ _ _).
    assert (inv_buffer (seen ++ [f]) s1) as Hbuf1.
    { split; [done|split; [|split; [|split]]]; cbn [buffer keys keysLen wantedID s1].
      - intros f' [Hf'|Hf']%elem_of_app.
        + destruct (Hseen f' Hf'); [left; lia|by right].
        + apply list_elem_of_singleton in Hf' as ->. left. lia.
      - intros key v Hv. destruct (Hvals key v Hv) as (-> & Hkey & Hlast).
        split; [done|]. split; [|done]. rewrite fmap_app. apply elem_of_app. by left.
      - lia.
      - intros j Hj. rewrite fmap_app. apply elem_of_app.
        destruct (decide (j = wantedID s)) as [->|].
        + right. simpl. rewrite Hw. by left.
        + left. apply Hall. lia. }
    assert (inv_file s1) as Hfile1.
    { split; [|split; [|done]]; cbn [Writer.file nextWriteByte wantedID s1].
      - f_equal. lia.
      - unfold off. lia. }
    cbn [keysLen keys s1].
    destruct (Z.eqb_spec (keysLen s) 0) as [Hz|Hnz].
    + exists s1. split; [done|]. split; [done|]. split; [done|]. cbn [keys s1].
      destruct (keys s); [constructor|].
      unfold Slice.len in Hkl. simpl length in Hkl. lia.
    + apply reordered_drain; cbn [keys wantedID s1]; [done|done| | |done].
      * eapply Forall_impl; [exact Hgt|]. intros; simpl in *; lia.
      * intros Hnil. rewrite Hnil in Hkl. unfold Slice.len in Hkl. simpl in Hkl. lia.
  - assert (wantedID s < frameID f) as Hlt.
    { destruct Hbuf as (_ & _ & _ & _ & Hall).
      destruct (Z.lt_ge_cases (wantedID s) (frameID f)) as [|Hge]; [done|].
      exfalso. apply Hnew. apply Hall. lia. }
    destruct (reordered_enqueue seen s f Hbuf Hgt Hnew ltac:(lia) Hval)
      as (s' & Hs' & Hbuf' & Hgt' & Hfl' & Hnwb' & Hw' & HL' & HO').
    exists s'. split; [exact Hs'|]. split; [exact Hbuf'|]. split; [|exact Hgt'].
    destruct Hfile as (Hfl & Hnwb & Hli & Hlfo).
    split; [|split; [|split]]; congruence.
Qed.

Lemma payload_first : payload 0 = pad (take (Z.to_nat 12150) (Encode.with_header file)).
Proof.
  destruct (chunk_spec (Encode.with_header file)) as (chunks' & Hrun & _ & Hpieces).
  rewrite chunked in Hrun. injection Hrun as <-.
  pose proof frame_count as Hk.
  pose proof (len_nonneg file) as Hnn. fold L in Hnn.
  destruct (lookup_lt_is_Some_2 chunks 0) as [c0 Hc0].
  { unfold k, Slice.len in Hk. lia. }
  unfold payload. change (Z.to_nat 0) with 0%nat. rewrite Hc0. simpl.
  destruct (Hpieces 0%nat c0 Hc0) as [-> _].
  change (Z.to_nat (Z.of_nat 0 * 12150)) with 0%nat. by rewrite drop_0.
Qed.

(** The first loop: the frames that arrive before frame 0 are buffered,
    and frame 0 sets the length and is written. *)
Lemma reordered_await (pre : list frameData) : ∀ seen s (f0 : frameData) rest,
  inv_buffer seen s → Forall (λ key, wantedID s < key) (keys s) →
  wantedID s = 1 → Writer.file s = [] → nextWriteByte s = off 0 →
  NoDup (frameID <$> seen ++ pre) →
  (∀ f, f ∈ pre → 2 ≤ frameID f < k - 1 ∧ value f = payload (frameID f)) →
  frameID f0 = 0 → value f0 = payload 0 →
  ∃ s', await_first (pre ++ f0 :: rest) s = Ok (s', rest)
      ∧ inv_buffer (seen ++ pre ++ [f0]) s' ∧ inv_file s'
      ∧ Forall (λ key, wantedID s' < key) (keys s').
Proof.
  induction pre as [|f pre IH];
    intros seen s f0 rest Hbuf Hgt Hw Hfl Hnwb Hnodup Hpre Hid0 Hval0.
  - cbn [app await_first]. rewrite Hid0. change (negb (0 =? 0)) with false. cbv iota.
    pose proof (InOrderFacts.in_order_first_frame file long_enough fits_int64 _ eq_refl)
      as Hfirst.
    rewrite <- payload_first, <- Hval0 in Hfirst.
    rewrite (OvertakenFacts.first_frame_frame s init (value f0) _ Hfl Hfirst).
    cbn [bind Writer.file lastFrameOffset lengthInt].
    eexists. split; [done|].
    destruct Hbuf as (Hcons & Hseen & Hvals & Hwr & Hall).
    split; [|split; [|done]].
    + split; [done|split; [|split; [|split]]]; cbn [buffer keys keysLen wantedID].
      * intros f' [Hf'|Hf']%elem_of_app; [by apply Hseen|].
        apply list_elem_of_singleton in Hf' as ->. left. lia.
      * intros key v Hv. destruct (Hvals key v Hv) as (-> & Hkey & Hlast).
        split; [done|]. split; [|done]. rewrite fmap_app. apply elem_of_app. by left.
      * done.
      * intros j Hj. rewrite fmap_app. apply elem_of_app. left. by apply Hall.
    + split; [|split; [|done]]; cbn [Writer.file nextWriteByte wantedID].
      * rewrite Hw. unfold written, off. do 3 f_equal; lia.
      * rewrite Hw, Hnwb. unfold off. lia.
  - cbn [app await_first].
    destruct (Hpre f ltac:(by left)) as [Hid Hval].
    rewrite (proj2 (Z.eqb_neq _ _)) by lia. cbn [negb].
    assert (frameID f ∉ frameID <$> seen) as Hnew.
    { rewrite fmap_app in Hnodup. apply NoDup_app in Hnodup as (_ & Hdisj & _).
      intros Hin. apply (Hdisj _ Hin). simpl. by left. }
    destruct (reordered_enqueue seen s f Hbuf Hgt Hnew ltac:(lia) Hval)
      as (s1 & -> & Hbuf1 & Hgt1 & Hfl1 & Hnwb1 & Hw1 & _).
    cbn [bind].
    destruct (IH (seen ++ [f]) s1 f0 rest) as (s' & Hrun & Hbuf' & Hfile' & Hgt');
      try done; try congruence.
    + by rewrite <- (assoc_L (++)).
    + intros f' Hf'. apply Hpre. by right.
    + exists s'. split; [exact Hrun|]. rewrite <- !(assoc_L (++)) in Hbuf'. done.
Qed.

Lemma init_buffer : inv_buffer [] init.
Proof.
  pose proof frame_count as Hk.
  pose proof (len_nonneg file) as Hnn. fold L in Hnn.
  change processedBytesPerFrame with 12150 in *.
  split; [split; [constructor|split; [done|]]|split; [|split; [|split]]];
    cbn [buffer keys keysLen wantedID init].
  - intros key. rewrite lookup_empty. split; [by intros ?%elem_of_nil|by intros [? ?]].
  - by intros f ?%elem_of_nil.
  - intros key v. by rewrite lookup_empty.
  - lia.
  - intros j Hj. lia.
Qed.

(** The writer rebuilds the file when frame 1 does not arrive before
    frame 0 and the last frame arrives last; the other frames may arrive in
    any order. *)
Lemma reordered_run (arrivals : list frameData) :
  arrivals ≡ₚ Encode.number (pad <$> chunks) →
  (∀ pre post, arrivals = pre ++ post →
     1 ∈ frameID <$> pre → 0 ∈ frameID <$> pre) →
  last (frameID <$> arrivals) = Some (k - 1) →
  ∃ w, run arrivals = Ok w ∧ Writer.file w = file.
Proof.
  intros Hperm Hzero Hlast. pose proof frame_count as Hk.
  pose proof (len_nonneg file) as Hnn. fold L in Hnn.
  change processedBytesPerFrame with 12150 in *.
  assert (frameID <$> Encode.number (pad <$> chunks)
          = Z.of_nat <$> seq 0 (length (pad <$> chunks))) as Hids.
  { by apply number_ids. }
  rewrite length_fmap in Hids.
  assert (NoDup (frameID <$> arrivals)) as Hnodup.
  { rewrite Hperm, Hids. apply NoDup_fmap; [apply _|apply NoDup_seq]. }
  assert (∀ f, f ∈ arrivals → 0 ≤ frameID f < k ∧ value f = payload (frameID f)) as Hin.
  { intros f Hf. rewrite Hperm in Hf. unfold Encode.number in Hf.
    apply list_elem_of_lookup in Hf as (n & Hn). rewrite list_lookup_imap in Hn.
    rewrite list_lookup_fmap in Hn.
    destruct (chunks !! n) as [c|] eqn:Hc; [|done]. injection Hn as <-. simpl.
    pose proof (lookup_lt_Some _ _ _ Hc). unfold k, Slice.len. split; [lia|].
    unfold payload. by rewrite Nat2Z.id, Hc. }
  assert (∀ j, 0 ≤ j < k → j ∈ frameID <$> arrivals) as Hall.
  { intros j Hj. rewrite Hperm, Hids. apply list_elem_of_fmap.
    exists (Z.to_nat j). split; [lia|]. apply elem_of_seq. unfold k, Slice.len in Hj. lia. }
  (* the last frame *)
  rewrite fmap_last in Hlast.
  destruct (last arrivals) as [fl|] eqn:Hfl; [|done].
  apply last_Some in Hfl as [body ->]. injection Hlast as Hidl.
  (* frame 0 *)
  assert ((0 : Z) ∈ frameID <$> body) as H0.
  { specialize (Hall 0 ltac:(lia)). rewrite fmap_app in Hall.
    apply elem_of_app in Hall as [|Hl]; [done|].
    apply list_elem_of_singleton in Hl. simpl in Hl. lia. }
  apply list_elem_of_fmap in H0 as (f0 & Hid0 & Hf0).
  apply list_elem_of_split in Hf0 as (pre & mid & ->).
  rewrite <- (assoc_L (++)) in *. cbn [app] in *. symmetry in Hid0.
  assert (∀ f, f ∈ pre ∨ f ∈ mid → 1 ≤ frameID f < k - 1) as Hmiddle.
  { intros f Hf.
    destruct (Hin f) as [Hrange _].
    { rewrite elem_of_app, elem_of_cons, elem_of_app. tauto. }
    assert (frameID f ≠ 0 ∧ frameID f ≠ k - 1); [|lia].
    rewrite !fmap_app, fmap_cons, fmap_app in Hnodup. simpl in Hnodup.
    apply NoDup_app in Hnodup as (_ & Hdisj & Hnd).
    apply NoDup_cons in Hnd as [Hnot0 Hnd].
    apply NoDup_app in Hnd as (_ & Hdisj2 & _).
    rewrite Hid0 in *. rewrite Hidl in *.
    destruct Hf as [Hf|Hf].
    - split; intros Heq.
      + apply (Hdisj (frameID f)); [by apply list_elem_of_fmap_2|]. rewrite Heq. by left.
      + apply (Hdisj (frameID f)); [by apply list_elem_of_fmap_2|]. rewrite Heq.
        right. apply elem_of_app. right. by left.
    - split; intros Heq.
      + apply Hnot0. rewrite <- Heq. apply elem_of_app. left.
        by apply list_elem_of_fmap_2.
      + apply (Hdisj2 (frameID f)); [by apply list_elem_of_fmap_2|]. rewrite Heq. by left. }
  assert (∀ f, f ∈ pre → 2 ≤ frameID f < k - 1 ∧ value f = payload (frameID f)) as Hpre.
  { intros f Hf. destruct (Hin f) as [_ Hval]; [apply elem_of_app; by left|].
    split; [|done]. pose proof (Hmiddle f ltac:(by left)).
    assert (frameID f ≠ 1); [|lia]. intros Hone.
    specialize (Hzero pre (f0 :: mid ++ [fl]) eq_refl).
    assert ((0 : Z) ∈ frameID <$> pre) as Hbad.
    { apply Hzero. rewrite <- Hone. by apply list_elem_of_fmap_2. }
    rewrite fmap_app in Hnodup. apply NoDup_app in Hnodup as (_ & Hdisj & _).
    apply (Hdisj 0 Hbad). simpl. rewrite Hid0. by left. }
  (* the first loop *)
  assert (NoDup (frameID <$> [] ++ pre)) as Hnodup_pre.
  { simpl. rewrite fmap_app in Hnodup. by apply NoDup_app in Hnodup as (? & _). }
  assert (value f0 = payload 0) as Hval0.
  { rewrite <- Hid0. apply Hin. apply elem_of_app. right. by left. }
  assert (Forall (λ key, wantedID init < key) (keys init)) as Hgt0 by constructor.
  destruct (reordered_await pre [] init f0 (mid ++ [fl]) init_buffer Hgt0
              eq_refl eq_refl eq_refl Hnodup_pre Hpre Hid0 Hval0)
    as (s1 & Hawait & Hbuf1 & Hfile1 & Hgt1).
  simpl in Hbuf1.
  unfold run. rewrite Hawait. cbn [bind fst snd].
  (* the frames in the middle *)
  rewrite foldM_app.
  destruct (foldM_invariant
              (λ n s, inv_buffer (pre ++ [f0] ++ take n mid) s ∧ inv_file s
                      ∧ Forall (λ key, wantedID s < key) (keys s))
              step mid s1) as (s2 & -> & Hbuf2 & Hfile2 & Hgt2).
  { simpl. done. }
  { intros n f s Hf (Hbufs & Hfiles & Hgts).
    pose proof (list_elem_of_lookup_2 _ _ _ Hf) as Hfmid.
    destruct (Hin f) as [_ Hval].
    { rewrite elem_of_app, elem_of_cons, elem_of_app. tauto. }
    destruct (reordered_step (pre ++ [f0] ++ take n mid) s f) as (s' & Hs' & Hrest);
      try done.
    - intros Hdup. apply list_elem_of_fmap in Hdup as (f' & Heq & Hf').
      apply list_elem_of_lookup in Hf' as [m Hm].
      set (arrivals := pre ++ f0 :: mid ++ [fl]) in *.
      assert (arrivals !! m = Some f') as Hm'.
      { unfold arrivals. rewrite (assoc_L (++)) in Hm.
        change (f0 :: mid ++ [fl]) with ([f0] ++ mid ++ [fl]). rewrite (assoc_L (++)).
        apply lookup_app_Some in Hm as [Hm|[Hlen Hm]].
        - by apply lookup_app_l_Some.
        - apply lookup_take_Some in Hm as [Hm _]. rewrite lookup_app_r by done.
          by apply lookup_app_l_Some. }
      assert (arrivals !! (length (pre ++ [f0]) + n)%nat = Some f) as Hn'.
      { unfold arrivals. change (f0 :: mid ++ [fl]) with ([f0] ++ mid ++ [fl]).
        rewrite (assoc_L (++)). rewrite lookup_app_r by lia.
        replace (length (pre ++ [f0]) + n - length (pre ++ [f0]))%nat with n by lia.
        by apply lookup_app_l_Some. }
      assert (m = (length (pre ++ [f0]) + n)%nat) as ->.
      { eapply (NoDup_lookup _ _ _ (frameID f) Hnodup).
        - rewrite list_lookup_fmap, Hm'. simpl. by rewrite Heq.
        - by rewrite list_lookup_fmap, Hn'. }
      rewrite (assoc_L (++)) in Hm.
      apply lookup_app_Some in Hm as [Hm|[_ Hm]].
      + apply lookup_lt_Some in Hm. lia.
      + apply lookup_take_Some in Hm as [_ Hm]. lia.
    - apply Hmiddle. by right.
    - exists s'. split; [exact Hs'|].
      rewrite (take_S_r _ _ f) by done. rewrite !(assoc_L (++)) in *. done. }
  cbn [bind]. rewrite take_ge in Hbuf2 by done.
  (* the last frame *)
  destruct Hbuf2 as ((Hsorted & Hkl & Hdom) & Hseen & Hvals & Hwr & Hallw).
  destruct Hfile2 as (Hfl2 & Hnwb2 & Hli2 & Hlfo2).
  assert (wantedID s2 = k - 1) as Hw2.
  { destruct (decide (wantedID s2 = k - 1)) as [|Hne]; [done|exfalso].
    specialize (Hall (wantedID s2) ltac:(lia)).
    apply list_elem_of_fmap in Hall as (f & Hidf & Hf').
    assert (f ∈ pre ++ [f0] ++ mid) as Hf.
    { rewrite !elem_of_app, list_elem_of_singleton.
      rewrite elem_of_app, elem_of_cons, elem_of_app, list_elem_of_singleton in Hf'.
      destruct Hf' as [?|[?|[?| ->]]]; auto. lia. }
    destruct (Hseen f Hf) as [?|Hb]; [lia|].
    rewrite <- Hidf in Hb. apply Hdom in Hb.
    rewrite Forall_forall in Hgt2. specialize (Hgt2 _ Hb). lia. }
  assert (keys s2 = []) as Hkeys.
  { destruct (keys s2) as [|key ks] eqn:Hks; [done|exfalso].
    apply Forall_cons in Hgt2 as [Hkey _].
    destruct (proj1 (Hdom key) ltac:(left)) as [v Hv].
    destruct (Hvals key v Hv) as (_ & _ & ?). lia. }
  destruct (Hin fl) as [_ Hvall].
  { rewrite elem_of_app, elem_of_cons, elem_of_app, list_elem_of_singleton. tauto. }
  destruct write_last as (c & Hcut & Hwrite).
  cbn [foldM]. unfold step.
  rewrite Hidl, Hw2, Z.eqb_refl, Hli2. change processedBytesPerFrame with 12150.
  rewrite last_index, Z.eqb_refl, Hlfo2, Hvall, Hidl, Hcut. cbn [bind keysLen].
  rewrite Hkl, Hkeys. change (Slice.len [] =? 0) with true. cbv iota.
  eexists. split; [done|]. cbn [Writer.file].
  rewrite Hfl2, Hnwb2, Hw2. replace (k - 1 - 1) with (k - 2) by lia. exact Hwrite.
Qed.

End reordered.
End ReorderedFacts.

(** A delivery that leaves the first frame first delivers frame 0 before
    frame 1. *)
Lemma first_stays_first (frames arrivals : list frameData) :
  frameID <$> frames = seqZ 0 (Slice.len frames) →
  head arrivals = head frames →
  ∀ pre post, arrivals = pre ++ post → 1 ∈ frameID <$> pre → 0 ∈ frameID <$> pre.
Proof.
  intros Hids Hhead pre post -> Hone.
  destruct pre as [|f pre]; [by apply elem_of_nil in Hone|].
  simpl in Hhead. destruct frames as [|f' frames]; [done|].
  injection Hhead as ->. unfold Slice.len in Hids. simpl length in Hids.
  rewrite seqZ_cons in Hids by lia. injection Hids as Hid _.
  simpl. rewrite Hid. by left.
Qed.

Lemma in_order_keeps_ends : keeps_ends in_order.
Proof.
  intros frames Hids. split; [done|]. split; [|done].
  by apply (first_stays_first frames).
Qed.

Lemma swap_middle_keeps_ends : keeps_ends swap_middle.
Proof.
  intros frames Hids. split; [|split].
  - destruct frames as [|a [|b [|c [|d rest]]]]; try done. simpl.
    apply perm_skip, perm_swap.
  - apply (first_stays_first frames); [done|].
    by destruct frames as [|a [|b [|c [|d rest]]]].
  - by destruct frames as [|a [|b [|c [|d rest]]]].
Qed.

(** X22. The frames between the first and the last may overtake each other:
    for every file of at least [processedBytesPerFrame - 8] bytes whose
    last frame is not exactly full, [decode] gives back what [encode] was
    run on whenever frame 1 does not reach the writer before frame 0 and the
    last frame reaches it last; all other frames may arrive in any order,
    early frames wait in the reorder buffer and are written when their turn
    comes. *)
Theorem decode_encode_reordered
    (completion1 completion2 : list frameData → list frameData) (file : list Z) :
  (∀ v, v ∈ file → 0 ≤ v < 256) →
  (∀ l, completion1 l ≡ₚ l) →
  keeps_ends completion2 →
  processedBytesPerFrame - 8 ≤ Slice.len file → Slice.len file < 2 ^ 63 →
  (Slice.len file + 8) `mod` processedBytesPerFrame ≠ 0 →
  ∃ video, encode completion1 file = Ok video
         ∧ decode completion2 (codec_lossless video) = Ok file.
Proof.
  intros Hbytes Hperm Hends Hlong Hfits Hlast.
  destruct (decode_encode completion1 completion2 file Hbytes Hperm)
    as (chunks & video & Hchunk & Henc & Hdec).
  exists video. split; [exact Henc|]. rewrite Hdec.
  set (frames := Encode.number (pad <$> chunks)).
  assert (frameID <$> frames = seqZ 0 (Slice.len frames)) as Hids.
  { by apply number_seqZ. }
  destruct (Hends frames Hids) as (Hp & Hzero & Hend).
  pose proof (ReorderedFacts.frame_count file chunks Hlast Hchunk) as Hk.
  destruct (ReorderedFacts.reordered_run file chunks Hlong Hfits Hlast Hchunk
              (completion2 frames) Hp Hzero) as (w & -> & Hfile).
  - rewrite Hend, Hids. unfold frames, Encode.number, Slice.len.
    rewrite length_imap, length_fmap.
    pose proof (len_nonneg file). change processedBytesPerFrame with 12150 in *.
    unfold Slice.len in Hk.
    destruct (length chunks) as [|n] eqn:Hn; [lia|].
    replace (Z.of_nat (S n)) with (Z.of_nat n + 1) by lia.
    rewrite seqZ_snoc by lia. rewrite last_snoc. f_equal. lia.
  - cbn [bind]. by rewrite Hfile.
Qed.

Lemma decode_encode_reordered_witness :
  ∃ video, encode second_first (bytes_of 36500 65) = Ok video
         ∧ decode swap_middle (codec_lossless video) = Ok (bytes_of 36500 65).
Proof.
  apply (decode_encode_reordered second_first swap_middle (bytes_of 36500 65)).
  - intros v. apply bytes_of_range. lia.
  - apply second_first_perm.
  - apply swap_middle_keeps_ends.
  - vm_compute. discriminate.
  - vm_compute. reflexivity.
  - vm_compute. discriminate.
Defined.
